(** * Storage quota and retention gateway of the chat worker

    A shallow embedding of the file-storage part of the worker: the type
    allow-lists, the usage counter kept in the key-value store, the quota
    gate of the two upload paths, confirm, delete, the retention sweep and
    the SigV4 presigner.

    The repository has two variants of the worker.  [Mediated] is the one
    that receives the files itself (POST /api/upload); [Presigned] hands out
    presigned PUT URLs (POST /api/upload-urls, POST /api/confirm).

    Conventions of the model
    - a JavaScript string is a Rocq [string] holding its UTF-8 bytes;
    - a JavaScript number that counts bytes or milliseconds is an integer of
      [Z] (the values stay far below 2^53, where doubles are exact);
    - an awaited call that can reject is a computation of the monad [M]:
      it returns a value or throws, and keeps the state reached so far. *)

From stdpp Require Import base option list strings gmap fin_maps sorting.
From Stdlib Require Import ZArith Lia Ascii.
From Stdlib.Strings Require Import Byte.
From Stdlib Require DecimalString.

Local Open Scope string_scope.
Local Open Scope Z_scope.

(** ** JavaScript string helpers *)

Module JsString.

Definition byte_str (l : list nat) : string :=
  foldr (fun n s => String (ascii_of_nat n) s) EmptyString l.

(** [s.lastIndexOf(c)] for a one-character needle: the index of the last
    occurrence, or -1. *)
Fixpoint lastIndexOf (c : ascii) (s : string) : Z :=
  match s with
  | EmptyString => -1
  | String a r =>
      let j := lastIndexOf c r in
      if 0 <=? j then j + 1 else if Ascii.eqb a c then 0 else -1
  end.

Fixpoint drop (n : nat) (s : string) : string :=
  match n, s with
  | O, _ => s
  | S n', String _ r => drop n' r
  | S _, EmptyString => EmptyString
  end.

(** [s.slice(start)] for [start >= 0]. *)
Definition slice (s : string) (start : Z) : string := drop (Z.to_nat start) s.

Fixpoint take (n : nat) (s : string) : string :=
  match n, s with
  | S n', String a r => String a (take n' r)
  | _, _ => EmptyString
  end.

(** [s.slice(0, end)]: a negative [end] counts from the end of [s]. *)
Definition slice_to (s : string) (end_ : Z) : string :=
  let len := Z.of_nat (String.length s) in
  take (Z.to_nat (if end_ <? 0 then Z.max (len + end_) 0 else Z.min end_ len)) s.

Definition lower_ascii (a : ascii) : ascii :=
  let n := nat_of_ascii a in
  if ((65 <=? n) && (n <=? 90))%nat then ascii_of_nat (n + 32) else a.

(** [s.toLowerCase()].  Only A-Z change; the bytes of a non-ASCII
    character stay as they are.  JavaScript lowers non-ASCII letters too,
    but to non-ASCII letters, except for the Kelvin sign (to k) and the
    dotted capital I (to i plus a combining dot); no allow-listed
    extension has a k or an i, so membership in the list is the same. *)
Fixpoint toLowerCase (s : string) : string :=
  match s with
  | EmptyString => EmptyString
  | String a r => String (lower_ascii a) (toLowerCase r)
  end.

(** The white space and line terminators that [trim] removes, as UTF-8. *)
Definition whitespace : list string :=
  map byte_str
    [ [9]; [10]; [11]; [12]; [13]; [32]; [194; 160]; [225; 154; 128];
      [226; 128; 128]; [226; 128; 129]; [226; 128; 130]; [226; 128; 131];
      [226; 128; 132]; [226; 128; 133]; [226; 128; 134]; [226; 128; 135];
      [226; 128; 136]; [226; 128; 137]; [226; 128; 138]; [226; 128; 168];
      [226; 128; 169]; [226; 128; 175]; [226; 129; 159]; [227; 128; 128];
      [239; 187; 191] ]%nat.

Fixpoint strip_prefix (p s : string) : option string :=
  match p, s with
  | EmptyString, _ => Some s
  | String a p', String b s' => if Ascii.eqb a b then strip_prefix p' s' else None
  | String _ _, EmptyString => None
  end.

Fixpoint strip_any (ps : list string) (s : string) : option string :=
  match ps with
  | [] => None
  | p :: ps' =>
      match strip_prefix p s with
      | Some r => Some r
      | None => strip_any ps' s
      end
  end.

Fixpoint trimStart_fuel (fuel : nat) (ps : list string) (s : string) : string :=
  match fuel with
  | O => s
  | S f =>
      match strip_any ps s with
      | Some r => trimStart_fuel f ps r
      | None => s
      end
  end.

Fixpoint rev_string (s acc : string) : string :=
  match s with
  | EmptyString => acc
  | String a r => rev_string r (String a acc)
  end.

Definition reverse (s : string) : string := rev_string s EmptyString.

Definition trimStart (s : string) : string :=
  trimStart_fuel (String.length s) whitespace s.

Definition trimEnd (s : string) : string :=
  reverse (trimStart_fuel (String.length s) (map reverse whitespace) (reverse s)).

(** [s.trim()]. *)
Definition trim (s : string) : string := trimEnd (trimStart s).

(** JavaScript truthiness of a string. *)
Definition truthy (s : string) : bool :=
  match s with EmptyString => false | _ => true end.

Fixpoint has_char (c : ascii) (s : string) : bool :=
  match s with
  | EmptyString => false
  | String a r => Ascii.eqb a c || has_char c r
  end.

End JsString.

(** ** Configuration shared by the two variants *)

Definition MAX_FILES_PER_BATCH : Z := 20.
Definition BYTES_LIMIT : Z := 19 * 512 * 1024 * 1024.  (* 9.5 * 1024^3 *)
Definition ONE_WEEK_MS : Z := 7 * 24 * 60 * 60 * 1000.

Definition ALLOWED_MIME : gset string :=
  list_to_set
    [ "text/plain"; "text/markdown"; "text/csv"; "text/tab-separated-values";
      "application/json"; "application/pdf";
      "application/vnd.openxmlformats-officedocument.wordprocessingml.document";
      "application/vnd.openxmlformats-officedocument.presentationml.presentation";
      "application/vnd.openxmlformats-officedocument.spreadsheetml.sheet";
      "text/html"; "application/xml"; "text/xml"; "application/rtf" ].

Definition ALLOWED_EXT : gset string :=
  list_to_set
    [ ".txt"; ".md"; ".csv"; ".tsv"; ".json"; ".pdf"; ".docx"; ".pptx";
      ".xlsx"; ".html"; ".xml"; ".rtf" ].

(** [set.has(x)] *)
Definition has (s : gset string) (x : string) : bool := bool_decide (x ∈ s).

Definition dot : ascii := "."%char.

Module Mediated_types.

(** [isAllowed(type, filename)] of the server-mediated variant. *)
Definition isAllowed (type filename : string) : bool :=
  if JsString.truthy type && has ALLOWED_MIME type then true
  else
    let d := JsString.lastIndexOf dot filename in
    if 0 <=? d then has ALLOWED_EXT (JsString.toLowerCase (JsString.slice filename d))
    else false.

End Mediated_types.

Module Presigned_types.

(** [isAllowed(type, filename)] of the presigned variant; both arguments
    may be [undefined]. *)
Definition isAllowed (type filename : option string) : bool :=
  let t := JsString.trim (default "" type) in
  if JsString.truthy t && has ALLOWED_MIME t then true
  else
    let name := default "" filename in
    let d := JsString.lastIndexOf dot name in
    if (0 <=? d) && has ALLOWED_EXT (JsString.toLowerCase (JsString.slice name d))
    then true
    else if negb (JsString.truthy t) || String.eqb t "application/octet-stream"
    then true
    else false.

End Presigned_types.

(** ** The runtime outside the worker

    Everything the worker calls but does not define: the clock rendering
    and parsing of [Date], [crypto], the page size of the bucket listing,
    the secrets and variables bound to the worker, and which awaited calls
    reject.  The worker's code is modelled once, for every runtime. *)

Class Runtime := {
  (** [Date.parse(s)]; [None] is NaN *)
  Date_parse : string -> option Z;
  (** [Date.parse("")] is NaN *)
  Date_parse_empty : Date_parse "" = None;
  (** [new Date(ms).toISOString()] *)
  Date_toISOString : Z -> string;
  (** [date.toString()] of the upload date of an object *)
  Date_toString : Z -> string;
  (** [crypto.subtle.sign("HMAC", key, msg)] with SHA-256 *)
  hmac_sha256 : list byte -> list byte -> list byte;
  (** [crypto.subtle.digest("SHA-256", data)] *)
  sha256 : list byte -> list byte;
  (** the n-th value of [crypto.randomUUID()] *)
  randomUUID : nat -> string;
  (** objects per page of [FILES.list] *)
  list_limit : positive;
  R2_ACCESS_KEY_ID : option string;
  R2_SECRET_ACCESS_KEY : option string;
  R2_ACCOUNT_ID : option string;
  R2_BUCKET : option string;
  (** the calls that reject *)
  kv_get_fails : string -> bool;
  kv_put_fails : string -> bool;
  r2_list_fails : option nat -> bool;
  r2_head_fails : string -> bool;
  r2_get_fails : string -> bool;
  r2_put_fails : string -> bool;
  r2_delete_fails : string -> bool;
}.

(** ** Stores *)

Record HttpMetadata := {
  contentType : option string;
  contentDisposition : option string;
}.

(** The payload of an object: its content, named, and its length. *)
Record Body := {
  content : string;
  byteLength : Z;
}.

Record R2Object := {
  body : Body;
  httpMetadata : option HttpMetadata;
  customMetadata : option (gmap string string);
  (** upload date in epoch milliseconds; [None] when the listing has none *)
  uploaded : option Z;
}.

Definition size (o : R2Object) : Z := byteLength (body o).

(** The key-value namespace: the counter under "used_bytes", holding the
    decimal rendering of an integer (every write of the worker is
    [String(n)]), and the snapshots under "pending:<keys>". *)
Record PendingBatch := {
  pending_pin : bool;
  pending_files : list (string * Z);
}.

Record KV := {
  used_bytes : option Z;
  pending : gmap string PendingBatch;
}.

Record World := {
  FILES : gmap string R2Object;
  FILES_KV : KV;
  (** [Date.now()] *)
  clock : Z;
  (** how many UUIDs were drawn *)
  rng : nat;
  (** the keys handed to [presignPutUrl] so far (a record kept by the model) *)
  signed : list string;
}.

Definition set_FILES (f : gmap string R2Object -> gmap string R2Object) (w : World) : World :=
  {| FILES := f (FILES w); FILES_KV := FILES_KV w; clock := clock w; rng := rng w;
     signed := signed w |}.

Definition set_KV (f : KV -> KV) (w : World) : World :=
  {| FILES := FILES w; FILES_KV := f (FILES_KV w); clock := clock w; rng := rng w;
     signed := signed w |}.

Definition set_rng (n : nat) (w : World) : World :=
  {| FILES := FILES w; FILES_KV := FILES_KV w; clock := clock w; rng := n;
     signed := signed w |}.

Definition set_signed (l : list string) (w : World) : World :=
  {| FILES := FILES w; FILES_KV := FILES_KV w; clock := clock w; rng := rng w;
     signed := l |}.

Definition set_used_bytes (v : option Z) (kv : KV) : KV :=
  {| used_bytes := v; pending := pending kv |}.

Definition add_pending (k : string) (p : PendingBatch) (kv : KV) : KV :=
  {| used_bytes := used_bytes kv; pending := <[k := p]> (pending kv) |}.

(** ** Awaited calls: state and exceptions *)

Inductive Outcome (A : Type) : Type :=
| Ok (a : A)
| Throw (what : string)
| Timeout.

Arguments Ok {A} a.
Arguments Throw {A} what.
Arguments Timeout {A}.

Definition M (A : Type) : Type := World -> Outcome A * World.

Definition ret {A} (a : A) : M A := fun w => (Ok a, w).

Definition throw {A} (what : string) : M A := fun w => (Throw what, w).

Definition bind {A B} (m : M A) (k : A -> M B) : M B :=
  fun w =>
    match m w with
    | (Ok a, w') => k a w'
    | (Throw e, w') => (Throw e, w')
    | (Timeout, w') => (Timeout, w')
    end.

(** [try { m } catch { h }] and [m.catch(() => h)] *)
Definition try_catch {A} (m : M A) (h : M A) : M A :=
  fun w =>
    match m w with
    | (Ok a, w') => (Ok a, w')
    | (Throw _, w') => h w'
    | (Timeout, w') => (Timeout, w')
    end.

Declare Scope worker_scope.
Delimit Scope worker_scope with worker.

Notation "x <- m ;; k" := (bind m (fun x => k))
  (at level 100, m at next level, right associativity) : worker_scope.
Notation "m ;;; k" := (bind m (fun _ => k))
  (at level 100, right associativity) : worker_scope.

Local Open Scope worker_scope.

(** [for (const x of l) acc = body(acc, x)] with awaits in the body *)
Fixpoint for_of {A X} (l : list X) (body : A -> X -> M A) (acc : A) : M A :=
  match l with
  | [] => ret acc
  | x :: l' => acc' <- body acc x ;; for_of l' body acc'
  end.

Section Stores.
Context `{Runtime}.

(** *** FILES_KV *)

Definition USED_BYTES : string := "used_bytes".

(** [await env.FILES_KV.get("used_bytes")] *)
Definition KV_get_used : M (option Z) :=
  fun w =>
    if kv_get_fails USED_BYTES then (Throw "KV.get", w)
    else (Ok (used_bytes (FILES_KV w)), w).

(** [await env.FILES_KV.put("used_bytes", String(n))] *)
Definition KV_put_used (n : Z) : M unit :=
  fun w =>
    if kv_put_fails USED_BYTES then (Throw "KV.put", w)
    else (Ok tt, set_KV (set_used_bytes (Some n)) w).

(** [await env.FILES_KV.put(key, JSON.stringify(p), { expirationTtl })] *)
Definition KV_put_pending (key : string) (p : PendingBatch) : M unit :=
  fun w =>
    if kv_put_fails key then (Throw "KV.put", w)
    else (Ok tt, set_KV (add_pending key p) w).

(** *** FILES *)

(** [await env.FILES.head(key)] *)
Definition R2_head (key : string) : M (option R2Object) :=
  fun w =>
    if r2_head_fails key then (Throw "R2.head", w) else (Ok (FILES w !! key), w).

(** [await env.FILES.get(key)] *)
Definition R2_get (key : string) : M (option R2Object) :=
  fun w =>
    if r2_get_fails key then (Throw "R2.get", w) else (Ok (FILES w !! key), w).

(** [await env.FILES.put(key, body, { httpMetadata, customMetadata })]:
    the object under [key] is replaced, its upload date is now. *)
Definition R2_put (key : string) (b : Body) (hm : option HttpMetadata)
    (cm : gmap string string) : M unit :=
  fun w =>
    if r2_put_fails key then (Throw "R2.put", w)
    else
      let o := {| body := b; httpMetadata := hm; customMetadata := Some cm;
                  uploaded := Some (clock w) |} in
      (Ok tt, set_FILES (insert key o) w).

(** [await env.FILES.delete(key)] *)
Definition R2_delete (key : string) : M unit :=
  fun w =>
    if r2_delete_fails key then (Throw "R2.delete", w)
    else (Ok tt, set_FILES (delete key) w).

(** The enumeration of a bucket: its objects in the order of their keys,
    byte by byte, as R2 lists them. *)
Definition key_le (e1 e2 : string * R2Object) : Prop := String.le (fst e1) (fst e2).

#[local] Instance key_le_dec : RelDecision key_le.
Proof. intros e1 e2. unfold key_le. apply _. Defined.

Definition listing_of (m : gmap string R2Object) : list (string * R2Object) :=
  merge_sort key_le (map_to_list m).

(** One page of [env.FILES.list({ cursor })].  A cursor marks a place in
    the enumeration of the bucket that the first call started; deleting
    objects that were listed already does not move it.  [listing] is that
    enumeration and a cursor is an offset into it. *)
Record R2Objects := {
  objects : list (string * R2Object);
  truncated : bool;
  cursor : nat;
}.

Definition R2_list (listing : list (string * R2Object)) (c : option nat) : M R2Objects :=
  fun w =>
    if r2_list_fails c then (Throw "R2.list", w)
    else
      let off := default 0%nat c in
      let n := Pos.to_nat list_limit in
      (Ok {| objects := take n (drop off listing);
             truncated := bool_decide (off + n < length listing)%nat;
             cursor := (off + n)%nat |}, w).

(** [do { list = await FILES.list({cursor}); for (o of list.objects) ...;
         cursor = list.truncated ? list.cursor : undefined } while (cursor)] *)
Fixpoint list_loop {A} (fuel : nat) (listing : list (string * R2Object))
    (c : option nat) (body : A -> string * R2Object -> M A) (acc : A) : M A :=
  match fuel with
  | O => fun w => (Timeout, w)
  | S fuel' =>
      l <- R2_list listing c ;;
      acc' <- for_of (objects l) body acc ;;
      if truncated l then list_loop fuel' listing (Some (cursor l)) body acc'
      else ret acc'
  end.

(** The whole loop, started on the bucket as it is. *)
Definition for_each_listed {A} (body : A -> string * R2Object -> M A) (acc : A) : M A :=
  fun w =>
    let listing := listing_of (FILES w) in
    list_loop (S (length listing)) listing None body acc w.

End Stores.

(** ** Responses *)

Record Upload := {
  upload_key : string;
  upload_url : string;
  upload_name : string;
  upload_size : Z;
  upload_type : option string;
}.

Record StoredFile := {
  stored_key : string;
  stored_name : string;
  stored_size : Z;
  stored_type : string;
  stored_pinned : bool;
}.

Inductive Json : Type :=
| JQuota (usedBytes limitBytes : Z) (okToUpload : bool)
| JFail (message : string)
| JQuotaExceeded (reason message : string) (usedBytes limitBytes : Z)
| JUploads (uploads : list Upload) (pin : bool)
| JFiles (files : list StoredFile)
| JConfirmed (updated totalBytes : Z)
| JOk
| JCleanup (deleted freedBytes : Z).

Inductive Response : Type :=
| json (data : Json) (status : Z)
| text (msg : string) (status : Z).

Definition status_of (r : Response) : Z :=
  match r with json _ s => s | text _ s => s end.

(** The text of the quota message, its greater-or-equal sign written in
    ASCII and without the emoji that end it. *)
Definition QUOTA_MESSAGE : string :=
  "Whoa there, data dragon! Your hoard is full (>= 9.5 GB). Time to slay some old files before feeding me more.".

Definition quota_exceeded (used : Z) : Response :=
  json (JQuotaExceeded "quota" QUOTA_MESSAGE used BYTES_LIMIT) 413.

(** [String(b)] of a boolean *)
Definition String_of_bool (b : bool) : string := if b then "true" else "false".

(** [Date.now()] *)
Definition Date_now : M Z := fun w => (Ok (clock w), w).

(** [crypto.randomUUID()] *)
Definition crypto_randomUUID `{Runtime} : M string :=
  fun w => (Ok (randomUUID (rng w)), set_rng (S (rng w)) w).

(** [nowISO()] *)
Definition nowISO `{Runtime} : M string :=
  t <- Date_now ;; ret (Date_toISOString t).

(** ** The retention rule of the sweep *)

Section Retention.
Context `{Runtime}.

(** [o.customMetadata?.[field]] *)
Definition meta (o : R2Object) (field : string) : option string :=
  match customMetadata o with
  | Some cm => cm !! field
  | None => None
  end.

(** [a || b] where both may be undefined *)
Definition js_or (a b : option string) : option string :=
  match a with
  | Some s => if JsString.truthy s then Some s else b
  | None => b
  end.

(** [o.customMetadata?.pinned === "true"] *)
Definition is_pinned (o : R2Object) : bool :=
  bool_decide (meta o "pinned" = Some "true").

(** [Date.parse(o.customMetadata?.last_accessed || o.uploaded?.toString() || "")] *)
Definition last_of (o : R2Object) : option Z :=
  Date_parse
    (default ""
       (js_or (js_or (meta o "last_accessed") (Date_toString <$> uploaded o))
              (Some ""))).

(** [!pinned && (isFinite(last) ? last < cutoff : true)] *)
Definition sweepable (cutoff : Z) (o : R2Object) : bool :=
  negb (is_pinned o) &&
  match last_of o with
  | Some last => last <? cutoff
  | None => true
  end.

(** The body of the inner loop: [deleted] and [freed] are the accumulator. *)
Definition sweep_object (cutoff : Z) (acc : Z * Z) (e : string * R2Object) : M (Z * Z) :=
  let '(deleted, freed) := acc in
  let '(key, o) := e in
  if sweepable cutoff o then
    R2_delete key ;;; ret (deleted + 1, freed + size o)
  else ret (deleted, freed).

End Retention.

(** ** The server-mediated variant *)

Module Mediated.
Section Handlers.
Context `{Runtime}.

Definition isAllowed := Mediated_types.isAllowed.

Definition getUsedBytes : M Z :=
  v <- KV_get_used ;;
  match v with
  | Some n => ret n
  | None =>
      total <- for_each_listed (fun total e => ret (total + size (snd e))) 0 ;;
      KV_put_used total ;;;
      ret total
  end.

(** Modelled from the spec: the atomic counter primitive behind
    [env.FILES_KV.atomic().get("used_bytes").mutate(f).commit()].  The chain
    is not defined in the repository; as the specification describes such a
    primitive and as the chain is named, it reads the cell, applies [f] and
    writes the result back in one indivisible step. *)
Definition KV_atomic_mutate (f : option Z -> Z) : M unit :=
  fun w =>
    if kv_get_fails USED_BYTES || kv_put_fails USED_BYTES then (Throw "KV.atomic", w)
    else (Ok tt, set_KV (set_used_bytes (Some (f (used_bytes (FILES_KV w))))) w).

(** [(Number(v) || 0) + delta] *)
Definition bumpUsedBytes (delta : Z) : M unit :=
  KV_atomic_mutate (fun v => default 0 v + delta).

Definition handleQuota : M Response :=
  used <- getUsedBytes ;;
  ret (json (JQuota used BYTES_LIMIT (used <? BYTES_LIMIT)) 200).

(** An entry of the form data under "files". *)
Inductive FormEntry : Type :=
| FFile (name type : string) (content : Body)
| FString (value : string).

(** The first loop of [handleUpload]: type checks and [batchBytes]. *)
Fixpoint check_entries (files : list FormEntry) (batchBytes : Z) : Response + Z :=
  match files with
  | [] => inr batchBytes
  | FString _ :: _ => inl (text "Malformed form data." 400)
  | FFile name type content :: rest =>
      if negb (isAllowed type name) then
        inl (text ("Unsupported type: "
                   +:+ (if JsString.truthy type then type else "unknown")
                   +:+ " (" +:+ name +:+ ")") 415)
      else check_entries rest (batchBytes + byteLength content)
  end.

Definition dquote : string := String (ascii_of_nat 34) EmptyString.

(** The second loop of [handleUpload]. *)
Definition store_entry (pin : bool) (results : list StoredFile) (entry : FormEntry)
    : M (list StoredFile) :=
  match entry with
  | FString _ => throw "TypeError"
  | FFile name type content =>
      uuid <- crypto_randomUUID ;;
      let key := uuid +:+ "/" +:+ (if JsString.truthy name then name else "file") in
      stamp <- nowISO ;;
      R2_put key content
        (Some {| contentType := Some type;
                 contentDisposition :=
                   Some ("inline; filename=" +:+ dquote +:+ name +:+ dquote) |})
        (<["last_accessed" := stamp]> (<["pinned" := String_of_bool pin]> ∅)) ;;;
      let results :=
        (results ++ [ {| stored_key := key; stored_name := name;
                         stored_size := byteLength content; stored_type := type;
                         stored_pinned := pin |} ])%list in
      bumpUsedBytes (byteLength content) ;;;
      ret results
  end.

Definition handleUpload (files : list FormEntry) (pin : bool) : M Response :=
  if bool_decide (files = []) then ret (text "No files." 400)
  else if MAX_FILES_PER_BATCH <? Z.of_nat (length files)
  then ret (text "Max 20 files per upload." 413)
  else
    match check_entries files 0 with
    | inl r => ret r
    | inr batchBytes =>
        used <- getUsedBytes ;;
        if BYTES_LIMIT <=? used + batchBytes then ret (quota_exceeded used)
        else
          results <- for_of files (store_entry pin) [] ;;
          ret (json (JFiles results) 200)
    end.

Definition handleDelete (key : string) : M Response :=
  head <- R2_head key ;;
  match head with
  | None => ret (text "Not found" 404)
  | Some h =>
      R2_delete key ;;;
      bumpUsedBytes (- size h) ;;;
      ret (json JOk 200)
  end.

Definition handleCleanup (token : option string) : M Response :=
  if negb (bool_decide (token = Some "cron")) then ret (text "forbidden" 403)
  else
    now <- Date_now ;;
    let cutoff := now - ONE_WEEK_MS in
    acc <- for_each_listed (sweep_object cutoff) (0, 0) ;;
    let '(deleted, freed) := acc in
    (if negb (freed =? 0) then bumpUsedBytes (- freed) else ret tt) ;;;
    ret (json (JCleanup deleted freed) 200).

(** *** The router under /api/files/ *)

(** [parts[parts.length - 1]] of [rest.split("/")] *)
Definition last_segment (rest : string) : string :=
  let d := JsString.lastIndexOf "/" rest in
  if 0 <=? d then JsString.slice rest (d + 1) else rest.

(** The key that the router hands to the handlers, [rest] being the decoded
    path after /api/files/: without its last segment when that is "access"
    or "pin", whatever the method. *)
Definition route_key (rest : string) : string :=
  let sub := last_segment rest in
  if String.eqb sub "access" || String.eqb sub "pin"
  then JsString.slice_to rest (JsString.lastIndexOf "/" rest)
  else rest.


End Handlers.
End Mediated.

(** ** URL encoding and hexadecimal *)

Module Encoding.

Definition hex_digit (upper : bool) (n : nat) : ascii :=
  if (n <? 10)%nat then ascii_of_nat (48 + n)
  else ascii_of_nat ((if upper then 55 else 87) + n).

(** two hexadecimal digits of a byte value *)
Definition hex2 (upper : bool) (n : nat) : string :=
  String (hex_digit upper (n / 16)) (String (hex_digit upper (n mod 16)) EmptyString).

Definition is_alnum (n : nat) : bool :=
  ((48 <=? n) && (n <=? 57) || (65 <=? n) && (n <=? 90) || (97 <=? n) && (n <=? 122))%nat.

Definition in_chars (a : ascii) (s : string) : bool := JsString.has_char a s.

(** [encodeURIComponent(s)]: letters, digits and - _ . ! ~ * ' ( ) stay,
    every other byte becomes %XX. *)
Fixpoint encodeURIComponent (s : string) : string :=
  match s with
  | EmptyString => EmptyString
  | String a r =>
      let n := nat_of_ascii a in
      if is_alnum n || in_chars a "-_.!~*'()"
      then String a (encodeURIComponent r)
      else "%" +:+ hex2 true n +:+ encodeURIComponent r
  end.

(** The serializer of [URLSearchParams]: letters, digits and * - . _ stay,
    a space becomes +, every other byte becomes %XX. *)
Fixpoint form_encode (s : string) : string :=
  match s with
  | EmptyString => EmptyString
  | String a r =>
      let n := nat_of_ascii a in
      if is_alnum n || in_chars a "*-._" then String a (form_encode r)
      else if (n =? 32)%nat then String "+"%char (form_encode r)
      else "%" +:+ hex2 true n +:+ form_encode r
  end.

(** [new URLSearchParams(pairs).toString()] *)
Fixpoint search_params (qp : list (string * string)) : string :=
  match qp with
  | [] => EmptyString
  | [(k, v)] => form_encode k +:+ "=" +:+ form_encode v
  | (k, v) :: rest => form_encode k +:+ "=" +:+ form_encode v +:+ "&" +:+ search_params rest
  end.

(** [new TextEncoder().encode(s)] *)
Fixpoint utf8 (s : string) : list byte :=
  match s with
  | EmptyString => []
  | String a r => byte_of_ascii a :: utf8 r
  end.

(** [[...new Uint8Array(u8)].map(b => b.toString(16).padStart(2, "0")).join("")] *)
Fixpoint u8ToHex (u8 : list byte) : string :=
  match u8 with
  | [] => EmptyString
  | b :: r => hex2 false (nat_of_ascii (ascii_of_byte b)) +:+ u8ToHex r
  end.

Definition is_digit (a : ascii) : bool :=
  let n := nat_of_ascii a in ((48 <=? n) && (n <=? 57))%nat.

(** [s.replace(/[:-]|\.\d{3}/g, "")] *)
Fixpoint strip_punctuation (s : string) : string :=
  match s with
  | EmptyString => EmptyString
  | String a r =>
      if Ascii.eqb a ":" || Ascii.eqb a "-" then strip_punctuation r
      else
        match r with
        | String d1 (String d2 (String d3 r')) =>
            if Ascii.eqb a "." && is_digit d1 && is_digit d2 && is_digit d3
            then strip_punctuation r'
            else String a (strip_punctuation r)
        | _ => String a (strip_punctuation r)
        end
  end.

(** [s.slice(0, n)] *)
Definition take (n : nat) (s : string) : string := JsString.take n s.

(** [l.join(sep)] *)
Fixpoint join (sep : string) (l : list string) : string :=
  match l with
  | [] => EmptyString
  | [x] => x
  | x :: r => x +:+ sep +:+ join sep r
  end.

Definition newline : string := String (ascii_of_nat 10) EmptyString.

(** [String(n)] of an integer *)
Definition String_of_Z (n : Z) : string :=
  DecimalString.NilZero.string_of_int (Z.to_int n).

End Encoding.

(** ** The presigned variant *)

Module Presigned.
Section Handlers.
Context `{Runtime}.

Definition isAllowed := Presigned_types.isAllowed.

(** The counter is read under [try], and so is the listing. *)
Definition getUsedBytes : M Z :=
  v <- try_catch KV_get_used (ret None) ;;
  match v with
  | Some n => ret n
  | None =>
      try_catch
        (total <- for_each_listed (fun total e => ret (total + size (snd e))) 0 ;;
         try_catch (KV_put_used total) (ret tt) ;;;
         ret total)
        (ret 0)
  end.

(** [const cur = Number(await get(key)) || 0; await put(key, String(cur + delta))] *)
Definition bumpUsedBytes (delta : Z) : M unit :=
  v <- KV_get_used ;;
  let cur := default 0 v in
  KV_put_used (cur + delta).

(** *** SigV4 *)

Definition hmac (key : list byte) (msg : string) : list byte :=
  hmac_sha256 key (Encoding.utf8 msg).

Definition sha256Hex (s : string) : string :=
  Encoding.u8ToHex (sha256 (Encoding.utf8 s)).

Record PresignOpts := {
  accountId : string;
  bucket : string;
  key : string;
  accessKeyId : string;
  secretAccessKey : string;
  region : option string;
  expiresSec : option Z;
}.

Definition presign_host (opts : PresignOpts) : string :=
  accountId opts +:+ ".r2.cloudflarestorage.com".

Definition canonicalUri (opts : PresignOpts) : string :=
  "/" +:+ bucket opts +:+ "/" +:+ Encoding.encodeURIComponent (key opts).

(** yyyymmddThhmmssZ *)
Definition amzDate (now : Z) : string :=
  Encoding.take 15 (Encoding.strip_punctuation (Date_toISOString now)) +:+ "Z".

Definition datestamp (now : Z) : string := Encoding.take 8 (amzDate now).

Definition algorithm : string := "AWS4-HMAC-SHA256".

Definition credentialScope (now : Z) (opts : PresignOpts) : string :=
  datestamp now +:+ "/" +:+ default "auto" (region opts) +:+ "/s3/aws4_request".

(** The five parameters that are signed. *)
Definition query_params (now : Z) (opts : PresignOpts) : list (string * string) :=
  [ ("X-Amz-Algorithm", algorithm);
    ("X-Amz-Credential", accessKeyId opts +:+ "/" +:+ credentialScope now opts);
    ("X-Amz-Date", amzDate now);
    ("X-Amz-Expires", Encoding.String_of_Z (default 600 (expiresSec opts)));
    ("X-Amz-SignedHeaders", "host") ].

Definition canonicalRequest (now : Z) (opts : PresignOpts) : string :=
  Encoding.join Encoding.newline
    [ "PUT"; canonicalUri opts; Encoding.search_params (query_params now opts);
      "host:" +:+ presign_host opts +:+ Encoding.newline; "host"; "UNSIGNED-PAYLOAD" ].

Definition stringToSign (now : Z) (opts : PresignOpts) : string :=
  Encoding.join Encoding.newline
    [ algorithm; amzDate now; credentialScope now opts;
      sha256Hex (canonicalRequest now opts) ].

Definition kDate (now : Z) (opts : PresignOpts) : list byte :=
  hmac (Encoding.utf8 ("AWS4" +:+ secretAccessKey opts)) (datestamp now).

Definition signature (now : Z) (opts : PresignOpts) : string :=
  let kRegion := hmac (kDate now opts) (default "auto" (region opts)) in
  let kService := hmac kRegion "s3" in
  let kSigning := hmac kService "aws4_request" in
  Encoding.u8ToHex (hmac kSigning (stringToSign now opts)).

(** The URL that [presignPutUrl] returns when the clock shows [now]. *)
Definition presigned_url (now : Z) (opts : PresignOpts) : string :=
  "https://" +:+ presign_host opts +:+ canonicalUri opts +:+ "?"
  +:+ Encoding.search_params (query_params now opts)
  +:+ "&X-Amz-Signature=" +:+ signature now opts.

Definition presignPutUrl (opts : PresignOpts) : M string :=
  now <- Date_now ;;
  fun w => (Ok (presigned_url now opts), set_signed (signed w ++ [key opts])%list w).

(** *** Routes of [fetch] *)

(** GET /api/quota *)
Definition fetch_quota : M Response :=
  used <- getUsedBytes ;;
  ret (json (JQuota used BYTES_LIMIT (used <? BYTES_LIMIT)) 200).

(** An element of [files] in the body of POST /api/upload-urls. *)
Record FileDecl := {
  file_name : string;
  file_size : Z;
  file_type : option string;
}.

(** The first loop of the route: type checks and [total]. *)
Fixpoint check_files (files : list FileDecl) (total : Z) : Response + Z :=
  match files with
  | [] => inr total
  | f :: rest =>
      if negb (isAllowed (file_type f) (Some (file_name f))) then
        inl (json (JFail ("Unsupported type for " +:+ file_name f)) 415)
      else check_files rest (total + file_size f)
  end.

Definition presign_file (accountId bucket accessKeyId secretAccessKey : string)
    (uploads : list Upload) (f : FileDecl) : M (list Upload) :=
  uuid <- crypto_randomUUID ;;
  let key := uuid +:+ "/" +:+ file_name f in
  url <- presignPutUrl
           {| accountId := accountId; bucket := bucket; key := key;
              accessKeyId := accessKeyId; secretAccessKey := secretAccessKey;
              region := None; expiresSec := Some 600 |} ;;
  ret (uploads ++ [ {| upload_key := key; upload_url := url;
                       upload_name := file_name f; upload_size := file_size f;
                       upload_type := file_type f |} ])%list.

(** [!s] of a binding that may be undefined *)
Definition unset (s : option string) : bool :=
  negb (JsString.truthy (default "" s)).

(** POST /api/upload-urls *)
Definition fetch_upload_urls (files : list FileDecl) (pin : bool) : M Response :=
  if bool_decide (files = []) then ret (json (JFail "No files.") 400)
  else if MAX_FILES_PER_BATCH <? Z.of_nat (length files)
  then ret (json (JFail "Max 20 files per upload.") 413)
  else
    match check_files files 0 with
    | inl r => ret r
    | inr total =>
        used <- getUsedBytes ;;
        if BYTES_LIMIT <=? used + total then ret (quota_exceeded used)
        else if unset R2_ACCESS_KEY_ID || unset R2_SECRET_ACCESS_KEY || unset R2_ACCOUNT_ID
        then ret (json (JFail "R2 credentials not configured.") 500)
        else
          let bucket :=
            if unset R2_BUCKET then "felicity-files" else default "" R2_BUCKET in
          uploads <- for_of files
                       (presign_file (default "" R2_ACCOUNT_ID) bucket
                          (default "" R2_ACCESS_KEY_ID) (default "" R2_SECRET_ACCESS_KEY))
                       [] ;;
          try_catch
            (KV_put_pending
               ("pending:" +:+ Encoding.join "," (map upload_key uploads))
               {| pending_pin := pin;
                  pending_files := map (fun u => (upload_key u, upload_size u)) uploads |})
            (ret tt) ;;;
          ret (json (JUploads uploads pin) 200)
    end.

(** The body of the loop of POST /api/confirm; [updated] and [total] are
    the accumulator. *)
Definition confirm_key (pin : bool) (acc : Z * Z) (key : string) : M (Z * Z) :=
  let '(updated, total) := acc in
  head <- R2_head key ;;
  match head with
  | None => ret (updated, total)
  | Some h =>
      let total := total + size h in
      obj <- R2_get key ;;
      match obj with
      | None => ret (updated, total)
      | Some ob =>
          stamp <- nowISO ;;
          R2_put key (body ob) (httpMetadata h)
            (<["last_accessed" := stamp]>
               (<["pinned" := String_of_bool pin]> (default ∅ (customMetadata h)))) ;;;
          ret (updated + 1, total)
      end
  end.

(** POST /api/confirm *)
Definition fetch_confirm (keys : list string) (pin : bool) : M Response :=
  if bool_decide (keys = []) then ret (json (JFail "No keys.") 400)
  else
    acc <- for_of keys (confirm_key pin) (0, 0) ;;
    let '(updated, total) := acc in
    (if negb (total =? 0) then bumpUsedBytes total else ret tt) ;;;
    ret (json (JConfirmed updated total) 200).

(** DELETE /api/files/:key, [key] decoded from the path *)
Definition fetch_delete (key : string) : M Response :=
  head <- R2_head key ;;
  match head with
  | None => ret (text "Not found" 404)
  | Some h =>
      R2_delete key ;;;
      bumpUsedBytes (- size h) ;;;
      ret (json JOk 200)
  end.

(** GET /__scheduled?token=... *)
Definition fetch_scheduled (token : option string) : M Response :=
  if negb (bool_decide (token = Some "cron")) then ret (text "forbidden" 403)
  else
    now <- Date_now ;;
    let cutoff := now - ONE_WEEK_MS in
    acc <- for_each_listed (sweep_object cutoff) (0, 0) ;;
    let '(deleted, freed) := acc in
    (if negb (freed =? 0) then bumpUsedBytes (- freed) else ret tt) ;;;
    ret (json (JCleanup deleted freed) 200).

End Handlers.
End Presigned.

(** ** A reference runtime

    A runtime to run the worker on concrete inputs: a UTC clock that renders
    and reads the two date formats the worker meets ([toISOString] and
    [toString]), stand-ins for the two hash functions, and a table of the
    calls that reject.  The theorems below hold for every runtime; this one
    only evaluates them. *)

Module Clock.

Definition MS_PER_DAY : Z := 86400000.

(** year, month (1-12) and day of a count of days since 1970-01-01 *)
Definition civil_from_days (z : Z) : Z * Z * Z :=
  let z := z + 719468 in
  let era := z / 146097 in
  let doe := z - era * 146097 in
  let yoe := (doe - doe / 1460 + doe / 36524 - doe / 146096) / 365 in
  let doy := doe - (365 * yoe + yoe / 4 - yoe / 100) in
  let mp := (5 * doy + 2) / 153 in
  let d := doy - (153 * mp + 2) / 5 + 1 in
  let m := if mp <? 10 then mp + 3 else mp - 9 in
  let y := yoe + era * 400 + (if m <=? 2 then 1 else 0) in
  (y, m, d).

Definition days_from_civil (y m d : Z) : Z :=
  let y := if m <=? 2 then y - 1 else y in
  let era := y / 400 in
  let yoe := y - era * 400 in
  let doy := (153 * (if 2 <? m then m - 3 else m + 9) + 2) / 5 + d - 1 in
  let doe := yoe * 365 + yoe / 4 - yoe / 100 + doy in
  era * 146097 + doe - 719468.

Fixpoint zeros (n : nat) : string :=
  match n with O => EmptyString | S n' => String "0"%char (zeros n') end.

(** decimal rendering of [n >= 0] on at least [w] digits *)
Definition pad (w : nat) (n : Z) : string :=
  let s := Encoding.String_of_Z n in
  zeros (w - String.length s) +:+ s.

Definition hms (ms : Z) : string :=
  let t := ms mod MS_PER_DAY in
  pad 2 (t / 3600000) +:+ ":" +:+ pad 2 (t / 60000 mod 60) +:+ ":"
  +:+ pad 2 (t / 1000 mod 60).

(** [new Date(ms).toISOString()], for the years 0 to 9999 *)
Definition toISOString (ms : Z) : string :=
  let '(y, m, d) := civil_from_days (ms / MS_PER_DAY) in
  pad 4 y +:+ "-" +:+ pad 2 m +:+ "-" +:+ pad 2 d +:+ "T" +:+ hms ms +:+ "."
  +:+ pad 3 (ms mod 1000) +:+ "Z".

Definition day_names : list string := ["Sun"; "Mon"; "Tue"; "Wed"; "Thu"; "Fri"; "Sat"].

Definition month_names : list string :=
  ["Jan"; "Feb"; "Mar"; "Apr"; "May"; "Jun"; "Jul"; "Aug"; "Sep"; "Oct"; "Nov"; "Dec"].

(** [new Date(ms).toString()] in the UTC zone of the worker *)
Definition toString (ms : Z) : string :=
  let days := ms / MS_PER_DAY in
  let '(y, m, d) := civil_from_days days in
  default "" (day_names !! Z.to_nat ((days + 4) mod 7)) +:+ " "
  +:+ default "" (month_names !! Z.to_nat (m - 1)) +:+ " " +:+ pad 2 d +:+ " "
  +:+ pad 4 y +:+ " " +:+ hms ms +:+ " GMT+0000 (Coordinated Universal Time)".

(** the value of a non-empty run of digits *)
Fixpoint digits_value (s : string) (acc : Z) : option Z :=
  match s with
  | EmptyString => Some acc
  | String a r =>
      if Encoding.is_digit a then digits_value r (10 * acc + Z.of_nat (nat_of_ascii a) - 48)
      else None
  end.

Definition number_at (s : string) (start len : nat) : option Z :=
  let sub := String.substring start len s in
  if (String.length sub =? len)%nat then digits_value sub 0 else None.

Definition char_at (s : string) (i : nat) (c : string) : bool :=
  String.eqb (String.substring i 1 s) c.

Fixpoint index_of (x : string) (l : list string) (i : Z) : option Z :=
  match l with
  | [] => None
  | y :: r => if String.eqb x y then Some i else index_of x r (i + 1)
  end.

Definition make_time (y m d hh mm ss ms : Z) : option Z :=
  if (1 <=? m) && (m <=? 12) && (1 <=? d) && (d <=? 31) && (hh <=? 23) && (mm <=? 59)
     && (ss <=? 59)
  then Some (days_from_civil y m d * MS_PER_DAY + hh * 3600000 + mm * 60000 + ss * 1000 + ms)
  else None.

(** YYYY-MM-DDTHH:mm:ss.sssZ *)
Definition parse_iso (s : string) : option Z :=
  if (String.length s =? 24)%nat && char_at s 4 "-" && char_at s 7 "-" && char_at s 10 "T"
     && char_at s 13 ":" && char_at s 16 ":" && char_at s 19 "." && char_at s 23 "Z"
  then
    y ← number_at s 0 4; m ← number_at s 5 2; d ← number_at s 8 2;
    hh ← number_at s 11 2; mm ← number_at s 14 2; ss ← number_at s 17 2;
    ms ← number_at s 20 3;
    make_time y m d hh mm ss ms
  else None.

(** Www Mmm DD YYYY HH:mm:ss GMT+0000 (...) *)
Definition parse_toString (s : string) : option Z :=
  if char_at s 3 " " && char_at s 7 " " && char_at s 10 " " && char_at s 15 " "
     && char_at s 18 ":" && char_at s 21 ":"
     && String.eqb (String.substring 24 9 s) " GMT+0000"
  then
    m ← index_of (String.substring 4 3 s) month_names 1; d ← number_at s 8 2;
    y ← number_at s 11 4; hh ← number_at s 16 2; mm ← number_at s 19 2;
    ss ← number_at s 22 2;
    make_time y m d hh mm ss 0
  else None.

(** [Date.parse(s)] on the two formats; NaN on anything else *)
Definition parse (s : string) : option Z :=
  match parse_iso s with
  | Some t => Some t
  | None => parse_toString s
  end.

End Clock.

(** The calls that reject, by name of the call and key. *)
Record Faults := {
  f_kv_get : bool;
  f_kv_put : bool;
  f_list : bool;
  f_head : list string;
  f_get : list string;
  f_put : list string;
  f_delete : list string;
}.

Definition no_faults : Faults :=
  {| f_kv_get := false; f_kv_put := false; f_list := false; f_head := []; f_get := [];
     f_put := []; f_delete := [] |}.

Definition mem (l : list string) (k : string) : bool := bool_decide (k ∈ l).

(** Stand-ins for SHA-256 and HMAC: a sum of the bytes, and the digest of
    key and message together. *)
Definition toy_digest (data : list byte) : list byte :=
  let n := foldr (fun b acc => (N.of_nat (nat_of_ascii (ascii_of_byte b)) + 31 * acc) mod 65536)%N 7%N data in
  [byte_of_ascii (ascii_of_N (n / 256)); byte_of_ascii (ascii_of_N (n mod 256))].

Definition reference_runtime (f : Faults) : Runtime :=
  {| Date_parse := Clock.parse;
     Date_parse_empty := eq_refl;
     Date_toISOString := Clock.toISOString;
     Date_toString := Clock.toString;
     hmac_sha256 := fun key msg => toy_digest (key ++ msg);
     sha256 := toy_digest;
     randomUUID := fun n => "00000000-0000-4000-8000-" +:+ Clock.pad 12 (Z.of_nat n);
     list_limit := 1000%positive;
     R2_ACCESS_KEY_ID := Some "AKIDEXAMPLE";
     R2_SECRET_ACCESS_KEY := Some "topsecretkey";
     R2_ACCOUNT_ID := Some "acct";
     R2_BUCKET := None;
     kv_get_fails := fun _ => f_kv_get f;
     kv_put_fails := fun _ => f_kv_put f;
     r2_list_fails := fun _ => f_list f;
     r2_head_fails := mem (f_head f);
     r2_get_fails := mem (f_get f);
     r2_put_fails := mem (f_put f);
     r2_delete_fails := mem (f_delete f) |}.

(** ** Handlers that overlap

    Between two awaits a handler runs alone; at an await another handler may
    run.  A call of [bumpUsedBytes] is a task: in the presigned variant it
    awaits the read and then the write, in the server-mediated variant it
    awaits one atomic chain.  A schedule names, step by step, the task that
    runs next. *)

Module Interleaving.
Section Tasks.
Context `{Runtime}.

Inductive Task : Type :=
| Reading (delta : Z)        (* presigned: before [await get] *)
| Writing (cur delta : Z)    (* presigned: [cur] is read, before [await put] *)
| Atomic (delta : Z)         (* server-mediated: before the atomic chain *)
| Finished.

Definition step (t : Task) : M Task :=
  match t with
  | Reading delta => v <- KV_get_used ;; ret (Writing (default 0 v) delta)
  | Writing cur delta => KV_put_used (cur + delta) ;;; ret Finished
  | Atomic delta => Mediated.bumpUsedBytes delta ;;; ret Finished
  | Finished => ret Finished
  end.

Fixpoint run (schedule : list nat) (tasks : list Task) : M (list Task) :=
  match schedule with
  | [] => ret tasks
  | i :: rest =>
      match tasks !! i with
      | Some t => t' <- step t ;; run rest (<[i := t']> tasks)
      | None => run rest tasks
      end
  end.

(** What a task still has to add to the counter. *)
Definition delta_of (t : Task) : Z :=
  match t with
  | Reading d | Writing _ d | Atomic d => d
  | Finished => 0
  end.

Definition finished (t : Task) : bool :=
  match t with Finished => true | _ => false end.

(** Each task runs its two steps back to back, in the order given. *)
Definition one_by_one (order : list nat) : list nat :=
  flat_map (fun i => [i; i]) order.

End Tasks.
End Interleaving.

(** The counter as [bumpUsedBytes] reads it: an absent cell counts as 0. *)
Definition counter (w : World) : Z := default 0 (used_bytes (FILES_KV w)).

Definition sum_Z (l : list Z) : Z := foldr Z.add 0 l.

(** The bytes held by the bucket. *)
Definition stored_bytes (w : World) : Z :=
  sum_Z (map (fun e => size (snd e)) (map_to_list (FILES w))).

(** ** The type rule in the words of the specification *)

(** [ext] is the extension of [filename]: what follows its last dot, with
    the dot, in lower case. *)
Definition extension_of (filename ext : string) : Prop :=
  exists stem suffix,
    filename = stem +:+ "." +:+ suffix /\
    JsString.has_char dot suffix = false /\
    ext = JsString.toLowerCase ("." +:+ suffix).

Definition generic_type (type : string) : Prop :=
  type = "" \/ type = "application/octet-stream".

(** A file is accepted when its declared type is in the allow-list, or its
    extension is, or its declared type is empty or generic. *)
Definition isAllowed_spec (type filename : string) : Prop :=
  type ∈ ALLOWED_MIME \/
  (exists ext, extension_of filename ext /\ ext ∈ ALLOWED_EXT) \/
  generic_type type.

(** ** The quota gate in the words of the specification *)

(** A refusal for quota: status 413 and reason "quota". *)
Definition is_quota_error (r : Response) : Prop :=
  exists message used limit, r = json (JQuotaExceeded "quota" message used limit) 413.

(** What reading the counter may do to the state: nothing, or the one write
    by which [getUsedBytes] keeps the total it has just listed. *)
Definition read_only_or_initialised (used : Z) (w w' : World) : Prop :=
  w' = w \/ w' = set_KV (set_used_bytes (Some used)) w.

(** The declared types pass the type rule. *)
Definition declared_ok (f : Presigned.FileDecl) : Prop :=
  Presigned.isAllowed (Presigned.file_type f) (Some (Presigned.file_name f)) = true.

Definition entry_ok (e : Mediated.FormEntry) : Prop :=
  match e with
  | Mediated.FFile name type _ => Mediated.isAllowed type name = true
  | Mediated.FString _ => False
  end.

Definition entry_size (e : Mediated.FormEntry) : Z :=
  match e with
  | Mediated.FFile _ _ content => byteLength content
  | Mediated.FString _ => 0
  end.

(** ** Worlds for the examples *)

Definition empty_KV : KV := {| used_bytes := None; pending := ∅ |}.

(** A new deployment: an empty bucket and an empty namespace. *)
Definition fresh_world (now : Z) : World :=
  {| FILES := ∅; FILES_KV := empty_KV; clock := now; rng := 0; signed := [] |}.

(** An object of [n] bytes with the given custom metadata and upload date. *)
Definition object_of (n : Z) (cm : list (string * string)) (up : Z) : R2Object :=
  {| body := {| content := "payload"; byteLength := n |};
     httpMetadata := Some {| contentType := Some "text/plain"; contentDisposition := None |};
     customMetadata := Some (list_to_map cm);
     uploaded := Some up |}.

Definition world_of (objs : list (string * R2Object)) (cell : option Z) (now : Z) : World :=
  {| FILES := list_to_map objs; FILES_KV := {| used_bytes := cell; pending := ∅ |};
     clock := now; rng := 0; signed := [] |}.

(** 2026-11-02T13:45:00.000Z *)
Definition NOW : Z := 1793627100000.
Definition DAY_MS : Z := 86400000.

(** A batch of one allowed file of [n] declared bytes. *)
Definition one_file (n : Z) : list Presigned.FileDecl :=
  [ {| Presigned.file_name := "notes.txt"; Presigned.file_size := n;
       Presigned.file_type := Some "text/plain" |} ].

Definition one_entry (n : Z) : list Mediated.FormEntry :=
  [ Mediated.FFile "notes.txt" "text/plain" {| content := "payload"; byteLength := n |} ].

(** ** The retention rule in words *)

Section RetentionRule.
Context `{Runtime}.

(** The rule of the specification: not pinned, and [last_accessed] older
    than the window, or absent, or unreadable. *)
Definition sweep_rule_spec (now : Z) (o : R2Object) : Prop :=
  meta o "pinned" <> Some "true" /\
  match meta o "last_accessed" with
  | Some s =>
      match Date_parse s with
      | Some last => last < now - ONE_WEEK_MS
      | None => True
      end
  | None => True
  end.

(** The date the sweep goes by: [last_accessed] when it is there and not
    empty, otherwise the upload date as [toString] renders it. *)
Definition reference_date (o : R2Object) : option string :=
  match meta o "last_accessed" with
  | Some (String a s) => Some (String a s)
  | _ =>
      match uploaded o with
      | Some up =>
          match Date_toString up with
          | String a s => Some (String a s)
          | EmptyString => None
          end
      | None => None
      end
  end.

(** The rule of the code: not pinned, and the reference date older than the
    window, or unreadable, or missing altogether. *)
Definition sweep_rule (now : Z) (o : R2Object) : Prop :=
  meta o "pinned" <> Some "true" /\
  match reference_date o with
  | Some s =>
      match Date_parse s with
      | Some last => last < now - ONE_WEEK_MS
      | None => True
      end
  | None => True
  end.

(** The bucket without the objects of a listing. *)
Definition delete_all (l : list (string * R2Object)) (m : gmap string R2Object)
  : gmap string R2Object :=
  foldl (fun m e => delete (fst e) m) m l.

(** The objects of a listing that a pass at [now] deletes. *)
Definition swept (now : Z) (l : list (string * R2Object)) : list (string * R2Object) :=
  List.filter (fun e => sweepable (now - ONE_WEEK_MS) (snd e)) l.

Definition sizes (l : list (string * R2Object)) : Z :=
  sum_Z (map (fun e => size (snd e)) l).

End RetentionRule.

(** An object without [last_accessed], uploaded ten days ago. *)
Definition stale_unstamped : R2Object := object_of 3 [("pinned", "false")] (NOW - 10 * DAY_MS).

(** The scenario of the specification: A pinned and thirty days old, B
    eight days old, C without [last_accessed] (uploaded ten days ago), D one
    day old. *)
Definition scenario_world : World :=
  world_of
    [ ("a/A.txt", object_of 100 [("pinned", "true");
                                 ("last_accessed", Clock.toISOString (NOW - 30 * DAY_MS))]
                    (NOW - 30 * DAY_MS));
      ("b/B.txt", object_of 20 [("pinned", "false");
                                ("last_accessed", Clock.toISOString (NOW - 8 * DAY_MS))]
                    (NOW - 8 * DAY_MS));
      ("c/C.txt", stale_unstamped);
      ("d/D.txt", object_of 4000 [("pinned", "false");
                                  ("last_accessed", Clock.toISOString (NOW - DAY_MS))]
                    (NOW - DAY_MS)) ]
    (Some 4123) NOW.

(** An object without [last_accessed], uploaded a day ago. *)
Definition recent_unstamped : R2Object := object_of 3 [("pinned", "false")] (NOW - DAY_MS).

(** ** Confirm in words *)

(** The size of the object under [k], or 0 when there is none. *)
Definition size_at (m : gmap string R2Object) (k : string) : Z :=
  from_option size 0 (m !! k).

Definition present (m : gmap string R2Object) (k : string) : bool :=
  bool_decide (is_Some (m !! k)).

(** The sum of the sizes of the objects found under [keys], one term per
    key of the list. *)
Definition found_bytes (keys : list string) (w : World) : Z :=
  sum_Z (map (size_at (FILES w)) keys).

(** The number of keys of the list under which an object is found. *)
Definition found_count (keys : list string) (w : World) : Z :=
  Z.of_nat (length (List.filter (present (FILES w)) keys)).

(** The object that confirm writes back over [h]: same payload and HTTP
    metadata, [pinned] and [last_accessed] stamped. *)
Definition confirmed_object `{Runtime} (pin : bool) (now : Z) (h : R2Object) : R2Object :=
  {| body := body h;
     httpMetadata := httpMetadata h;
     customMetadata :=
       Some (<["last_accessed" := Date_toISOString now]>
               (<["pinned" := String_of_bool pin]> (default ∅ (customMetadata h))));
     uploaded := Some now |}.

(** No call on the object under [k] rejects. *)
Definition object_calls_ok `{Runtime} (k : string) : Prop :=
  r2_head_fails k = false /\ r2_get_fails k = false /\ r2_put_fails k = false.

Definition counter_calls_ok `{Runtime} : Prop :=
  kv_get_fails USED_BYTES = false /\ kv_put_fails USED_BYTES = false.

(** An object of 100 bytes uploaded through a presigned URL a second ago,
    not yet counted. *)
Definition uploaded_world : World :=
  world_of [("u1/a.txt", object_of 100 [] (NOW - 1000))] (Some 0) NOW.

(** The runtime in which deleting [k] rejects. *)
Definition delete_rejects (k : string) : Faults :=
  {| f_kv_get := false; f_kv_put := false; f_list := false; f_head := []; f_get := [];
     f_put := []; f_delete := [k] |}.

(** The runtime in which rewriting [k] rejects. *)
Definition put_rejects (k : string) : Faults :=
  {| f_kv_get := false; f_kv_put := false; f_list := false; f_head := []; f_get := [];
     f_put := [k]; f_delete := [] |}.

(** The three bindings the presigner needs are set and not empty. *)
Definition credentials_configured `{Runtime} : Prop :=
  Presigned.unset R2_ACCESS_KEY_ID = false /\
  Presigned.unset R2_SECRET_ACCESS_KEY = false /\
  Presigned.unset R2_ACCOUNT_ID = false.


(** A bucket at the limit and no counter cell. *)
Definition uncounted_world : World :=
  world_of [("u1/huge.txt", object_of BYTES_LIMIT [] (NOW - 1000))] None NOW.

(** A bucket at the limit and a counter cell that says 5. *)
Definition miscounted_world : World :=
  world_of [("u1/huge.txt", object_of BYTES_LIMIT [] (NOW - 1000))] (Some 5) NOW.

(** The runtime in which reading the counter rejects. *)
Definition counter_unreadable : Faults :=
  {| f_kv_get := true; f_kv_put := false; f_list := false; f_head := []; f_get := [];
     f_put := []; f_delete := [] |}.

(** A bucket over the limit, with a counter that says so. *)
Definition full_world : World :=
  world_of [("u1/huge.txt", object_of (BYTES_LIMIT + 1) [] (NOW - 1000))]
    (Some (BYTES_LIMIT + 1)) NOW.

(** ** Overlapping adjustments in words *)

(** What the tasks of a pool still have to add. *)
Definition owed (tasks : list Interleaving.Task) : Z :=
  sum_Z (map Interleaving.delta_of tasks).

Definition all_finished (tasks : list Interleaving.Task) : Prop :=
  Forall (fun t => t = Interleaving.Finished) tasks.

(** A pool in which no task is between its read and its write. *)
Definition settled (tasks : list Interleaving.Task) : Prop :=
  Forall (fun t => match t with Interleaving.Writing _ _ => False | _ => True end) tasks.

(** A pool of the server-mediated variant. *)
Definition atomic_pool (tasks : list Interleaving.Task) : Prop :=
  Forall (fun t => match t with
                   | Interleaving.Atomic _ | Interleaving.Finished => True
                   | _ => False
                   end) tasks.

(** Every task of a pool of [n] is scheduled. *)
Definition covers (schedule : list nat) (n : nat) : Prop :=
  forall i, (i < n)%nat -> i ∈ schedule.

(** ** The presigned URL in words *)

(** The same options with another secret. *)
Definition with_secret (secret : string) (opts : Presigned.PresignOpts)
  : Presigned.PresignOpts :=
  {| Presigned.accountId := Presigned.accountId opts;
     Presigned.bucket := Presigned.bucket opts;
     Presigned.key := Presigned.key opts;
     Presigned.accessKeyId := Presigned.accessKeyId opts;
     Presigned.secretAccessKey := secret;
     Presigned.region := Presigned.region opts;
     Presigned.expiresSec := Presigned.expiresSec opts |}.

(** The parameters of the query string, by name: the algorithm, the
    credential (access key id and scope), the date, the expiry and the
    signed headers. *)
Definition derived_params `{Runtime} (now : Z) (opts : Presigned.PresignOpts)
  : list (string * string) :=
  [ ("X-Amz-Algorithm", "AWS4-HMAC-SHA256");
    ("X-Amz-Credential",
     Presigned.accessKeyId opts +:+ "/" +:+ Presigned.datestamp now +:+ "/"
     +:+ default "auto" (Presigned.region opts) +:+ "/s3/aws4_request");
    ("X-Amz-Date", Presigned.amzDate now);
    ("X-Amz-Expires", Encoding.String_of_Z (default 600 (Presigned.expiresSec opts)));
    ("X-Amz-SignedHeaders", "host") ].

(** The URL up to the value of the signature. *)
Definition unsigned_url `{Runtime} (now : Z) (opts : Presigned.PresignOpts) : string :=
  "https://" +:+ Presigned.accountId opts +:+ ".r2.cloudflarestorage.com"
  +:+ "/" +:+ Presigned.bucket opts +:+ "/"
  +:+ Encoding.encodeURIComponent (Presigned.key opts)
  +:+ "?" +:+ Encoding.search_params (derived_params now opts) +:+ "&X-Amz-Signature=".

(** A string of lower-case hexadecimal digits. *)
Fixpoint is_hex (s : string) : bool :=
  match s with
  | EmptyString => true
  | String a r => JsString.has_char a "0123456789abcdef" && is_hex r
  end.

Definition example_opts : Presigned.PresignOpts :=
  {| Presigned.accountId := "acct"; Presigned.bucket := "felicity-files";
     Presigned.key := "00000000-0000-4000-8000-000000000000/my notes.txt";
     Presigned.accessKeyId := "AKIDEXAMPLE"; Presigned.secretAccessKey := "topsecretkey";
     Presigned.region := None; Presigned.expiresSec := Some 600 |}.

(** ** String methods of the routers *)

Module JsPath.

(** [s.startsWith(p)] *)
Definition startsWith (s p : string) : bool :=
  match JsString.strip_prefix p s with
  | Some _ => true
  | None => false
  end.

(** [s.endsWith(p)] *)
Definition endsWith (s p : string) : bool :=
  (String.length p <=? String.length s)%nat &&
  String.eqb (JsString.drop (String.length s - String.length p) s) p.

(** [s.replace(/\/access$/, "")] *)
Definition without_access (s : string) : string :=
  if endsWith s "/access" then JsString.take (String.length s - 7) s else s.

End JsPath.

(** ** Chat *)

Module Chat.

Inductive Role : Type := system | user | assistant.

Record ChatMessage := {
  role : Role;
  content : string;
}.

Definition MODEL_ID : string := "@cf/meta/llama-3.1-8b-instruct".

Definition SYSTEM_PROMPT : string :=
  "You are a helpful, friendly personal assistant who replaced my human personal assistant. Your name is Felicity. Provide concise and accurate responses.".

(** [m.role === "system"] *)
Definition is_system (m : ChatMessage) : bool :=
  match role m with
  | system => true
  | _ => false
  end.

(** [if (!messages.some(m => m.role === "system")) messages.unshift(...)]:
    the messages that are sent to the model. *)
Definition with_system_prompt (messages : list ChatMessage) : list ChatMessage :=
  if negb (existsb is_system messages)
  then {| role := system; content := SYSTEM_PROMPT |} :: messages
  else messages.

End Chat.

(** ** What [fetch] answers

    A response that the worker builds, or the response of a collaborator:
    the static assets, or the model run on a list of messages. *)

Inductive Reply : Type :=
| reply (r : Response)
(** [json({ ok: true, key, last_accessed })]; the presigned variant leaves
    [last_accessed] out *)
| touched (key : string) (last_accessed : option string)
(** [json({ ok: true, key, pinned })] *)
| pin_set (key : string) (pinned : bool)
(** [env.ASSETS.fetch(request)] *)
| ASSETS_fetch
(** [env.AI.run(model, { messages, max_tokens }, ...)] *)
| AI_run (model : string) (messages : list Chat.ChatMessage) (max_tokens : Z).

(** [handleChatRequest], the same in both variants *)
Definition handleChatRequest (messages : list Chat.ChatMessage) : M Reply :=
  ret (AI_run Chat.MODEL_ID (Chat.with_system_prompt messages) 1024).

Definition not_found : Reply := reply (text "Not found" 404).

(** ** The router of the server-mediated variant *)

Module Mediated_router.

(** A request: method, path, the token of the query string, and the body
    as the handler of the route reads it ([body_parses] is false when that
    reading rejects). *)
Record Request := {
  method : string;
  pathname : string;
  token : option string;
  body_parses : bool;
  (** [messages] of a chat body, [[]] when absent *)
  messages : list Chat.ChatMessage;
  (** [form.getAll("files")] *)
  files : list Mediated.FormEntry;
  (** [form.get("pin") === "true"] *)
  pin : bool;
  (** [pinned] of a pin body *)
  pinned : bool;
}.

Section Handlers.
Context `{Runtime}.

(** [decodeURIComponent]; [None] is a URIError *)
Variable decodeURIComponent : string -> option string.

Definition read_body (req : Request) : M unit :=
  if body_parses req then ret tt else throw "SyntaxError".

Definition handleTouchAccess (key : string) : M Reply :=
  head <- R2_head key ;;
  match head with
  | None => ret not_found
  | Some h =>
      stamp <- nowISO ;;
      let meta := <["last_accessed" := stamp]> (default ∅ (customMetadata h)) in
      obj <- R2_get key ;;
      match obj with
      | None => ret not_found
      | Some ob =>
          R2_put key (body ob) (httpMetadata h) meta ;;;
          ret (touched key (Some stamp))
      end
  end.

Definition handlePin (req : Request) (key : string) : M Reply :=
  read_body req ;;;
  head <- R2_head key ;;
  match head with
  | None => ret not_found
  | Some h =>
      let meta := <["pinned" := String_of_bool (pinned req)]> (default ∅ (customMetadata h)) in
      obj <- R2_get key ;;
      match obj with
      | None => throw "TypeError"
      | Some ob =>
          R2_put key (body ob) (httpMetadata h) meta ;;;
          ret (pin_set key (pinned req))
      end
  end.

(** What [fetch] does when no route under /api/ took the request. *)
Definition fetch_tail (req : Request) : M Reply :=
  if String.eqb (pathname req) "/__scheduled" && String.eqb (method req) "GET"
  then r <- Mediated.handleCleanup (token req) ;; ret (reply r)
  else ret not_found.

Definition fetch (req : Request) : M Reply :=
  let pathname := pathname req in
  if String.eqb pathname "/" || negb (JsPath.startsWith pathname "/api/")
  then ret ASSETS_fetch
  else if String.eqb pathname "/api/chat" then
    if String.eqb (method req) "POST"
    then read_body req ;;; handleChatRequest (messages req)
    else ret (reply (text "Method not allowed" 405))
  else if String.eqb pathname "/api/quota" && String.eqb (method req) "GET"
  then r <- Mediated.handleQuota ;; ret (reply r)
  else if String.eqb pathname "/api/upload" && String.eqb (method req) "POST"
  then read_body req ;;; r <- Mediated.handleUpload (files req) (pin req) ;; ret (reply r)
  else if JsPath.startsWith pathname "/api/files/" then
    match decodeURIComponent (JsString.slice pathname 11) with
    | None => throw "URIError"
    | Some rest =>
        let sub := Mediated.last_segment rest in
        let key := Mediated.route_key rest in
        if String.eqb sub "access" && String.eqb (method req) "POST"
        then handleTouchAccess key
        else if String.eqb sub "pin" && String.eqb (method req) "POST"
        then handlePin req key
        else if String.eqb (method req) "DELETE"
        then r <- Mediated.handleDelete key ;; ret (reply r)
        else fetch_tail req
    end
  else fetch_tail req.

End Handlers.
End Mediated_router.

(** ** The router of the presigned variant *)

Module Presigned_router.

Record Request := {
  method : string;
  pathname : string;
  token : option string;
  body_parses : bool;
  (** [messages] of a chat body, [[]] when absent *)
  messages : list Chat.ChatMessage;
  (** [files] of an upload-urls body, [[]] when absent or not an array *)
  files : list Presigned.FileDecl;
  (** [keys] of a confirm body, [[]] when absent or not an array *)
  keys : list string;
  (** [pin] of either body, false when absent *)
  pin : bool;
}.

Section Handlers.
Context `{Runtime}.

(** [decodeURIComponent]; [None] is a URIError *)
Variable decodeURIComponent : string -> option string.

Definition read_body (req : Request) : M unit :=
  if body_parses req then ret tt else throw "SyntaxError".

(** POST under /api/files/, [rest] decoded from the path *)
Definition fetch_touch (rest : string) : M Reply :=
  if negb (JsPath.endsWith rest "/access") then ret not_found
  else
    let key := JsPath.without_access rest in
    head <- R2_head key ;;
    match head with
    | None => ret not_found
    | Some h =>
        obj <- R2_get key ;;
        match obj with
        | None => ret not_found
        | Some ob =>
            stamp <- nowISO ;;
            R2_put key (body ob) (httpMetadata h)
              (<["last_accessed" := stamp]> (default ∅ (customMetadata h))) ;;;
            ret (touched key None)
        end
    end.

Definition fetch (req : Request) : M Reply :=
  let pathname := pathname req in
  let method := method req in
  if String.eqb pathname "/" || negb (JsPath.startsWith pathname "/api/")
  then ret ASSETS_fetch
  else if String.eqb pathname "/api/chat" && String.eqb method "POST"
  then read_body req ;;; handleChatRequest (messages req)
  else if String.eqb pathname "/api/quota" && String.eqb method "GET"
  then r <- Presigned.fetch_quota ;; ret (reply r)
  else if String.eqb pathname "/api/upload-urls" && String.eqb method "POST"
  then read_body req ;;;
       r <- Presigned.fetch_upload_urls (files req) (pin req) ;; ret (reply r)
  else if String.eqb pathname "/api/confirm" && String.eqb method "POST"
  then read_body req ;;;
       r <- Presigned.fetch_confirm (keys req) (pin req) ;; ret (reply r)
  else if JsPath.startsWith pathname "/api/files/" && String.eqb method "DELETE" then
    match decodeURIComponent (JsString.slice pathname 11) with
    | None => throw "URIError"
    | Some key => r <- Presigned.fetch_delete key ;; ret (reply r)
    end
  else if JsPath.startsWith pathname "/api/files/" && String.eqb method "POST" then
    match decodeURIComponent (JsString.slice pathname 11) with
    | None => throw "URIError"
    | Some rest => fetch_touch rest
    end
  else if String.eqb pathname "/__scheduled" && String.eqb method "GET"
  then r <- Presigned.fetch_scheduled (token req) ;; ret (reply r)
  else ret not_found.

End Handlers.
End Presigned_router.

(** ** Rewritten objects in words *)

(** [o'] is [o] with the field [f] of the custom metadata set to [v]: the
    payload, the HTTP metadata and every other field are those of [o]. *)
Definition restamped (f v : string) (o o' : R2Object) : Prop :=
  body o' = body o /\ httpMetadata o' = httpMetadata o /\
  meta o' f = Some v /\
  forall g, g <> f -> meta o' g = meta o g.

(** [o'] is [o] as confirm leaves it: [pinned] and [last_accessed] set, the
    rest as it was. *)
Definition stamped_by `{Runtime} (pin : bool) (now : Z) (o o' : R2Object) : Prop :=
  body o' = body o /\ httpMetadata o' = httpMetadata o /\
  meta o' "pinned" = Some (String_of_bool pin) /\
  meta o' "last_accessed" = Some (Date_toISOString now) /\
  forall g, g <> "pinned" -> g <> "last_accessed" -> meta o' g = meta o g.

(** No call of a sweep rejects. *)
Definition sweep_calls_ok `{Runtime} : Prop :=
  (forall c, r2_list_fails c = false) /\ (forall k, r2_delete_fails k = false) /\
  counter_calls_ok.

(** The runtime reads its own ISO rendering of [t] back as [t]. *)
Definition reads_back `{Runtime} (t : Z) : Prop :=
  Date_parse (Date_toISOString t) = Some t.

Definition get_request (path : string) (token : option string) : Presigned_router.Request :=
  {| Presigned_router.method := "GET"; Presigned_router.pathname := path;
     Presigned_router.token := token; Presigned_router.body_parses := true;
     Presigned_router.messages := []; Presigned_router.files := [];
     Presigned_router.keys := []; Presigned_router.pin := false |}.

(** A request of the server-mediated variant without a body. *)
Definition plain_request (method path : string) (token : option string)
  : Mediated_router.Request :=
  {| Mediated_router.method := method; Mediated_router.pathname := path;
     Mediated_router.token := token; Mediated_router.body_parses := true;
     Mediated_router.messages := []; Mediated_router.files := [];
     Mediated_router.pin := false; Mediated_router.pinned := false |}.

(** A pin request. *)
Definition pin_request (path : string) (pinned : bool) : Mediated_router.Request :=
  {| Mediated_router.method := "POST"; Mediated_router.pathname := path;
     Mediated_router.token := None; Mediated_router.body_parses := true;
     Mediated_router.messages := []; Mediated_router.files := [];
     Mediated_router.pin := false; Mediated_router.pinned := pinned |}.

(** The object B of the scenario. *)
Definition scenario_B : R2Object :=
  object_of 20 [("pinned", "false");
                ("last_accessed", Clock.toISOString (NOW - 8 * DAY_MS))]
    (NOW - 8 * DAY_MS).

(** The same world at another time. *)
Definition at_time (now : Z) (w : World) : World :=
  {| FILES := FILES w; FILES_KV := FILES_KV w; clock := now; rng := rng w;
     signed := signed w |}.

(** ** Issued uploads in words *)

(** The bucket that the presigned URLs name. *)
Definition bucket_name `{Runtime} : string :=
  if Presigned.unset R2_BUCKET then "felicity-files" else default "" R2_BUCKET.

(** The upload issued for the [i]-th file of a batch, when [n0] UUIDs were
    drawn before the batch and the clock shows [now]. *)
Definition issued `{Runtime} (now : Z) (n0 i : nat) (f : Presigned.FileDecl) : Upload :=
  let key := randomUUID (n0 + i) +:+ "/" +:+ Presigned.file_name f in
  {| upload_key := key;
     upload_url :=
       Presigned.presigned_url now
         {| Presigned.accountId := default "" R2_ACCOUNT_ID;
            Presigned.bucket := bucket_name;
            Presigned.key := key;
            Presigned.accessKeyId := default "" R2_ACCESS_KEY_ID;
            Presigned.secretAccessKey := default "" R2_SECRET_ACCESS_KEY;
            Presigned.region := None;
            Presigned.expiresSec := Some 600 |};
     upload_name := Presigned.file_name f;
     upload_size := Presigned.file_size f;
     upload_type := Presigned.file_type f |}.

(** The snapshot that the route keeps of the uploads it issued. *)
Definition snapshot_of (pin : bool) (uploads : list Upload) : PendingBatch :=
  {| pending_pin := pin;
     pending_files := map (fun u => (upload_key u, upload_size u)) uploads |}.

Definition snapshot_key (uploads : list Upload) : string :=
  "pending:" +:+ Encoding.join "," (map upload_key uploads).

(** The reference runtime without the secret access key. *)
Definition runtime_without_secret : Runtime :=
  {| Date_parse := Clock.parse;
     Date_parse_empty := eq_refl;
     Date_toISOString := Clock.toISOString;
     Date_toString := Clock.toString;
     hmac_sha256 := fun key msg => toy_digest (key ++ msg);
     sha256 := toy_digest;
     randomUUID := fun n => "00000000-0000-4000-8000-" +:+ Clock.pad 12 (Z.of_nat n);
     list_limit := 1000%positive;
     R2_ACCESS_KEY_ID := Some "AKIDEXAMPLE";
     R2_SECRET_ACCESS_KEY := None;
     R2_ACCOUNT_ID := Some "acct";
     R2_BUCKET := None;
     kv_get_fails := fun _ => false;
     kv_put_fails := fun _ => false;
     r2_list_fails := fun _ => false;
     r2_head_fails := fun _ => false;
     r2_get_fails := fun _ => false;
     r2_put_fails := fun _ => false;
     r2_delete_fails := fun _ => false |}.

(** ** Stored uploads in words *)

(** A file of the form data. *)
Record FormFile := {
  form_name : string;
  form_type : string;
  form_content : Body;
}.

Definition as_entry (f : FormFile) : Mediated.FormEntry :=
  Mediated.FFile (form_name f) (form_type f) (form_content f).

Definition form_ok (f : FormFile) : Prop :=
  Mediated.isAllowed (form_type f) (form_name f) = true.

Definition form_bytes (fs : list FormFile) : Z :=
  sum_Z (map (fun f => byteLength (form_content f)) fs).

(** The key under which the [i]-th file of a batch is stored, when [n0]
    UUIDs were drawn before the batch. *)
Definition stored_key_of `{Runtime} (n0 i : nat) (f : FormFile) : string :=
  randomUUID (n0 + i) +:+ "/"
  +:+ (if JsString.truthy (form_name f) then form_name f else "file").

(** The object that is stored for a file at [now]. *)
Definition stored_object `{Runtime} (pin : bool) (now : Z) (f : FormFile) : R2Object :=
  {| body := form_content f;
     httpMetadata :=
       Some {| contentType := Some (form_type f);
               contentDisposition :=
                 Some ("inline; filename=" +:+ Mediated.dquote +:+ form_name f
                       +:+ Mediated.dquote) |};
     customMetadata :=
       Some (<["last_accessed" := Date_toISOString now]>
               (<["pinned" := String_of_bool pin]> ∅));
     uploaded := Some now |}.

(** The entry of the response for the [i]-th file. *)
Definition stored_file `{Runtime} (pin : bool) (n0 i : nat) (f : FormFile) : StoredFile :=
  {| stored_key := stored_key_of n0 i f; stored_name := form_name f;
     stored_size := byteLength (form_content f); stored_type := form_type f;
     stored_pinned := pin |}.

(** A text file of [n] bytes. *)
Definition text_file (name : string) (n : Z) : FormFile :=
  {| form_name := name; form_type := "text/plain";
     form_content := {| content := "payload"; byteLength := n |} |}.

(** ** Dates in words *)

Fixpoint all_digits (s : string) : bool :=
  match s with
  | EmptyString => true
  | String a r => Encoding.is_digit a && all_digits r
  end.

(** A string of [n] decimal digits. *)
Definition digits (n : nat) (s : string) : Prop :=
  String.length s = n /\ all_digits s = true.

(** ** Paging over the bucket as it is

    [for_each_listed] enumerates the bucket when the loop starts and pages
    over that enumeration.  The loops of the worker call [FILES.list] at
    every page, on the bucket as it is by then.  [live_loop] does that: a
    cursor stands for the last key of the page before, and the next page
    holds the objects whose keys come after it. *)

(** The order of the keys is transitive. *)
#[local] Instance key_le_trans : Transitive key_le.
Proof. intros x y z Hxy Hyz. unfold key_le in *. etrans; eassumption. Qed.

(** [k] comes after the cursor. *)
Definition after (c : option string) (k : string) : bool :=
  match c with
  | None => true
  | Some last => negb (bool_decide (String.le k last))
  end.

(** What [FILES.list({ cursor })] has left to return on the bucket [m]. *)
Definition remaining (m : gmap string R2Object) (c : option string)
  : list (string * R2Object) :=
  List.filter (fun e => after c (fst e)) (listing_of m).

Section LivePaging.
Context `{Runtime}.

(** [await env.FILES.list({ cursor })] on the bucket as it is: the page, and
    [list.truncated ? list.cursor : undefined].  [off] counts the objects
    returned by the calls before, for the table of the calls that reject
    ([None] at the first call). *)
Definition R2_list_live (off : option nat) (c : option string)
  : M (list (string * R2Object) * option string) :=
  fun w =>
    if r2_list_fails off then (Throw "R2.list", w)
    else
      let rest := remaining (FILES w) c in
      let n := Pos.to_nat list_limit in
      let page := take n rest in
      (Ok (page, if bool_decide (n < length rest)%nat then fst <$> last page else None), w).

Fixpoint live_loop {A} (fuel : nat) (off : option nat) (c : option string)
    (body : A -> string * R2Object -> M A) (acc : A) : M A :=
  match fuel with
  | O => fun w => (Timeout, w)
  | S fuel' =>
      l <- R2_list_live off c ;;
      acc' <- for_of (fst l) body acc ;;
      match snd l with
      | Some k =>
          live_loop fuel' (Some (default 0%nat off + Pos.to_nat list_limit)%nat) (Some k)
            body acc'
      | None => ret acc'
      end
  end.

(** The whole loop on the live bucket. *)
Definition for_each_live {A} (body : A -> string * R2Object -> M A) (acc : A) : M A :=
  fun w => live_loop (S (length (listing_of (FILES w)))) None None body acc w.

End LivePaging.

(** A loop body that changes the bucket only under the key it is handed. *)
Definition keeps_other_keys {A} (body : A -> string * R2Object -> M A) : Prop :=
  forall acc e w k, k <> fst e -> FILES (snd (body acc e w)) !! k = FILES w !! k.

(** The reference runtime with pages of [n] objects. *)
Definition runtime_with_pages (n : positive) : Runtime :=
  {| Date_parse := Clock.parse;
     Date_parse_empty := eq_refl;
     Date_toISOString := Clock.toISOString;
     Date_toString := Clock.toString;
     hmac_sha256 := fun key msg => toy_digest (key ++ msg);
     sha256 := toy_digest;
     randomUUID := fun n => "00000000-0000-4000-8000-" +:+ Clock.pad 12 (Z.of_nat n);
     list_limit := n;
     R2_ACCESS_KEY_ID := Some "AKIDEXAMPLE";
     R2_SECRET_ACCESS_KEY := Some "topsecretkey";
     R2_ACCOUNT_ID := Some "acct";
     R2_BUCKET := None;
     kv_get_fails := fun _ => false;
     kv_put_fails := fun _ => false;
     r2_list_fails := fun _ => false;
     r2_head_fails := fun _ => false;
     r2_get_fails := fun _ => false;
     r2_put_fails := fun _ => false;
     r2_delete_fails := fun _ => false |}.

(** A runtime whose [Date.parse] reads the ISO format only: it does not
    read the [toString] rendering of a date. *)
Definition iso_only_runtime : Runtime :=
  {| Date_parse := Clock.parse_iso;
     Date_parse_empty := eq_refl;
     Date_toISOString := Clock.toISOString;
     Date_toString := Clock.toString;
     hmac_sha256 := fun key msg => toy_digest (key ++ msg);
     sha256 := toy_digest;
     randomUUID := fun n => "00000000-0000-4000-8000-" +:+ Clock.pad 12 (Z.of_nat n);
     list_limit := 1000%positive;
     R2_ACCESS_KEY_ID := Some "AKIDEXAMPLE";
     R2_SECRET_ACCESS_KEY := Some "topsecretkey";
     R2_ACCOUNT_ID := Some "acct";
     R2_BUCKET := None;
     kv_get_fails := fun _ => false;
     kv_put_fails := fun _ => false;
     r2_list_fails := fun _ => false;
     r2_head_fails := fun _ => false;
     r2_get_fails := fun _ => false;
     r2_put_fails := fun _ => false;
     r2_delete_fails := fun _ => false |}.

(** The objects of the bucket that are stored under one of [keys], each
    once, in the order of the listing. *)
Definition objects_under (keys : list string) (w : World) : list (string * R2Object) :=
  List.filter (fun e => bool_decide (fst e ∈ keys)) (listing_of (FILES w)).

(** Two objects uploaded through presigned URLs a second ago, not yet
    counted. *)
Definition two_uploads_world : World :=
  world_of [("u1/a.txt", object_of 100 [] (NOW - 1000));
            ("u2/b.txt", object_of 50 [] (NOW - 1000))] (Some 0) NOW.



(** Two runtimes under which a read of the usage meets the same
    rejections: the read and the write of the counter cell, the listing
    calls, and the page size that decides which listing calls are made. *)
Definition same_usage_faults (R1 R2 : Runtime) : Prop :=
  @kv_get_fails R1 USED_BYTES = @kv_get_fails R2 USED_BYTES /\
  @kv_put_fails R1 USED_BYTES = @kv_put_fails R2 USED_BYTES /\
  (forall c, @r2_list_fails R1 c = @r2_list_fails R2 c) /\
  @list_limit R1 = @list_limit R2.

(** The runtime in which both calls on the counter cell reject. *)
Definition counter_unreachable : Faults :=
  {| f_kv_get := true; f_kv_put := true; f_list := false; f_head := []; f_get := [];
     f_put := []; f_delete := [] |}.

(** * Properties *)

Local Open Scope list_scope.

(** 9.5 GiB *)
Example BYTES_LIMIT_value : BYTES_LIMIT = 10200547328 /\ 2 * BYTES_LIMIT = 19 * 1024 ^ 3.
Proof. split; reflexivity. Qed.

(** ** The type rule *)

Section TypeRule.

Lemma lastIndexOf_lower c s : -1 <= JsString.lastIndexOf c s.
Proof.
  induction s as [|a r IH]; simpl; [lia|].
  destruct (0 <=? JsString.lastIndexOf c r) eqn:E; [apply Z.leb_le in E; lia|].
  destruct (Ascii.eqb a c); lia.
Qed.

Lemma lastIndexOf_absent c s :
  JsString.lastIndexOf c s < 0 <-> JsString.has_char c s = false.
Proof.
  induction s as [|a r IH]; simpl; [split; [reflexivity | lia]|].
  pose proof (lastIndexOf_lower c r) as Hl.
  destruct (0 <=? JsString.lastIndexOf c r) eqn:E.
  - apply Z.leb_le in E. split; [lia|].
    intros Hc. apply orb_false_iff in Hc as [_ Hc]. apply IH in Hc. lia.
  - apply Z.leb_gt in E. destruct (Ascii.eqb a c); simpl.
    + split; [lia | discriminate].
    + split; [intros _; apply IH; lia | lia].
Qed.

Lemma lastIndexOf_split c s d :
  0 <= d -> JsString.lastIndexOf c s = d ->
  exists stem suffix,
    s = stem +:+ String c suffix /\ JsString.has_char c suffix = false /\
    JsString.slice s d = String c suffix.
Proof.
  revert d. induction s as [|a r IH]; simpl; intros d Hd Hs; [lia|].
  destruct (0 <=? JsString.lastIndexOf c r) eqn:E.
  - apply Z.leb_le in E.
    destruct (IH (d - 1)) as (stem & suffix & -> & Hno & Hsl); [lia | lia |].
    exists (String a stem), suffix. split; [reflexivity|]. split; [exact Hno|].
    unfold JsString.slice in *. replace (Z.to_nat d) with (S (Z.to_nat (d - 1))) by lia.
    exact Hsl.
  - apply Z.leb_gt in E. destruct (Ascii.eqb a c) eqn:Ec; [|lia].
    apply Ascii.eqb_eq in Ec. subst a d. exists EmptyString, r.
    split; [reflexivity|]. split; [apply lastIndexOf_absent; lia | reflexivity].
Qed.

Lemma lastIndexOf_of_split c stem suffix :
  JsString.has_char c suffix = false ->
  let s := stem +:+ String c suffix in
  0 <= JsString.lastIndexOf c s /\
  JsString.slice s (JsString.lastIndexOf c s) = String c suffix.
Proof.
  intros Hno. induction stem as [|a stem IH]; simpl.
  - apply lastIndexOf_absent in Hno.
    destruct (0 <=? JsString.lastIndexOf c suffix) eqn:E; [apply Z.leb_le in E; lia|].
    rewrite Ascii.eqb_refl. split; [lia | reflexivity].
  - simpl in IH. destruct IH as [Hpos Hsl].
    destruct (0 <=? JsString.lastIndexOf c (stem +:+ String c suffix)) eqn:E;
      [|apply Z.leb_gt in E; lia].
    split; [lia|]. unfold JsString.slice in *.
    replace (Z.to_nat (JsString.lastIndexOf c (stem +:+ String c suffix) + 1))
      with (S (Z.to_nat (JsString.lastIndexOf c (stem +:+ String c suffix)))) by lia.
    exact Hsl.
Qed.

(** The test on the file name, as both variants compute it, finds the
    extension of the specification. *)
Lemma extension_test filename :
  (let d := JsString.lastIndexOf dot filename in
   (0 <=? d) && has ALLOWED_EXT (JsString.toLowerCase (JsString.slice filename d))) = true
  <-> exists ext, extension_of filename ext /\ ext ∈ ALLOWED_EXT.
Proof.
  cbv zeta. split.
  - intros Ht. apply andb_true_iff in Ht as [Hd Hin]. apply Z.leb_le in Hd.
    destruct (lastIndexOf_split dot filename _ Hd eq_refl) as (stem & suffix & Hf & Hno & Hsl).
    rewrite Hsl in Hin. apply bool_decide_eq_true in Hin.
    exists (JsString.toLowerCase (String dot suffix)). split; [|exact Hin].
    exists stem, suffix. auto.
  - intros (ext & (stem & suffix & -> & Hno & ->) & Hin).
    destruct (lastIndexOf_of_split dot stem suffix Hno) as [Hpos Hsl].
    apply andb_true_iff. split; [apply Z.leb_le; exact Hpos|].
    change ("." +:+ suffix) with (String dot suffix).
    rewrite Hsl. apply bool_decide_eq_true. exact Hin.
Qed.

Lemma has_mime_truthy type :
  JsString.truthy type && has ALLOWED_MIME type = true <-> type ∈ ALLOWED_MIME.
Proof.
  unfold has. rewrite andb_true_iff, bool_decide_eq_true. split; [tauto|].
  intros Hin. split; [|exact Hin]. destruct type; [|reflexivity].
  assert (Hf : bool_decide (EmptyString ∈ ALLOWED_MIME) = false)
    by (vm_compute; reflexivity).
  apply bool_decide_eq_false in Hf. contradiction.
Qed.

Lemma generic_test t :
  negb (JsString.truthy t) || String.eqb t "application/octet-stream" = true
  <-> generic_type t.
Proof.
  unfold generic_type. rewrite orb_true_iff, String.eqb_eq.
  destruct t; simpl; split; intros [Hx|Hx]; auto; discriminate.
Qed.

End TypeRule.

(** C5, as stated, fails in the server-mediated variant: an empty declared
    type with an extension outside the list is accepted by the rule of the
    specification and refused by [isAllowed]. *)
Lemma isAllowed_mediated_refuses_generic :
  isAllowed_spec "" "notes.bin" /\ Mediated.isAllowed "" "notes.bin" = false.
Proof.
  split; [right; right; left; reflexivity | vm_compute; reflexivity].
Qed.

(** C5 (amended).  In the presigned variant [isAllowed] returns true exactly
    when the declared type, trimmed (undefined counting as empty), is in the
    MIME allow-list, or the extension of the file name is in the extension
    allow-list, or the trimmed type is empty or application/octet-stream.  In
    the server-mediated variant it returns true exactly when the declared
    type is in the MIME allow-list or the extension is in the extension
    allow-list: an empty or generic type alone is refused. *)
Theorem isAllowed_characterised :
  (forall type filename,
      Presigned.isAllowed type filename = true <->
      isAllowed_spec (JsString.trim (default "" type)) (default "" filename)) /\
  (forall type filename,
      Mediated.isAllowed type filename = true <->
      type ∈ ALLOWED_MIME \/
      exists ext, extension_of filename ext /\ ext ∈ ALLOWED_EXT).
Proof.
  split; intros type filename.
  - unfold Presigned.isAllowed, Presigned_types.isAllowed, isAllowed_spec.
    set (t := JsString.trim (default "" type)). set (name := default "" filename).
    pose proof (has_mime_truthy t) as Hm. pose proof (extension_test name) as He.
    pose proof (generic_test t) as Hg. cbv zeta in He.
    destruct (JsString.truthy t && has ALLOWED_MIME t).
    { split; [intros _; left; apply Hm; reflexivity | reflexivity]. }
    destruct ((0 <=? JsString.lastIndexOf dot name)
              && has ALLOWED_EXT (JsString.toLowerCase
                                    (JsString.slice name (JsString.lastIndexOf dot name)))).
    { split; [intros _; right; left; apply He; reflexivity | reflexivity]. }
    destruct (negb (JsString.truthy t) || String.eqb t "application/octet-stream").
    { split; [intros _; right; right; apply Hg; reflexivity | reflexivity]. }
    split; [discriminate|]. intros [Hx|[Hx|Hx]].
    + apply Hm in Hx. discriminate.
    + apply He in Hx. discriminate.
    + apply Hg in Hx. discriminate.
  - unfold Mediated.isAllowed, Mediated_types.isAllowed.
    pose proof (has_mime_truthy type) as Hm. pose proof (extension_test filename) as He.
    cbv zeta in He.
    destruct (JsString.truthy type && has ALLOWED_MIME type).
    { split; [intros _; left; apply Hm; reflexivity | reflexivity]. }
    destruct (0 <=? JsString.lastIndexOf dot filename); simpl in He.
    + rewrite He. split; [auto|]. intros [Hx|Hx]; [apply Hm in Hx; discriminate | exact Hx].
    + split; [discriminate|]. intros [Hx|Hx]; [apply Hm in Hx | apply He in Hx]; discriminate.
Qed.

Example isAllowed_trims :
  Presigned.isAllowed (Some "  text/plain ") (Some "upload") = true.
Proof. vm_compute. reflexivity. Qed.

Example isAllowed_by_extension :
  Mediated.isAllowed "image/png" "archive.tar.TXT" = true /\
  Presigned.isAllowed (Some "image/png") (Some "archive.tar.TXT") = true.
Proof. split; vm_compute; reflexivity. Qed.

Example isAllowed_refuses :
  Mediated.isAllowed "image/png" "photo.png" = false /\
  Presigned.isAllowed (Some "image/png") (Some "photo.png") = false.
Proof. split; vm_compute; reflexivity. Qed.

(** ** Loops and the listing *)

Section Loops.
Context `{Runtime}.

Lemma for_of_app {A X} (l1 l2 : list X) (body : A -> X -> M A) acc w :
  for_of (l1 ++ l2) body acc w =
  bind (for_of l1 body acc) (fun acc' => for_of l2 body acc') w.
Proof.
  revert acc w. induction l1 as [|x l1 IH]; intros acc w; simpl; [reflexivity|].
  unfold bind. destruct (body acc x w) as [[a| |] w1]; [|reflexivity..].
  rewrite IH. reflexivity.
Qed.

(** A body that awaits nothing: the loop is a fold and the state stays. *)
Lemma for_of_pure {A X} (l : list X) (f : A -> X -> A) acc w :
  for_of l (fun a x => ret (f a x)) acc w = (Ok (foldl f acc l), w).
Proof.
  revert acc. induction l as [|x l IH]; intros acc; simpl; [reflexivity|].
  unfold bind, ret. apply IH.
Qed.

(** With a listing that does not reject, the paged loop visits what is left
    of the enumeration, in order, and never runs out of steps. *)
Lemma list_loop_visits {A} fuel listing c (body : A -> string * R2Object -> M A) acc w :
  (forall c', r2_list_fails c' = false) ->
  (length listing - default 0%nat c < fuel)%nat ->
  list_loop fuel listing c body acc w = for_of (drop (default 0%nat c) listing) body acc w.
Proof.
  intros Hok. revert c acc w. induction fuel as [|fuel IH]; intros c acc w Hfuel; [lia|].
  simpl. unfold bind at 1. unfold R2_list at 1. rewrite Hok. cbv zeta. simpl objects.
  set (off := default 0%nat c). set (n := Pos.to_nat list_limit).
  assert (Hn : (0 < n)%nat) by (unfold n; lia).
  rewrite <- (take_drop n (drop off listing)) at 2.
  rewrite for_of_app. unfold bind.
  destruct (for_of (take n (drop off listing)) body acc w) as [[a| |] w1]; [|reflexivity..].
  case_bool_decide as Ht; cbn [truncated cursor].
  - rewrite IH; [|simpl; lia]. simpl. rewrite drop_drop. reflexivity.
  - rewrite (drop_ge (drop off listing)); [reflexivity|]. rewrite length_drop. lia.
Qed.

Lemma listing_of_perm (m : gmap string R2Object) : listing_of m ≡ₚ map_to_list m.
Proof. unfold listing_of. apply merge_sort_Permutation. Qed.

Lemma elem_of_listing_of (m : gmap string R2Object) k o :
  (k, o) ∈ listing_of m <-> m !! k = Some o.
Proof. rewrite listing_of_perm. apply elem_of_map_to_list. Qed.

Lemma NoDup_listing_of (m : gmap string R2Object) : NoDup (listing_of m).
Proof. rewrite listing_of_perm. apply NoDup_map_to_list. Qed.

Lemma NoDup_fst_listing_of (m : gmap string R2Object) : NoDup (listing_of m).*1.
Proof. rewrite listing_of_perm. apply NoDup_fst_map_to_list. Qed.

(** The keys of a listing never go down. *)
Lemma listing_of_sorted (m : gmap string R2Object) : Sorted key_le (listing_of m).
Proof.
  unfold listing_of. apply Sorted_merge_sort.
  intros e1 e2. unfold key_le. apply (total String.le).
Qed.

Lemma for_each_listed_visits {A} (body : A -> string * R2Object -> M A) acc w :
  (forall c, r2_list_fails c = false) ->
  for_each_listed body acc w = for_of (listing_of (FILES w)) body acc w.
Proof.
  intros Hok. unfold for_each_listed. rewrite list_loop_visits; [reflexivity|exact Hok|].
  simpl. lia.
Qed.

(** Whatever the listing does, a body that awaits nothing leaves the state
    as it was. *)
Lemma list_loop_pure_state {A} fuel listing c (f : A -> string * R2Object -> A) acc w :
  snd (list_loop fuel listing c (fun a e => ret (f a e)) acc w) = w.
Proof.
  revert c acc. induction fuel as [|fuel IH]; intros c acc; simpl; [reflexivity|].
  unfold bind at 1. unfold R2_list. destruct (r2_list_fails c); [reflexivity|].
  cbv zeta. simpl objects. unfold bind. rewrite for_of_pure.
  case_bool_decide; cbn [truncated cursor]; [apply IH | reflexivity].
Qed.

(** With a body that awaits nothing the paged loop ends, with a value or
    with the rejection of a listing call: the steps allowed suffice. *)
Lemma list_loop_pure_ends {A} fuel listing c (f : A -> string * R2Object -> A) acc w :
  (length listing - default 0%nat c < fuel)%nat ->
  fst (list_loop fuel listing c (fun a e => ret (f a e)) acc w) <> Timeout.
Proof.
  revert c acc. induction fuel as [|fuel IH]; intros c acc Hfuel; [lia|].
  simpl. unfold bind at 1. unfold R2_list. destruct (r2_list_fails c); [discriminate|].
  cbv zeta. simpl objects. unfold bind. rewrite for_of_pure.
  assert (Hn : (0 < Pos.to_nat list_limit)%nat) by lia.
  case_bool_decide; cbn [truncated cursor]; [|discriminate].
  apply IH. simpl. lia.
Qed.


Lemma foldl_sizes (l : list (string * R2Object)) acc :
  foldl (fun total e => total + size (snd e)) acc l
  = acc + sum_Z (map (fun e => size (snd e)) l).
Proof.
  revert acc. induction l as [|e l IH]; intros acc; simpl; [lia|].
  rewrite IH. unfold sum_Z. simpl. lia.
Qed.

End Loops.

(** ** The usage counter *)

Section Counter.
Context `{Runtime}.

Lemma for_each_listed_pure_state {A} (f : A -> string * R2Object -> A) acc w :
  snd (for_each_listed (fun a e => ret (f a e)) acc w) = w.
Proof. unfold for_each_listed. apply list_loop_pure_state. Qed.

Lemma sum_listing_state w :
  exists out,
    for_each_listed (fun total e => ret (total + size (snd e))) 0 w = (out, w).
Proof.
  pose proof (for_each_listed_pure_state (fun total e => total + size (snd e)) 0 w) as Hs.
  destruct (for_each_listed _ 0 w) as [out w']. simpl in Hs. subst w'. eauto.
Qed.

(** In the presigned variant reading the counter always returns a number. *)
Lemma presigned_getUsedBytes_total w :
  exists used w1, Presigned.getUsedBytes w = (Ok used, w1).
Proof.
  destruct (sum_listing_state w) as [out Hout].
  assert (Hend : out <> Timeout).
  { pose proof (list_loop_pure_ends (S (length (listing_of (FILES w))))
                  (listing_of (FILES w)) None
                  (fun total e => total + size (snd e)) 0 w) as He.
    unfold for_each_listed in Hout. cbv beta zeta in He, Hout. rewrite Hout in He.
    apply He. simpl. lia. }
  unfold Presigned.getUsedBytes, bind, try_catch, KV_get_used.
  destruct (kv_get_fails USED_BYTES); [|destruct (used_bytes (FILES_KV w)) as [n|]];
    cbn [ret]; try rewrite Hout.
  - destruct out as [total| |]; unfold KV_put_used, ret;
      [destruct (kv_put_fails USED_BYTES)|..]; eauto. contradiction.
  - unfold ret. eauto.
  - destruct out as [total| |]; unfold KV_put_used, ret;
      [destruct (kv_put_fails USED_BYTES)|..]; eauto. contradiction.
Qed.

(** Reading the counter in the presigned variant writes at most the cell,
    with the value it returns. *)
Lemma presigned_getUsedBytes_post w used w1 :
  Presigned.getUsedBytes w = (Ok used, w1) ->
  FILES w1 = FILES w /\ signed w1 = signed w /\ rng w1 = rng w /\
  pending (FILES_KV w1) = pending (FILES_KV w) /\
  read_only_or_initialised used w w1.
Proof.
  destruct (sum_listing_state w) as [out Hout].
  unfold Presigned.getUsedBytes, bind, try_catch, KV_get_used.
  unfold read_only_or_initialised.
  destruct (kv_get_fails USED_BYTES); [|destruct (used_bytes (FILES_KV w)) as [n|]];
    cbn [ret]; try rewrite Hout.
  - destruct out as [total| |]; unfold KV_put_used, ret;
      [destruct (kv_put_fails USED_BYTES)|..]; intros [= <- <-]; simpl; auto 10.
  - unfold ret. intros [= <- <-]. auto 10.
  - destruct out as [total| |]; unfold KV_put_used, ret;
      [destruct (kv_put_fails USED_BYTES)|..]; intros [= <- <-]; simpl; auto 10.
Qed.

Lemma mediated_getUsedBytes_post w used w1 :
  Mediated.getUsedBytes w = (Ok used, w1) ->
  FILES w1 = FILES w /\ signed w1 = signed w /\ rng w1 = rng w /\
  pending (FILES_KV w1) = pending (FILES_KV w) /\
  read_only_or_initialised used w w1.
Proof.
  destruct (sum_listing_state w) as [out Hout].
  unfold Mediated.getUsedBytes, bind, KV_get_used.
  unfold read_only_or_initialised.
  destruct (kv_get_fails USED_BYTES); [discriminate|].
  destruct (used_bytes (FILES_KV w)) as [n|]; try rewrite Hout.
  - unfold ret. intros [= <- <-]. auto 10.
  - destruct out as [total| |]; unfold KV_put_used, ret;
      [destruct (kv_put_fails USED_BYTES)|..]; intros [= <- <-]; simpl; auto 10.
Qed.

End Counter.

(** ** The quota gate *)

Section QuotaGate.
Context `{Runtime}.

Lemma check_files_total files acc :
  Forall declared_ok files ->
  Presigned.check_files files acc = inr (acc + sum_Z (map Presigned.file_size files)).
Proof.
  intros Hall. revert acc. induction Hall as [|f files Hf _ IH]; intros acc; simpl.
  - f_equal. unfold sum_Z. simpl. lia.
  - unfold declared_ok in Hf. rewrite Hf. simpl. rewrite IH. f_equal.
    unfold sum_Z. simpl. lia.
Qed.

Lemma check_entries_total entries acc :
  Forall entry_ok entries ->
  Mediated.check_entries entries acc = inr (acc + sum_Z (map entry_size entries)).
Proof.
  intros Hall. revert acc. induction Hall as [|e entries He _ IH]; intros acc; simpl.
  - f_equal. unfold sum_Z. simpl. lia.
  - destruct e as [name type content|v]; [|destruct He]. simpl in He. rewrite He. simpl.
    rewrite IH. f_equal. unfold sum_Z. simpl. lia.
Qed.

Lemma quota_exceeded_is_quota_error used : is_quota_error (quota_exceeded used).
Proof. unfold is_quota_error, quota_exceeded. eauto. Qed.

Lemma presigned_gate files pin w used w1 :
  files <> [] -> Z.of_nat (length files) <= MAX_FILES_PER_BATCH ->
  Forall declared_ok files ->
  Presigned.getUsedBytes w = (Ok used, w1) ->
  let batchBytes := sum_Z (map Presigned.file_size files) in
  let r := Presigned.fetch_upload_urls files pin w in
  ((exists resp, fst r = Ok resp /\ is_quota_error resp) <-> BYTES_LIMIT <= used + batchBytes) /\
  (BYTES_LIMIT <= used + batchBytes -> r = (Ok (quota_exceeded used), w1)).
Proof.
  intros Hne Hlen Hall Hget batchBytes r. subst r.
  unfold Presigned.fetch_upload_urls.
  rewrite bool_decide_eq_false_2 by exact Hne.
  replace (MAX_FILES_PER_BATCH <? Z.of_nat (length files)) with false
    by (symmetry; apply Z.ltb_ge; exact Hlen).
  rewrite check_files_total by exact Hall. rewrite Z.add_0_l. fold batchBytes.
  unfold bind. rewrite Hget.
  destruct (BYTES_LIMIT <=? used + batchBytes) eqn:E.
  - apply Z.leb_le in E. split; [|reflexivity].
    split; [intros _; exact E|]. intros _. exists (quota_exceeded used).
    split; [reflexivity | apply quota_exceeded_is_quota_error].
  - apply Z.leb_gt in E. split; [|lia]. split; [|lia].
    intros (resp & Hr & (m & u & l & ->)). exfalso. revert Hr.
    destruct (Presigned.unset R2_ACCESS_KEY_ID || Presigned.unset R2_SECRET_ACCESS_KEY
              || Presigned.unset R2_ACCOUNT_ID); [discriminate|].
    unfold try_catch.
    destruct (for_of files _ [] w1) as [[ups| |] w2]; [|discriminate..].
    destruct (KV_put_pending _ _ w2) as [[[]| |] w3]; discriminate.
Qed.

Lemma mediated_gate entries pin w used w1 :
  entries <> [] -> Z.of_nat (length entries) <= MAX_FILES_PER_BATCH ->
  Forall entry_ok entries ->
  Mediated.getUsedBytes w = (Ok used, w1) ->
  let batchBytes := sum_Z (map entry_size entries) in
  let r := Mediated.handleUpload entries pin w in
  ((exists resp, fst r = Ok resp /\ is_quota_error resp) <-> BYTES_LIMIT <= used + batchBytes) /\
  (BYTES_LIMIT <= used + batchBytes -> r = (Ok (quota_exceeded used), w1)).
Proof.
  intros Hne Hlen Hall Hget batchBytes r. subst r.
  unfold Mediated.handleUpload.
  rewrite bool_decide_eq_false_2 by exact Hne.
  replace (MAX_FILES_PER_BATCH <? Z.of_nat (length entries)) with false
    by (symmetry; apply Z.ltb_ge; exact Hlen).
  rewrite check_entries_total by exact Hall. rewrite Z.add_0_l. fold batchBytes.
  unfold bind. rewrite Hget.
  destruct (BYTES_LIMIT <=? used + batchBytes) eqn:E.
  - apply Z.leb_le in E. split; [|reflexivity].
    split; [intros _; exact E|]. intros _. exists (quota_exceeded used).
    split; [reflexivity | apply quota_exceeded_is_quota_error].
  - apply Z.leb_gt in E. split; [|lia]. split; [|lia].
    intros (resp & Hr & (m & u & l & ->)). exfalso. revert Hr.
    destruct (for_of entries _ [] w1) as [[res| |] w2]; discriminate.
Qed.

End QuotaGate.

Section QuotaGateState.
Context `{Runtime}.

Lemma presigned_getUsedBytes_cell w n :
  kv_get_fails USED_BYTES = false -> used_bytes (FILES_KV w) = Some n ->
  Presigned.getUsedBytes w = (Ok n, w).
Proof.
  intros Hg Hc. unfold Presigned.getUsedBytes, bind, try_catch, KV_get_used.
  rewrite Hg, Hc. reflexivity.
Qed.

Lemma mediated_getUsedBytes_cell w n :
  kv_get_fails USED_BYTES = false -> used_bytes (FILES_KV w) = Some n ->
  Mediated.getUsedBytes w = (Ok n, w).
Proof.
  intros Hg Hc. unfold Mediated.getUsedBytes, bind, KV_get_used.
  rewrite Hg, Hc. reflexivity.
Qed.

End QuotaGateState.

(** C1, as stated, fails in two ways.  When the counter cell is absent --
    the bucket holds [BYTES_LIMIT] bytes that no cell counts -- a batch of
    one byte is refused for quota and the refusal leaves a cell that was not
    there before.  When the cell is there but reading it rejects during the
    request, the refusal overwrites it: the counter read 5 before the
    request and reads [BYTES_LIMIT] after it. *)
Lemma quota_refusal_writes_counter :
  (let r := @Presigned.fetch_upload_urls (reference_runtime no_faults)
              (one_file 1) false uncounted_world in
   fst r = Ok (quota_exceeded BYTES_LIMIT) /\
   used_bytes (FILES_KV uncounted_world) = None /\
   used_bytes (FILES_KV (snd r)) = Some BYTES_LIMIT) /\
  (let r := @Presigned.fetch_upload_urls (reference_runtime counter_unreadable)
              (one_file 1) false miscounted_world in
   fst (@Presigned.getUsedBytes (reference_runtime no_faults) miscounted_world) = Ok 5 /\
   fst r = Ok (quota_exceeded BYTES_LIMIT) /\
   fst (@Presigned.getUsedBytes (reference_runtime no_faults) (snd r)) = Ok BYTES_LIMIT).
Proof. vm_compute. repeat split; reflexivity. Qed.

(** C1 (amended).  For every batch that passed the count and type checks,
    with [used] the value [getUsedBytes] returns and [batchBytes] the sum of
    the declared sizes: the request is refused with a quota error (413,
    reason "quota") exactly when [used + batchBytes >= BYTES_LIMIT], the
    boundary included.  On refusal no URL is presigned, the bucket and the
    pending snapshots are unchanged and the counter is not adjusted: the
    state is the one [getUsedBytes] left, which is the state before, or the
    state before with the counter cell set to the total just listed; a cell
    that was present and readable is left as it was.  Both variants; in the
    presigned one [getUsedBytes] always returns a value. *)
Theorem quota_gate `{Runtime} :
  (forall files pin w used w1,
      files <> [] -> Z.of_nat (length files) <= MAX_FILES_PER_BATCH ->
      Forall declared_ok files ->
      Presigned.getUsedBytes w = (Ok used, w1) ->
      let batchBytes := sum_Z (map Presigned.file_size files) in
      let r := Presigned.fetch_upload_urls files pin w in
      ((exists resp, fst r = Ok resp /\ is_quota_error resp)
       <-> used + batchBytes >= BYTES_LIMIT) /\
      (used + batchBytes >= BYTES_LIMIT ->
       fst r = Ok (quota_exceeded used) /\
       FILES (snd r) = FILES w /\ signed (snd r) = signed w /\
       pending (FILES_KV (snd r)) = pending (FILES_KV w) /\
       read_only_or_initialised used w (snd r) /\
       (kv_get_fails USED_BYTES = false -> is_Some (used_bytes (FILES_KV w)) ->
        snd r = w))) /\
  (forall entries pin w used w1,
      entries <> [] -> Z.of_nat (length entries) <= MAX_FILES_PER_BATCH ->
      Forall entry_ok entries ->
      Mediated.getUsedBytes w = (Ok used, w1) ->
      let batchBytes := sum_Z (map entry_size entries) in
      let r := Mediated.handleUpload entries pin w in
      ((exists resp, fst r = Ok resp /\ is_quota_error resp)
       <-> used + batchBytes >= BYTES_LIMIT) /\
      (used + batchBytes >= BYTES_LIMIT ->
       fst r = Ok (quota_exceeded used) /\
       FILES (snd r) = FILES w /\ signed (snd r) = signed w /\
       pending (FILES_KV (snd r)) = pending (FILES_KV w) /\
       read_only_or_initialised used w (snd r) /\
       (is_Some (used_bytes (FILES_KV w)) -> snd r = w))) /\
  (forall w, exists used w1, Presigned.getUsedBytes w = (Ok used, w1)).
Proof.
  split; [|split; [|apply presigned_getUsedBytes_total]].
  - intros files pin w used w1 Hne Hlen Hall Hget batchBytes r.
    destruct (presigned_gate files pin w used w1 Hne Hlen Hall Hget) as [Hiff Hrej].
    fold batchBytes r in Hiff, Hrej.
    destruct (presigned_getUsedBytes_post w used w1 Hget) as (Hf & Hs & _ & Hp & Hro).
    split; [rewrite Hiff; lia|]. intros Hge. rewrite Hrej by lia. simpl.
    repeat split; try assumption.
    intros Hg [n Hn]. rewrite (presigned_getUsedBytes_cell w n Hg Hn) in Hget.
    congruence.
  - intros entries pin w used w1 Hne Hlen Hall Hget batchBytes r.
    destruct (mediated_gate entries pin w used w1 Hne Hlen Hall Hget) as [Hiff Hrej].
    fold batchBytes r in Hiff, Hrej.
    destruct (mediated_getUsedBytes_post w used w1 Hget) as (Hf & Hs & _ & Hp & Hro).
    split; [rewrite Hiff; lia|]. intros Hge. rewrite Hrej by lia. simpl.
    repeat split; try assumption.
    intros [n Hn].
    assert (Hg : kv_get_fails USED_BYTES = false).
    { revert Hget. unfold Mediated.getUsedBytes, bind, KV_get_used.
      destruct (kv_get_fails USED_BYTES); [discriminate | reflexivity]. }
    rewrite (mediated_getUsedBytes_cell w n Hg Hn) in Hget. congruence.
Qed.

(** The gate at the boundary, in both variants: ten bytes below the limit
    are used and ten are declared. *)
Lemma quota_gate_witness :
  let w := world_of [] (Some (BYTES_LIMIT - 10)) NOW in
  let rp := @Presigned.fetch_upload_urls (reference_runtime no_faults) (one_file 10) false w in
  let rm := @Mediated.handleUpload (reference_runtime no_faults) (one_entry 10) false w in
  (fst rp = Ok (quota_exceeded (BYTES_LIMIT - 10)) /\ snd rp = w) /\
  (fst rm = Ok (quota_exceeded (BYTES_LIMIT - 10)) /\ snd rm = w).
Proof.
  intros w rp rm.
  destruct (@quota_gate (reference_runtime no_faults)) as (Hp & Hm & _).
  split.
  - destruct (Hp (one_file 10) false w (BYTES_LIMIT - 10) w) as [_ Hrej].
    + discriminate.
    + vm_compute. discriminate.
    + repeat constructor.
    + vm_compute. reflexivity.
    + destruct Hrej as (Hr & _ & _ & _ & _ & Hw).
      * vm_compute. discriminate.
      * split; [exact Hr|]. apply Hw; [reflexivity | vm_compute; eauto].
  - destruct (Hm (one_entry 10) false w (BYTES_LIMIT - 10) w) as [_ Hrej].
    + discriminate.
    + vm_compute. discriminate.
    + repeat constructor.
    + vm_compute. reflexivity.
    + destruct Hrej as (Hr & _ & _ & _ & _ & Hw).
      * vm_compute. discriminate.
      * split; [exact Hr|]. apply Hw. vm_compute. eauto.
Defined.

(** ** The retention sweep *)

Section Sweep.
Context `{Runtime}.

Lemma sweepable_rule now o :
  sweepable (now - ONE_WEEK_MS) o = true <-> sweep_rule now o.
Proof.
  unfold sweepable, sweep_rule, is_pinned, last_of, reference_date.
  rewrite andb_true_iff, negb_true_iff, bool_decide_eq_false.
  apply and_iff_compat_l.
  assert (Hlast : forall s,
             match Date_parse s with Some last => last <? now - ONE_WEEK_MS | None => true end
             = true <->
             match Date_parse s with Some last => last < now - ONE_WEEK_MS | None => True end).
  { intros s. destruct (Date_parse s); [apply Z.ltb_lt | tauto]. }
  destruct (meta o "last_accessed") as [[|a s]|]; simpl;
    try apply Hlast;
    (destruct (uploaded o) as [up|]; simpl;
     [destruct (Date_toString up); simpl; [rewrite Date_parse_empty; tauto | apply Hlast]
     | rewrite Date_parse_empty; tauto]).
Qed.

Lemma pinned_not_sweepable cutoff o :
  meta o "pinned" = Some "true" -> sweepable cutoff o = false.
Proof.
  intros Hp. unfold sweepable, is_pinned. rewrite bool_decide_eq_true_2 by exact Hp.
  reflexivity.
Qed.

Lemma set_FILES_id w : set_FILES (fun m => m) w = w.
Proof. destruct w. reflexivity. Qed.

Lemma lookup_delete_all l (m : gmap string R2Object) k :
  delete_all l m !! k = if bool_decide (k ∈ map fst l) then None else m !! k.
Proof.
  unfold delete_all. revert m. induction l as [|[k' o'] l IH]; intros m; simpl.
  - reflexivity.
  - rewrite IH. destruct (decide (k = k')) as [->|Hne].
    + rewrite (bool_decide_eq_true_2 (k' ∈ k' :: map fst l)) by apply list_elem_of_here.
      rewrite lookup_delete_eq. case_bool_decide; reflexivity.
    + rewrite lookup_delete_ne by congruence.
      case_bool_decide as H1; case_bool_decide as H2; try reflexivity.
      * exfalso. apply H2. apply list_elem_of_further. exact H1.
      * exfalso. apply elem_of_cons in H2 as [H2|H2]; [congruence | contradiction].
Qed.

(** The inner loop over a listing whose deletes succeed. *)
Lemma sweep_loop now l deleted freed w :
  (forall e, e ∈ l -> sweepable (now - ONE_WEEK_MS) (snd e) = true ->
             r2_delete_fails (fst e) = false) ->
  for_of l (sweep_object (now - ONE_WEEK_MS)) (deleted, freed) w =
  (Ok (deleted + Z.of_nat (length (swept now l)), freed + sizes (swept now l)),
   set_FILES (delete_all (swept now l)) w).
Proof.
  revert deleted freed w. induction l as [|[k o] l IH]; intros deleted freed w Hok.
  - simpl. unfold ret, sizes, sum_Z. simpl. rewrite !Z.add_0_r.
    change (delete_all [] ) with (fun m : gmap string R2Object => m).
    rewrite set_FILES_id. reflexivity.
  - simpl for_of. unfold bind, sweep_object. unfold swept. simpl List.filter.
    fold (swept now l).
    destruct (sweepable (now - ONE_WEEK_MS) o) eqn:Es.
    + unfold R2_delete at 1.
      pose proof (Hok (k, o) (list_elem_of_here _ _) Es) as Hd. simpl in Hd. rewrite Hd.
      unfold ret at 1. rewrite IH.
      2:{ intros e He. apply Hok. apply list_elem_of_further. exact He. }
      replace (deleted + 1 + Z.of_nat (length (swept now l)))
        with (deleted + Z.of_nat (length ((k, o) :: swept now l))) by (simpl length; lia).
      replace (freed + size o + sizes (swept now l))
        with (freed + sizes ((k, o) :: swept now l)) by (unfold sizes, sum_Z; simpl; lia).
      destruct w. reflexivity.
    + unfold ret at 1. rewrite IH.
      2:{ intros e He. apply Hok. apply list_elem_of_further. exact He. }
      reflexivity.
Qed.

Lemma swept_keys now (m : gmap string R2Object) k :
  k ∈ map fst (swept now (listing_of m)) <->
  exists o, m !! k = Some o /\ sweepable (now - ONE_WEEK_MS) o = true.
Proof.
  unfold swept. rewrite list_elem_of_In, in_map_iff. split.
  - intros ([k' o] & Hk & Hin). simpl in Hk. subst k'.
    apply filter_In in Hin as [Hin Hs]. apply list_elem_of_In in Hin.
    apply elem_of_listing_of in Hin. eauto.
  - intros (o & Hm & Hs). exists (k, o). split; [reflexivity|].
    apply filter_In. split; [|exact Hs]. apply list_elem_of_In.
    apply elem_of_listing_of. exact Hm.
Qed.

(** The bucket after the loop: exactly the objects the rule spares. *)
Lemma swept_bucket now (m : gmap string R2Object) k :
  delete_all (swept now (listing_of m)) m !! k =
  match m !! k with
  | Some o => if sweepable (now - ONE_WEEK_MS) o then None else Some o
  | None => None
  end.
Proof.
  rewrite lookup_delete_all. pose proof (swept_keys now m k) as Hk.
  case_bool_decide as Hin.
  - apply Hk in Hin as (o & -> & ->). reflexivity.
  - destruct (m !! k) as [o|] eqn:Em; [|reflexivity].
    destruct (sweepable (now - ONE_WEEK_MS) o) eqn:Es; [|reflexivity].
    exfalso. apply Hin. apply Hk. eauto.
Qed.

End Sweep.

Section SweepPass.
Context `{Runtime}.

(** The state a pass leaves behind when nothing rejects. *)
Lemma presigned_sweep_run w :
  (forall c, r2_list_fails c = false) ->
  (forall k, r2_delete_fails k = false) ->
  kv_get_fails USED_BYTES = false -> kv_put_fails USED_BYTES = false ->
  let doomed := swept (clock w) (listing_of (FILES w)) in
  let w1 := set_FILES (delete_all doomed) w in
  Presigned.fetch_scheduled (Some "cron") w =
  (Ok (json (JCleanup (Z.of_nat (length doomed)) (sizes doomed)) 200),
   if sizes doomed =? 0 then w1
   else set_KV (set_used_bytes (Some (counter w - sizes doomed))) w1).
Proof.
  intros Hlist Hdel Hget Hput doomed w1.
  unfold Presigned.fetch_scheduled. rewrite bool_decide_eq_true_2 by reflexivity.
  cbn [negb]. unfold bind at 1. unfold Date_now at 1. unfold bind at 1.
  rewrite for_each_listed_visits by exact Hlist.
  rewrite sweep_loop by (intros; apply Hdel).
  fold doomed. fold w1. rewrite !Z.add_0_l.
  destruct (sizes doomed =? 0) eqn:E; cbn [negb]; unfold bind, ret; [reflexivity|].
  unfold Presigned.bumpUsedBytes, bind, KV_get_used, KV_put_used. rewrite Hget, Hput.
  replace (default 0 (used_bytes (FILES_KV w1)) + - sizes doomed)
    with (counter w - sizes doomed) by (unfold counter; subst w1; simpl; lia).
  reflexivity.
Qed.

Lemma mediated_sweep_run w :
  (forall c, r2_list_fails c = false) ->
  (forall k, r2_delete_fails k = false) ->
  kv_get_fails USED_BYTES = false -> kv_put_fails USED_BYTES = false ->
  let doomed := swept (clock w) (listing_of (FILES w)) in
  let w1 := set_FILES (delete_all doomed) w in
  Mediated.handleCleanup (Some "cron") w =
  (Ok (json (JCleanup (Z.of_nat (length doomed)) (sizes doomed)) 200),
   if sizes doomed =? 0 then w1
   else set_KV (set_used_bytes (Some (counter w - sizes doomed))) w1).
Proof.
  intros Hlist Hdel Hget Hput doomed w1.
  unfold Mediated.handleCleanup. rewrite bool_decide_eq_true_2 by reflexivity.
  cbn [negb]. unfold bind at 1. unfold Date_now at 1. unfold bind at 1.
  rewrite for_each_listed_visits by exact Hlist.
  rewrite sweep_loop by (intros; apply Hdel).
  fold doomed. fold w1. rewrite !Z.add_0_l.
  destruct (sizes doomed =? 0) eqn:E; cbn [negb]; unfold bind, ret; [reflexivity|].
  unfold Mediated.bumpUsedBytes, Mediated.KV_atomic_mutate. rewrite Hget, Hput.
  cbn [orb].
  replace (default 0 (used_bytes (FILES_KV w1)) + - sizes doomed)
    with (counter w - sizes doomed) by (unfold counter; subst w1; simpl; lia).
  reflexivity.
Qed.

(** What the state of the two lemmas above means for each object and for
    the counter. *)
Lemma sweep_state now w doomed :
  now = clock w -> doomed = swept now (listing_of (FILES w)) ->
  let w' := if sizes doomed =? 0 then set_FILES (delete_all doomed) w
            else set_KV (set_used_bytes (Some (counter w - sizes doomed)))
                   (set_FILES (delete_all doomed) w) in
  (forall k o, FILES w !! k = Some o ->
     (FILES w' !! k = None <-> sweep_rule now o) /\
     (~ sweep_rule now o -> FILES w' !! k = Some o)) /\
  (forall k, FILES w !! k = None -> FILES w' !! k = None) /\
  counter w' = counter w - sizes doomed /\
  (sizes doomed = 0 -> FILES_KV w' = FILES_KV w) /\
  pending (FILES_KV w') = pending (FILES_KV w).
Proof.
  intros -> -> w'.
  assert (Hfiles : FILES w' = delete_all (swept (clock w) (listing_of (FILES w))) (FILES w)).
  { subst w'. destruct (sizes _ =? 0); reflexivity. }
  split; [|split; [|split; [|split]]].
  - intros k o Hk. rewrite Hfiles, swept_bucket, Hk.
    pose proof (sweepable_rule (clock w) o) as Hr.
    destruct (sweepable (clock w - ONE_WEEK_MS) o).
    + split; [split; [intros _; apply Hr; reflexivity | reflexivity]|].
      intros Hn. exfalso. apply Hn, Hr. reflexivity.
    + split; [|reflexivity]. split; [discriminate|]. intros Hs. apply Hr in Hs. discriminate.
  - intros k Hk. rewrite Hfiles, swept_bucket, Hk. reflexivity.
  - subst w'. destruct (sizes _ =? 0) eqn:E.
    + apply Z.eqb_eq in E. rewrite E. unfold counter. simpl. lia.
    + unfold counter. simpl. reflexivity.
  - intros E. subst w'. rewrite E. reflexivity.
  - subst w'. destruct (sizes _ =? 0); reflexivity.
Qed.

End SweepPass.

(** C2, as stated, fails for an object without [last_accessed] that was
    uploaded a day ago: the rule of the specification marks it, the pass
    keeps it, because it falls back on the upload date. *)
Lemma sweep_keeps_recent_unstamped :
  let w := world_of [("c/C.txt", recent_unstamped)] (Some 3) NOW in
  let r := @Presigned.fetch_scheduled (reference_runtime no_faults) (Some "cron") w in
  @sweep_rule_spec (reference_runtime no_faults) NOW recent_unstamped /\
  fst r = Ok (json (JCleanup 0 0) 200) /\
  FILES (snd r) !! "c/C.txt" = Some recent_unstamped.
Proof.
  split; [|split].
  - split; [vm_compute; discriminate | vm_compute; exact I].
  - vm_compute. reflexivity.
  - vm_compute. reflexivity.
Qed.

(** Where [Date.parse] does not read the [toString] rendering of the upload
    date, an object without [last_accessed] goes whatever its age: uploaded a
    day ago, it is deleted. *)
Example sweep_under_iso_only_dates :
  let w := world_of [("c/C.txt", recent_unstamped)] (Some 3) NOW in
  let r := @Presigned.fetch_scheduled iso_only_runtime (Some "cron") w in
  @Date_parse iso_only_runtime (@Date_toString iso_only_runtime (NOW - DAY_MS)) = None /\
  fst r = Ok (json (JCleanup 1 3) 200) /\
  FILES (snd r) !! "c/C.txt" = None.
Proof. vm_compute. repeat split; reflexivity. Qed.
(** C2 (amended).  When nothing rejects, a pass at time [now] deletes an
    enumerated object exactly when its [pinned] metadata is not "true" and
    its reference date -- [last_accessed] when present and not empty,
    otherwise the upload date as [toString] renders it -- parses to a time
    strictly before [now - ONE_WEEK_MS], or does not parse, or is missing
    altogether.  So for an object that is not pinned and has no
    [last_accessed] (or an empty one), whose upload date [Date.parse] reads
    back from its [toString] rendering as the time [t]: it is kept when [t]
    is not before [now - ONE_WEEK_MS] and deleted when it is; it is deleted
    when the rendering does not parse.  Pinned objects survive.  The pass
    answers with the number and the total size of the objects deleted, and
    the counter ends at its value (0 if absent) minus that total; with
    nothing freed the cell is not written.  Both variants. *)
Theorem sweep_pass `{Runtime} w r :
  (forall c, r2_list_fails c = false) ->
  (forall k, r2_delete_fails k = false) ->
  kv_get_fails USED_BYTES = false -> kv_put_fails USED_BYTES = false ->
  r = Presigned.fetch_scheduled (Some "cron") w \/
  r = Mediated.handleCleanup (Some "cron") w ->
  let now := clock w in
  let doomed := swept now (listing_of (FILES w)) in
  fst r = Ok (json (JCleanup (Z.of_nat (length doomed)) (sizes doomed)) 200) /\
  (forall k o, FILES w !! k = Some o ->
     (FILES (snd r) !! k = None <-> sweep_rule now o) /\
     (~ sweep_rule now o -> FILES (snd r) !! k = Some o)) /\
  (forall k o, FILES w !! k = Some o -> meta o "pinned" = Some "true" ->
     FILES (snd r) !! k = Some o) /\
  (NoDup doomed /\
   forall k o, (k, o) ∈ doomed <-> FILES w !! k = Some o /\ sweep_rule now o) /\
  counter (snd r) = counter w - sizes doomed /\
  (sizes doomed = 0 -> FILES_KV (snd r) = FILES_KV w) /\
  (forall k o up, FILES w !! k = Some o ->
     meta o "pinned" <> Some "true" ->
     meta o "last_accessed" = None \/ meta o "last_accessed" = Some "" ->
     uploaded o = Some up ->
     match Date_parse (Date_toString up) with
     | Some t =>
         (now - ONE_WEEK_MS <= t -> FILES (snd r) !! k = Some o) /\
         (t < now - ONE_WEEK_MS -> FILES (snd r) !! k = None)
     | None => FILES (snd r) !! k = None
     end).
Proof.
  intros Hlist Hdel Hget Hput Hr now doomed.
  assert (Hrun : r = (Ok (json (JCleanup (Z.of_nat (length doomed)) (sizes doomed)) 200),
                      if sizes doomed =? 0 then set_FILES (delete_all doomed) w
                      else set_KV (set_used_bytes (Some (counter w - sizes doomed)))
                             (set_FILES (delete_all doomed) w))).
  { destruct Hr as [-> | ->];
      [apply presigned_sweep_run | apply mediated_sweep_run]; assumption. }
  destruct (sweep_state now w doomed eq_refl eq_refl) as (Hobj & Hnone & Hcnt & Hkv & _).
  rewrite Hrun. cbn [fst snd].
  split; [reflexivity|]. split; [exact Hobj|].
  split; [|split; [|split; [exact Hcnt | split; [exact Hkv|]]]].
  - intros k o Hk Hp. apply (Hobj k o Hk). intros [Hn _]. contradiction.
  - split.
    + unfold doomed, swept. apply NoDup_ListNoDup, List.NoDup_filter, NoDup_ListNoDup.
      apply NoDup_listing_of.
    + intros k o. unfold doomed, swept. rewrite list_elem_of_In, filter_In.
      rewrite <- list_elem_of_In, elem_of_listing_of. simpl.
      rewrite (sweepable_rule now o). reflexivity.
  - intros k o up Hk Hpin Hla Hup.
    destruct (Hobj k o Hk) as [Hiff Hkeep].
    assert (Href : forall s, Date_toString up = s ->
              sweep_rule now o <->
              match Date_parse s with Some last => last < now - ONE_WEEK_MS | None => True end).
    { intros s Hs. unfold sweep_rule, reference_date. rewrite Hup, Hs.
      assert (E : match meta o "last_accessed" with
                  | Some (String a s0) => Some (String a s0)
                  | _ => match s with
                         | String a s0 => Some (String a s0)
                         | EmptyString => None
                         end
                  end
                  = match s with String a s0 => Some (String a s0) | EmptyString => None end)
        by (destruct Hla as [-> | ->]; reflexivity).
      rewrite E. destruct s as [|a s0].
      - rewrite Date_parse_empty. tauto.
      - tauto. }
    specialize (Href (Date_toString up) eq_refl).
    destruct (Date_parse (Date_toString up)) as [t|].
    + split.
      * intros Hle. apply Hkeep. rewrite Href. lia.
      * intros Hlt. apply Hiff, Href. exact Hlt.
    + apply Hiff, Href. exact I.
Qed.

(** The scenario of the specification, run: B and C go, A and D stay, and
    the counter loses the 23 bytes of B and C.  C has no [last_accessed]
    and was uploaded ten days ago; the same object uploaded a day ago
    stays. *)
Lemma sweep_pass_witness :
  let r := @Presigned.fetch_scheduled (reference_runtime no_faults) (Some "cron")
             scenario_world in
  let w1 := world_of [("c/C.txt", recent_unstamped)] (Some 3) NOW in
  let r1 := @Mediated.handleCleanup (reference_runtime no_faults) (Some "cron") w1 in
  fst r = Ok (json (JCleanup 2 23) 200) /\
  FILES (snd r) !! "b/B.txt" = None /\
  FILES (snd r) !! "c/C.txt" = None /\
  is_Some (FILES (snd r) !! "a/A.txt") /\
  is_Some (FILES (snd r) !! "d/D.txt") /\
  counter (snd r) = 4100 /\
  FILES (snd r1) !! "c/C.txt" = Some recent_unstamped.
Proof.
  intros r w1 r1.
  destruct (@sweep_pass (reference_runtime no_faults) scenario_world r)
    as (Hresp & _ & _ & _ & Hcnt & _ & Hup);
    [reflexivity | reflexivity | reflexivity | reflexivity | left; reflexivity |].
  destruct (@sweep_pass (reference_runtime no_faults) w1 r1)
    as (_ & _ & _ & _ & _ & _ & Hup1);
    [reflexivity | reflexivity | reflexivity | reflexivity | right; reflexivity |].
  split; [rewrite Hresp; vm_compute; reflexivity|].
  split; [vm_compute; reflexivity|].
  split.
  { specialize (Hup "c/C.txt" stale_unstamped (NOW - 10 * DAY_MS)).
    change (@Date_parse (reference_runtime no_faults)
              (@Date_toString (reference_runtime no_faults) (NOW - 10 * DAY_MS)))
      with (Some (NOW - 10 * DAY_MS)) in Hup.
    apply Hup; [vm_compute; reflexivity | vm_compute; discriminate | left; vm_compute; reflexivity
               | reflexivity | vm_compute; reflexivity]. }
  split; [vm_compute; eauto|]. split; [vm_compute; eauto|].
  split; [rewrite Hcnt; vm_compute; reflexivity|].
  specialize (Hup1 "c/C.txt" recent_unstamped (NOW - DAY_MS)).
  change (@Date_parse (reference_runtime no_faults)
            (@Date_toString (reference_runtime no_faults) (NOW - DAY_MS)))
    with (Some (NOW - DAY_MS)) in Hup1.
  apply Hup1; [vm_compute; reflexivity | vm_compute; discriminate | left; vm_compute; reflexivity
              | reflexivity | vm_compute; discriminate].
Defined.

(** ** Confirm *)

Section Confirm.
Context `{Runtime}.

Lemma confirm_key_absent pin updated total k w :
  r2_head_fails k = false -> FILES w !! k = None ->
  Presigned.confirm_key pin (updated, total) k w = (Ok (updated, total), w).
Proof.
  intros Hh Hk. unfold Presigned.confirm_key, bind, R2_head. rewrite Hh, Hk. reflexivity.
Qed.

Lemma confirm_key_found pin updated total k h w :
  object_calls_ok k -> FILES w !! k = Some h ->
  Presigned.confirm_key pin (updated, total) k w =
  (Ok (updated + 1, total + size h),
   set_FILES (insert k (confirmed_object pin (clock w) h)) w).
Proof.
  intros (Hh & Hg & Hp) Hk.
  unfold Presigned.confirm_key, bind, R2_head, R2_get, nowISO, bind, Date_now, R2_put, ret.
  rewrite Hh, Hk, Hg, Hk, Hp. reflexivity.
Qed.

(** A rejected rewrite stops the step where it stands. *)
Lemma confirm_key_put_rejects pin updated total k h w :
  r2_head_fails k = false -> r2_get_fails k = false -> r2_put_fails k = true ->
  FILES w !! k = Some h ->
  Presigned.confirm_key pin (updated, total) k w = (Throw "R2.put", w).
Proof.
  intros Hh Hg Hp Hk.
  unfold Presigned.confirm_key, bind, R2_head, R2_get, nowISO, bind, Date_now, R2_put, ret.
  rewrite Hh, Hk, Hg, Hk, Hp. reflexivity.
Qed.

Lemma size_at_same (m m' : gmap string R2Object) k :
  size <$> (m' !! k) = size <$> (m !! k) ->
  size_at m' k = size_at m k /\ present m' k = present m k.
Proof.
  unfold size_at, present. intros Hs.
  destruct (m' !! k) as [o'|], (m !! k) as [o|]; simpl in *; try discriminate.
  - injection Hs as ->. split; reflexivity.
  - split; reflexivity.
Qed.

Lemma found_same keys w w' :
  (forall k, size <$> (FILES w' !! k) = size <$> (FILES w !! k)) ->
  found_bytes keys w' = found_bytes keys w /\ found_count keys w' = found_count keys w.
Proof.
  intros Hs. unfold found_bytes, found_count.
  induction keys as [|k keys [IHb IHc]]; [split; reflexivity|].
  destruct (size_at_same (FILES w) (FILES w') k (Hs k)) as [Hsz Hpr].
  simpl. rewrite Hsz, Hpr. unfold sum_Z in *. simpl. rewrite IHb. split; [reflexivity|].
  destruct (present (FILES w) k); simpl; lia.
Qed.

Lemma found_count_cons k keys w :
  found_count (k :: keys) w = (if present (FILES w) k then 1 else 0) + found_count keys w.
Proof.
  unfold found_count. simpl. destruct (present (FILES w) k); simpl length; lia.
Qed.

Lemma found_bytes_cons k keys w :
  found_bytes (k :: keys) w = size_at (FILES w) k + found_bytes keys w.
Proof. reflexivity. Qed.

(** The loop of confirm when no call rejects: what it counts, and what it
    leaves alone. *)
Lemma confirm_loop pin keys updated total w :
  (forall k, k ∈ keys -> object_calls_ok k) ->
  exists w',
    for_of keys (Presigned.confirm_key pin) (updated, total) w =
    (Ok (updated + found_count keys w, total + found_bytes keys w), w') /\
    FILES_KV w' = FILES_KV w /\ clock w' = clock w /\
    (forall k, size <$> (FILES w' !! k) = size <$> (FILES w !! k)) /\
    (forall k, k ∉ keys -> FILES w' !! k = FILES w !! k).
Proof.
  revert updated total w. induction keys as [|k keys IH]; intros updated total w Hok.
  - exists w. simpl. unfold ret, found_count, found_bytes, sum_Z. simpl.
    rewrite !Z.add_0_r. auto.
  - assert (Hk : object_calls_ok k) by (apply Hok, list_elem_of_here).
    assert (Hrest : forall k', k' ∈ keys -> object_calls_ok k')
      by (intros k' Hin; apply Hok, list_elem_of_further, Hin).
    cbn [for_of]. unfold bind.
    destruct (FILES w !! k) as [h|] eqn:Ek.
    + rewrite (confirm_key_found pin updated total k h w Hk Ek).
      set (w1 := set_FILES (insert k (confirmed_object pin (clock w) h)) w).
      assert (Hsize : forall k', size <$> (FILES w1 !! k') = size <$> (FILES w !! k')).
      { intros k'. subst w1. simpl. destruct (decide (k = k')) as [<-|Hne].
        - rewrite lookup_insert_eq, Ek. reflexivity.
        - rewrite lookup_insert_ne by exact Hne. reflexivity. }
      destruct (IH (updated + 1) (total + size h) w1 Hrest) as (w' & Hrun & Hkv & Hcl & Hs & Hout).
      destruct (found_same keys w w1 Hsize) as [Hb Hc].
      exists w'. rewrite Hrun, Hb, Hc. split.
      { rewrite found_count_cons, found_bytes_cons. unfold present, size_at. rewrite Ek.
        simpl. rewrite !Z.add_assoc. reflexivity. }
      split; [exact Hkv|]. split; [exact Hcl|]. split.
      { intros k'. rewrite Hs. apply Hsize. }
      intros k' Hnin. apply not_elem_of_cons in Hnin as [Hne Hnin].
      rewrite (Hout k' Hnin). subst w1. simpl. rewrite lookup_insert_ne by congruence.
      reflexivity.
    + destruct Hk as (Hh & _ & _).
      rewrite (confirm_key_absent pin updated total k w Hh Ek).
      destruct (IH updated total w Hrest) as (w' & Hrun & Hkv & Hcl & Hs & Hout).
      exists w'. rewrite Hrun. split.
      { rewrite found_count_cons, found_bytes_cons. unfold present, size_at. rewrite Ek.
        simpl. reflexivity. }
      split; [exact Hkv|]. split; [exact Hcl|]. split; [exact Hs|].
      intros k' Hnin. apply not_elem_of_cons in Hnin as [_ Hnin]. apply Hout, Hnin.
Qed.

(** The whole route when no call rejects. *)
Lemma confirm_run keys pin w :
  keys <> [] -> (forall k, k ∈ keys -> object_calls_ok k) -> counter_calls_ok ->
  exists w',
    Presigned.fetch_confirm keys pin w =
    (Ok (json (JConfirmed (found_count keys w) (found_bytes keys w)) 200), w') /\
    counter w' = counter w + found_bytes keys w /\
    (found_bytes keys w = 0 -> FILES_KV w' = FILES_KV w) /\
    pending (FILES_KV w') = pending (FILES_KV w) /\
    clock w' = clock w /\
    (forall k, size <$> (FILES w' !! k) = size <$> (FILES w !! k)) /\
    (forall k, k ∉ keys -> FILES w' !! k = FILES w !! k).
Proof.
  intros Hne Hok [Hget Hput].
  destruct (confirm_loop pin keys 0 0 w Hok) as (w1 & Hrun & Hkv & Hcl & Hs & Hout).
  unfold Presigned.fetch_confirm. rewrite bool_decide_eq_false_2 by exact Hne.
  unfold bind at 1. rewrite Hrun, !Z.add_0_l.
  destruct (found_bytes keys w =? 0) eqn:E; cbn [negb]; unfold bind, ret.
  - apply Z.eqb_eq in E. exists w1. rewrite E, Z.add_0_r. unfold counter. rewrite Hkv.
    auto 10.
  - unfold Presigned.bumpUsedBytes, bind, KV_get_used, KV_put_used. rewrite Hget, Hput.
    eexists. split; [reflexivity|]. unfold counter. simpl. rewrite Hkv.
    apply Z.eqb_neq in E. repeat split; auto; contradiction.
Qed.

End Confirm.

Section ConfirmTwice.
Context `{Runtime}.

Lemma stored_bytes_sizes w :
  stored_bytes w = sum_Z (map snd (map_to_list (size <$> FILES w))).
Proof.
  unfold stored_bytes. rewrite map_to_list_fmap. f_equal.
  induction (map_to_list (FILES w)) as [|[k o] l IH]; simpl; [reflexivity|].
  f_equal. exact IH.
Qed.

Lemma stored_bytes_same w w' :
  (forall k, size <$> (FILES w' !! k) = size <$> (FILES w !! k)) ->
  stored_bytes w' = stored_bytes w.
Proof.
  intros Hs. rewrite !stored_bytes_sizes. f_equal. f_equal. f_equal.
  apply map_eq. intros k. rewrite !lookup_fmap. apply Hs.
Qed.

End ConfirmTwice.

(** C4, as stated, fails: an object of 100 bytes is confirmed twice, and the
    counter ends at 200 while the bucket holds 100 bytes. *)
Lemma second_confirm_counts_again :
  let keys := ["u1/a.txt"] in
  let r1 := @Presigned.fetch_confirm (reference_runtime no_faults) keys false uploaded_world in
  let r2 := @Presigned.fetch_confirm (reference_runtime no_faults) keys false (snd r1) in
  counter (snd r1) = 100 /\ fst r2 = Ok (json (JConfirmed 1 100) 200) /\
  counter (snd r2) = 200 /\ stored_bytes (snd r2) = 100.
Proof. vm_compute. repeat split; reflexivity. Qed.

(** C4 (amended).  When no call rejects, a second POST /api/confirm with
    the same keys finds the same objects, answers with the same [updated]
    and [totalBytes] as the first, and adds the same sum to the counter
    again: after the two calls the counter is its first value plus twice the
    sum of the sizes found, while the bytes stored have not changed. *)
Theorem confirm_twice `{Runtime} keys pin pin' w :
  keys <> [] -> (forall k, k ∈ keys -> object_calls_ok k) -> counter_calls_ok ->
  let r1 := Presigned.fetch_confirm keys pin w in
  let r2 := Presigned.fetch_confirm keys pin' (snd r1) in
  fst r1 = Ok (json (JConfirmed (found_count keys w) (found_bytes keys w)) 200) /\
  fst r2 = fst r1 /\
  counter (snd r1) = counter w + found_bytes keys w /\
  counter (snd r2) = counter w + 2 * found_bytes keys w /\
  stored_bytes (snd r2) = stored_bytes w.
Proof.
  intros Hne Hok Hkv r1 r2.
  destruct (confirm_run keys pin w Hne Hok Hkv) as (w1 & Hrun1 & Hcnt1 & _ & _ & _ & Hs1 & _).
  destruct (confirm_run keys pin' w1 Hne Hok Hkv) as (w2 & Hrun2 & Hcnt2 & _ & _ & _ & Hs2 & _).
  destruct (found_same keys w w1 Hs1) as [Hb Hc].
  subst r2 r1. rewrite Hrun1. cbn [fst snd]. rewrite Hrun2. cbn [fst snd].
  rewrite Hb, Hc in *. repeat split; [exact Hcnt1 | lia |].
  apply stored_bytes_same. intros k. rewrite Hs2. apply Hs1.
Qed.

(** The object of 100 bytes, confirmed twice. *)
Lemma confirm_twice_witness :
  let keys := ["u1/a.txt"] in
  let r1 := @Presigned.fetch_confirm (reference_runtime no_faults) keys false uploaded_world in
  let r2 := @Presigned.fetch_confirm (reference_runtime no_faults) keys true (snd r1) in
  fst r2 = fst r1 /\ counter (snd r2) = 200.
Proof.
  intros keys r1 r2.
  destruct (@confirm_twice (reference_runtime no_faults) keys false true uploaded_world)
    as (_ & Hsame & _ & Hcnt & _).
  - discriminate.
  - intros k _. repeat split.
  - split; reflexivity.
  - subst r2 r1. split; [exact Hsame | rewrite Hcnt; vm_compute; reflexivity].
Defined.

(** ** A call that rejects inside a loop *)

Section Abort.
Context `{Runtime}.

Lemma sweep_loop_aborts now pre k o post deleted freed w :
  (forall e, e ∈ pre -> sweepable (now - ONE_WEEK_MS) (snd e) = true ->
             r2_delete_fails (fst e) = false) ->
  sweepable (now - ONE_WEEK_MS) o = true -> r2_delete_fails k = true ->
  for_of (pre ++ (k, o) :: post) (sweep_object (now - ONE_WEEK_MS)) (deleted, freed) w =
  (Throw "R2.delete", set_FILES (delete_all (swept now pre)) w).
Proof.
  intros Hpre Hs Hd. rewrite for_of_app. unfold bind at 1. rewrite sweep_loop by exact Hpre.
  cbn [for_of]. unfold bind, sweep_object. rewrite Hs. unfold R2_delete. rewrite Hd.
  reflexivity.
Qed.

Lemma swept_subset now l e : e ∈ swept now l -> e ∈ l.
Proof.
  unfold swept. rewrite !list_elem_of_In, filter_In. tauto.
Qed.

(** The bucket where the pass stopped. *)
Lemma aborted_bucket now (m : gmap string R2Object) pre k o post :
  listing_of m = pre ++ (k, o) :: post ->
  (forall e, e ∈ (k, o) :: post -> delete_all (swept now pre) m !! fst e = Some (snd e)) /\
  (forall e, e ∈ swept now pre -> delete_all (swept now pre) m !! fst e = None).
Proof.
  intros Hl. pose proof (NoDup_fst_listing_of m) as Hnd. rewrite Hl, fmap_app in Hnd.
  apply NoDup_app in Hnd as (_ & Hdisj & _). split.
  - intros [k' o'] Hin. simpl. rewrite lookup_delete_all.
    rewrite bool_decide_eq_false_2.
    + apply elem_of_listing_of. rewrite Hl. apply elem_of_app. right. exact Hin.
    + intros Hk. apply list_elem_of_fmap in Hk as ([k2 o2] & Hk2 & Hin2). simpl in Hk2.
      subst k2. apply swept_subset in Hin2.
      apply (Hdisj k').
      * apply list_elem_of_fmap. exists (k', o2). split; [reflexivity | exact Hin2].
      * apply list_elem_of_fmap. exists (k', o'). split; [reflexivity | exact Hin].
  - intros e Hin. rewrite lookup_delete_all. rewrite bool_decide_eq_true_2; [reflexivity|].
    apply list_elem_of_fmap. exists e. split; [reflexivity | exact Hin].
Qed.

Lemma sweep_aborts w pre k o post r :
  (forall c, r2_list_fails c = false) ->
  listing_of (FILES w) = pre ++ (k, o) :: post ->
  (forall e, e ∈ pre -> sweepable (clock w - ONE_WEEK_MS) (snd e) = true ->
             r2_delete_fails (fst e) = false) ->
  sweepable (clock w - ONE_WEEK_MS) o = true -> r2_delete_fails k = true ->
  r = Presigned.fetch_scheduled (Some "cron") w \/
  r = Mediated.handleCleanup (Some "cron") w ->
  r = (Throw "R2.delete", set_FILES (delete_all (swept (clock w) pre)) w).
Proof.
  intros Hlist Hl Hpre Hs Hd [-> | ->].
  - unfold Presigned.fetch_scheduled. rewrite bool_decide_eq_true_2 by reflexivity.
    cbn [negb]. unfold bind at 1. unfold Date_now at 1. unfold bind at 1.
    rewrite for_each_listed_visits by exact Hlist. rewrite Hl.
    rewrite sweep_loop_aborts by assumption. reflexivity.
  - unfold Mediated.handleCleanup. rewrite bool_decide_eq_true_2 by reflexivity.
    cbn [negb]. unfold bind at 1. unfold Date_now at 1. unfold bind at 1.
    rewrite for_each_listed_visits by exact Hlist. rewrite Hl.
    rewrite sweep_loop_aborts by assumption. reflexivity.
Qed.

Lemma confirm_aborts w pre k h post pin :
  (forall k', k' ∈ pre -> object_calls_ok k') ->
  r2_head_fails k = false -> r2_get_fails k = false -> r2_put_fails k = true ->
  FILES w !! k = Some h ->
  exists w1,
    Presigned.fetch_confirm (pre ++ k :: post) pin w = (Throw "R2.put", w1) /\
    FILES_KV w1 = FILES_KV w /\
    (forall k', k' ∉ pre -> FILES w1 !! k' = FILES w !! k').
Proof.
  intros Hpre Hh Hg Hp Hk.
  destruct (confirm_loop pin pre 0 0 w Hpre) as (w1 & Hrun & Hkv & _ & Hs & Hout).
  assert (Hk1 : exists h1, FILES w1 !! k = Some h1).
  { specialize (Hs k). rewrite Hk in Hs. destruct (FILES w1 !! k); [eauto | discriminate]. }
  destruct Hk1 as [h1 Hk1].
  exists w1. split; [|split; assumption].
  unfold Presigned.fetch_confirm.
  rewrite bool_decide_eq_false_2 by (destruct pre; discriminate).
  unfold bind at 1. rewrite for_of_app. unfold bind at 1. rewrite Hrun.
  cbn [for_of]. unfold bind at 1.
  rewrite (confirm_key_put_rejects pin _ _ k h1 w1 Hh Hg Hp Hk1). reflexivity.
Qed.

End Abort.

(** C7, as stated, fails: the pass spares the pinned A, deleting B rejects,
    the request fails, and C, which the rule marks and which comes after B
    in the listing, is still in the bucket. *)
Lemma sweep_stops_at_rejected_delete :
  let r := @Presigned.fetch_scheduled (reference_runtime (delete_rejects "b/B.txt"))
             (Some "cron") scenario_world in
  map fst (listing_of (FILES scenario_world))
  = ["a/A.txt"; "b/B.txt"; "c/C.txt"; "d/D.txt"] /\
  fst r = Throw "R2.delete" /\
  FILES (snd r) !! "c/C.txt" = Some stale_unstamped /\
  @sweepable (reference_runtime no_faults) (NOW - ONE_WEEK_MS) stale_unstamped = true /\
  FILES_KV (snd r) = FILES_KV scenario_world.
Proof.
  split; [vm_compute; reflexivity|]. split; [vm_compute; reflexivity|].
  split; [vm_compute; reflexivity|]. split; vm_compute; reflexivity.
Qed.

(** ** Delete *)

Section Delete.
Context `{Runtime}.

Lemma presigned_delete_found key o w :
  r2_head_fails key = false -> r2_delete_fails key = false -> counter_calls_ok ->
  FILES w !! key = Some o ->
  Presigned.fetch_delete key w =
  (Ok (json JOk 200),
   set_KV (set_used_bytes (Some (counter w - size o))) (set_FILES (delete key) w)).
Proof.
  intros Hh Hd [Hg Hp] Hk.
  unfold Presigned.fetch_delete, bind, R2_head, R2_delete, Presigned.bumpUsedBytes, bind,
    KV_get_used, KV_put_used, ret.
  rewrite Hh, Hk, Hd, Hg, Hp. unfold counter. simpl.
  replace (default 0 (used_bytes (FILES_KV w)) + - size o)
    with (default 0 (used_bytes (FILES_KV w)) - size o) by lia.
  reflexivity.
Qed.

Lemma mediated_delete_found key o w :
  r2_head_fails key = false -> r2_delete_fails key = false -> counter_calls_ok ->
  FILES w !! key = Some o ->
  Mediated.handleDelete key w =
  (Ok (json JOk 200),
   set_KV (set_used_bytes (Some (counter w - size o))) (set_FILES (delete key) w)).
Proof.
  intros Hh Hd [Hg Hp] Hk.
  unfold Mediated.handleDelete, bind, R2_head, R2_delete, Mediated.bumpUsedBytes,
    Mediated.KV_atomic_mutate, ret.
  rewrite Hh, Hk, Hd, Hg, Hp. unfold counter. simpl.
  replace (default 0 (used_bytes (FILES_KV w)) + - size o)
    with (default 0 (used_bytes (FILES_KV w)) - size o) by lia.
  reflexivity.
Qed.

Lemma delete_absent key w r :
  r2_head_fails key = false -> FILES w !! key = None ->
  r = Presigned.fetch_delete key w \/ r = Mediated.handleDelete key w ->
  r = (Ok (text "Not found" 404), w).
Proof.
  intros Hh Hk [-> | ->].
  - unfold Presigned.fetch_delete, bind, R2_head. rewrite Hh, Hk. reflexivity.
  - unfold Mediated.handleDelete, bind, R2_head. rewrite Hh, Hk. reflexivity.
Qed.

End Delete.

Section Router.
Context `{Runtime}.


Example route_key_ex :
  Mediated.route_key "0b6e/notes.txt" = "0b6e/notes.txt" /\
  Mediated.route_key "0b6e/notes.txt/access" = "0b6e/notes.txt" /\
  Mediated.route_key "0b6e/notes.txt/pin" = "0b6e/notes.txt" /\
  Mediated.route_key "pin" = "pi".
Proof. vm_compute. repeat split; reflexivity. Qed.

End Router.

(** ** The gate when the stores reject *)

Section FailOpen.
Context `{Runtime}.




End FailOpen.



(** ** Adjustments of the counter that overlap *)

Section Adjustments.
Context `{Runtime}.
Import Interleaving.

Lemma owed_insert tasks i t t' :
  tasks !! i = Some t ->
  owed (<[i := t']> tasks) = owed tasks - delta_of t + delta_of t'.
Proof.
  unfold owed, sum_Z. revert i. induction tasks as [|t0 tasks IH]; intros i Hi.
  - discriminate.
  - destruct i as [|i]; simpl in *.
    + injection Hi as ->. lia.
    + rewrite (IH i Hi). lia.
Qed.

Lemma owed_finished tasks : all_finished tasks -> owed tasks = 0.
Proof.
  unfold owed, sum_Z. induction 1 as [|t tasks -> _ IH]; simpl; [reflexivity | exact IH].
Qed.

Lemma owed_map_Reading deltas : owed (map Reading deltas) = sum_Z deltas.
Proof. unfold owed. rewrite map_map. simpl. rewrite map_id. reflexivity. Qed.

Lemma owed_map_Atomic deltas : owed (map Atomic deltas) = sum_Z deltas.
Proof. unfold owed. rewrite map_map. simpl. rewrite map_id. reflexivity. Qed.

Lemma settled_insert tasks i :
  settled tasks -> settled (<[i := Finished]> tasks).
Proof.
  unfold settled. intros Hs. apply Forall_insert; [exact Hs | exact I].
Qed.

Lemma step_Reading d w :
  kv_get_fails USED_BYTES = false ->
  step (Reading d) w = (Ok (Writing (counter w) d), w).
Proof. intros Hg. unfold step, bind, KV_get_used, ret. rewrite Hg. reflexivity. Qed.

Lemma step_Writing cur d w :
  kv_put_fails USED_BYTES = false ->
  step (Writing cur d) w = (Ok Finished, set_KV (set_used_bytes (Some (cur + d))) w).
Proof. intros Hp. unfold step, bind, KV_put_used, ret. rewrite Hp. reflexivity. Qed.

Lemma step_Atomic d w :
  kv_get_fails USED_BYTES = false -> kv_put_fails USED_BYTES = false ->
  step (Atomic d) w = (Ok Finished, set_KV (set_used_bytes (Some (counter w + d))) w).
Proof.
  intros Hg Hp. unfold step, bind, Mediated.bumpUsedBytes, Mediated.KV_atomic_mutate, ret.
  rewrite Hg, Hp. reflexivity.
Qed.

Lemma step_Finished w : step Finished w = (Ok Finished, w).
Proof. reflexivity. Qed.

(** A task that runs alone, from its first step to its last, adds its
    delta; a finished task adds nothing. *)
Lemma run_alone i rest tasks w :
  counter_calls_ok -> settled tasks ->
  exists tasks1 w1,
    run (i :: i :: rest) tasks w = run rest tasks1 w1 /\
    counter w1 + owed tasks1 = counter w + owed tasks /\
    settled tasks1 /\ length tasks1 = length tasks /\
    ((i < length tasks)%nat -> tasks1 !! i = Some Finished) /\
    (forall j, tasks !! j = Some Finished -> tasks1 !! j = Some Finished).
Proof.
  intros [Hg Hp] Hs. cbn [run].
  destruct (tasks !! i) as [t|] eqn:Ei.
  2:{ exists tasks, w. repeat split; auto.
      intros Hlt. apply lookup_ge_None in Ei. lia. }
  pose proof (lookup_lt_Some _ _ _ Ei) as Hlt.
  assert (Hnw : match t with Writing _ _ => False | _ => True end).
  { unfold settled in Hs. rewrite Forall_forall in Hs. apply Hs.
    apply list_elem_of_lookup. eauto. }
  destruct t as [d|cur d|d|]; [| destruct Hnw | |].
  - (* read, then write *)
    unfold bind at 1. rewrite (step_Reading d w Hg). cbv beta iota.
    rewrite list_lookup_insert_eq by exact Hlt.
    unfold bind at 1. rewrite (step_Writing (counter w) d w Hp). cbv beta iota.
    rewrite list_insert_insert_eq.
    eexists _, _. split; [reflexivity|].
    rewrite (owed_insert tasks i (Reading d) Finished Ei). unfold counter. simpl.
    split; [lia|]. split; [apply settled_insert, Hs|]. split; [apply length_insert|].
    split; [intros _; apply list_lookup_insert_eq, Hlt|].
    intros j Hj. destruct (decide (i = j)) as [<-|Hne]; [congruence|].
    rewrite list_lookup_insert_ne by exact Hne. exact Hj.
  - (* the atomic chain, then nothing *)
    unfold bind at 1. rewrite (step_Atomic d w Hg Hp). cbv beta iota.
    rewrite list_lookup_insert_eq by exact Hlt.
    unfold bind at 1. rewrite step_Finished. cbv beta iota.
    rewrite list_insert_insert_eq.
    eexists _, _. split; [reflexivity|].
    rewrite (owed_insert tasks i (Atomic d) Finished Ei). unfold counter. simpl.
    split; [lia|]. split; [apply settled_insert, Hs|]. split; [apply length_insert|].
    split; [intros _; apply list_lookup_insert_eq, Hlt|].
    intros j Hj. destruct (decide (i = j)) as [<-|Hne]; [congruence|].
    rewrite list_lookup_insert_ne by exact Hne. exact Hj.
  - unfold bind at 1. rewrite step_Finished. cbv beta iota.
    rewrite list_lookup_insert_eq by exact Hlt.
    unfold bind at 1. rewrite step_Finished. cbv beta iota.
    rewrite list_insert_insert_eq.
    rewrite (list_insert_id tasks i Finished Ei).
    exists tasks, w. repeat split; auto.
Qed.

Lemma run_one_by_one order tasks w :
  counter_calls_ok -> settled tasks ->
  exists tasks' w',
    run (one_by_one order) tasks w = (Ok tasks', w') /\
    counter w' + owed tasks' = counter w + owed tasks /\
    length tasks' = length tasks /\
    (forall i, i ∈ order -> (i < length tasks)%nat -> tasks' !! i = Some Finished) /\
    (forall j, tasks !! j = Some Finished -> tasks' !! j = Some Finished).
Proof.
  intros Hkv. revert tasks w. induction order as [|i order IH]; intros tasks w Hs.
  - exists tasks, w. simpl. unfold ret. repeat split; auto.
    intros i Hi. apply elem_of_nil in Hi. destruct Hi.
  - destruct (run_alone i (one_by_one order) tasks w Hkv Hs)
      as (tasks1 & w1 & Hrun1 & Hc1 & Hs1 & Hl1 & Hf1 & Hk1).
    destruct (IH tasks1 w1 Hs1) as (tasks' & w' & Hrun & Hc & Hl & Hf & Hk).
    exists tasks', w'. change (one_by_one (i :: order)) with (i :: i :: one_by_one order).
    rewrite Hrun1, Hrun. split; [reflexivity|]. split; [lia|]. split; [lia|]. split.
    + intros j Hj Hlt. apply elem_of_cons in Hj as [->|Hj].
      * apply Hk, Hf1, Hlt.
      * apply Hf; [exact Hj | lia].
    + intros j Hj. apply Hk, Hk1, Hj.
Qed.

Lemma covered_all_finished (tasks' : list Task) n order :
  length tasks' = n -> covers order n ->
  (forall i, i ∈ order -> (i < n)%nat -> tasks' !! i = Some Finished) ->
  all_finished tasks'.
Proof.
  intros Hl Hc Hf. unfold all_finished. apply Forall_lookup. intros i t Hi.
  pose proof (lookup_lt_Some _ _ _ Hi) as Hlt. rewrite Hl in Hlt.
  rewrite (Hf i (Hc i Hlt) Hlt) in Hi. congruence.
Qed.

(** A pool of atomic tasks: a step of any schedule keeps the sum of the
    counter and of what is owed. *)
Lemma run_atomic schedule tasks w :
  counter_calls_ok -> atomic_pool tasks ->
  exists tasks' w',
    run schedule tasks w = (Ok tasks', w') /\
    counter w' + owed tasks' = counter w + owed tasks /\
    length tasks' = length tasks /\
    (forall i, i ∈ schedule -> (i < length tasks)%nat -> tasks' !! i = Some Finished) /\
    (forall j, tasks !! j = Some Finished -> tasks' !! j = Some Finished).
Proof.
  intros [Hg Hp]. revert tasks w. induction schedule as [|i schedule IH]; intros tasks w Ha.
  - exists tasks, w. simpl. unfold ret. repeat split; auto.
    intros i Hi. apply elem_of_nil in Hi. destruct Hi.
  - cbn [run]. destruct (tasks !! i) as [t|] eqn:Ei.
    2:{ destruct (IH tasks w Ha) as (tasks' & w' & Hrun & Hc & Hl & Hf & Hk).
        exists tasks', w'. repeat split; auto. intros j Hj Hlt.
        apply elem_of_cons in Hj as [->|Hj]; [|auto].
        apply lookup_ge_None in Ei. lia. }
    pose proof (lookup_lt_Some _ _ _ Ei) as Hlt.
    assert (Hat : match t with Atomic _ | Finished => True | _ => False end).
    { unfold atomic_pool in Ha. rewrite Forall_forall in Ha. apply Ha.
      apply list_elem_of_lookup. eauto. }
    assert (Hkeep : forall w1,
               counter w1 + owed (<[i := Finished]> tasks) = counter w + owed tasks ->
               exists tasks' w',
                 run schedule (<[i := Finished]> tasks) w1 = (Ok tasks', w') /\
                 counter w' + owed tasks' = counter w + owed tasks /\
                 length tasks' = length tasks /\
                 (forall j, j ∈ i :: schedule -> (j < length tasks)%nat ->
                            tasks' !! j = Some Finished) /\
                 (forall j, tasks !! j = Some Finished -> tasks' !! j = Some Finished)).
    { intros w1 Hc1.
      destruct (IH (<[i := Finished]> tasks) w1)
        as (tasks' & w' & Hrun & Hc & Hl & Hf & Hk).
      { apply Forall_insert; [exact Ha | exact I]. }
      rewrite length_insert in Hl, Hf.
      exists tasks', w'. split; [exact Hrun|]. split; [lia|]. split; [exact Hl|]. split.
      - intros j Hj Hjl. apply elem_of_cons in Hj as [->|Hj]; [|auto].
        apply Hk, list_lookup_insert_eq, Hlt.
      - intros j Hj. apply Hk. destruct (decide (i = j)) as [<-|Hne].
        + apply list_lookup_insert_eq, Hlt.
        + rewrite list_lookup_insert_ne by exact Hne. exact Hj. }
    destruct t as [d|cur d|d|]; try destruct Hat.
    + unfold bind at 1. rewrite (step_Atomic d w Hg Hp). cbv beta iota.
      apply Hkeep.
      rewrite (owed_insert tasks i (Atomic d) Finished Ei). unfold counter. simpl. lia.
    + unfold bind at 1. rewrite step_Finished. cbv beta iota.
      apply Hkeep.
      rewrite (owed_insert tasks i Finished Finished Ei). lia.
Qed.

End Adjustments.

Section TaskModel.
Context `{Runtime}.
Import Interleaving.

(** The two steps of a [Reading] task are the body of [bumpUsedBytes] of the
    presigned variant, cut at its second await. *)
Lemma bump_is_read_then_write delta w :
  Presigned.bumpUsedBytes delta w =
  bind (bind (step (Reading delta)) step) (fun _ => ret tt) w.
Proof.
  unfold Presigned.bumpUsedBytes, bind, step, bind, KV_get_used, KV_put_used, ret.
  destruct (kv_get_fails USED_BYTES); [reflexivity|].
  destruct (kv_put_fails USED_BYTES); reflexivity.
Qed.

Lemma settled_Reading deltas : settled (map Reading deltas).
Proof. unfold settled. apply Forall_map, Forall_true. intros d. exact I. Qed.

Lemma atomic_pool_Atomic deltas : atomic_pool (map Atomic deltas).
Proof. unfold atomic_pool. apply Forall_map, Forall_true. intros d. exact I. Qed.

End TaskModel.

(** C6, as stated, fails in the presigned variant: three handlers adjust by
    +5, +7 and -3, each reads the counter (100) before any of them writes,
    and the counter ends at 97 instead of 109. *)
Lemma overlapping_adjustments_lose_updates :
  let w := world_of [] (Some 100) NOW in
  let r := @Interleaving.run (reference_runtime no_faults) [0; 1; 2; 0; 1; 2]%nat
             (map Interleaving.Reading [5; 7; -3]) w in
  fst r = Ok [Interleaving.Finished; Interleaving.Finished; Interleaving.Finished] /\
  counter (snd r) = 97 /\
  counter w + sum_Z [5; 7; -3] = 109.
Proof. vm_compute. repeat split; reflexivity. Qed.

(** C6 (amended).  When the counter calls do not reject: in the presigned
    variant, adjustments that run one after the other, in any order, each
    from its read to its write without another in between, leave the counter
    at its first value (0 if absent) plus the sum of the deltas; adjustments
    that overlap can lose updates.  In the server-mediated variant, where an
    adjustment is one atomic chain, every schedule that runs each adjustment
    leaves the counter at its first value plus the sum of the deltas. *)
Theorem adjustments_add_up `{Runtime} deltas w :
  counter_calls_ok ->
  (forall order, covers order (length deltas) ->
     let r := Interleaving.run (Interleaving.one_by_one order)
                (map Interleaving.Reading deltas) w in
     (exists tasks', fst r = Ok tasks' /\ all_finished tasks') /\
     counter (snd r) = counter w + sum_Z deltas) /\
  (forall schedule, covers schedule (length deltas) ->
     let r := Interleaving.run schedule (map Interleaving.Atomic deltas) w in
     (exists tasks', fst r = Ok tasks' /\ all_finished tasks') /\
     counter (snd r) = counter w + sum_Z deltas).
Proof.
  intros Hkv. split.
  - intros order Hcov r.
    destruct (run_one_by_one order (map Interleaving.Reading deltas) w Hkv
                (settled_Reading deltas)) as (tasks' & w' & Hrun & Hc & Hl & Hf & _).
    rewrite length_map in Hl, Hf.
    assert (Hall : all_finished tasks')
      by (apply (covered_all_finished tasks' (length deltas) order); assumption).
    subst r. rewrite Hrun. cbn [fst snd]. split; [eauto|].
    rewrite (owed_finished tasks' Hall), owed_map_Reading in Hc. lia.
  - intros schedule Hcov r.
    destruct (run_atomic schedule (map Interleaving.Atomic deltas) w Hkv
                (atomic_pool_Atomic deltas)) as (tasks' & w' & Hrun & Hc & Hl & Hf & _).
    rewrite length_map in Hl, Hf.
    assert (Hall : all_finished tasks')
      by (apply (covered_all_finished tasks' (length deltas) schedule); assumption).
    subst r. rewrite Hrun. cbn [fst snd]. split; [eauto|].
    rewrite (owed_finished tasks' Hall), owed_map_Atomic in Hc. lia.
Qed.

(** The three adjustments of the counterexample, one after the other in the
    order 2, 0, 1, and as atomic chains in an arbitrary schedule. *)
Lemma adjustments_add_up_witness :
  let w := world_of [] (Some 100) NOW in
  counter (snd (@Interleaving.run (reference_runtime no_faults)
                  (Interleaving.one_by_one [2; 0; 1]%nat)
                  (map Interleaving.Reading [5; 7; -3]) w)) = 109 /\
  counter (snd (@Interleaving.run (reference_runtime no_faults) [1; 1; 2; 0; 2]%nat
                  (map Interleaving.Atomic [5; 7; -3]) w)) = 109.
Proof.
  intros w.
  destruct (@adjustments_add_up (reference_runtime no_faults) [5; 7; -3] w) as [Hseq Hat].
  - split; reflexivity.
  - split.
    + destruct (Hseq [2; 0; 1]%nat) as [_ Hc].
      * intros i Hi. simpl in Hi.
        destruct i as [|[|[|i]]]; [| | | lia]; rewrite !elem_of_cons; auto.
      * rewrite Hc. vm_compute. reflexivity.
    + destruct (Hat [1; 1; 2; 0; 2]%nat) as [_ Hc].
      * intros i Hi. simpl in Hi.
        destruct i as [|[|[|i]]]; [| | | lia]; rewrite !elem_of_cons; auto 10.
      * rewrite Hc. vm_compute. reflexivity.
Defined.

(** ** The presigned URL *)

Section Presign.
Context `{Runtime}.

Lemma append_assoc (a b c : string) : (a +:+ b) +:+ c = a +:+ (b +:+ c).
Proof.
  induction a as [|x a IH]; [reflexivity|].
  change (String x ((a +:+ b) +:+ c) = String x (a +:+ (b +:+ c))). f_equal. exact IH.
Qed.

Lemma is_hex_app a b : is_hex (a +:+ b) = is_hex a && is_hex b.
Proof.
  induction a as [|x a IH]; [reflexivity|].
  change (is_hex (String x (a +:+ b)) = is_hex (String x a) && is_hex b).
  simpl. rewrite IH, andb_assoc. reflexivity.
Qed.

Lemma hex_digit_lower n :
  (n < 16)%nat -> JsString.has_char (Encoding.hex_digit false n) "0123456789abcdef" = true.
Proof.
  intros Hn. do 16 (destruct n as [|n]; [vm_compute; reflexivity|]). lia.
Qed.

Lemma hex2_is_hex n : (n < 256)%nat -> is_hex (Encoding.hex2 false n) = true.
Proof.
  intros Hn. unfold Encoding.hex2. cbn [is_hex].
  rewrite !hex_digit_lower; [reflexivity | |].
  - apply Nat.mod_upper_bound. lia.
  - apply Nat.Div0.div_lt_upper_bound. lia.
Qed.

Lemma u8ToHex_is_hex u8 : is_hex (Encoding.u8ToHex u8) = true.
Proof.
  induction u8 as [|b u8 IH]; [reflexivity|]. cbn [Encoding.u8ToHex].
  rewrite is_hex_app, IH, andb_true_r. apply hex2_is_hex.
  pose proof (N_ascii_bounded (ascii_of_byte b)) as Hb. unfold nat_of_ascii. lia.
Qed.

Lemma unsigned_url_public now opts secret :
  unsigned_url now (with_secret secret opts) = unsigned_url now opts /\
  Presigned.stringToSign now (with_secret secret opts) = Presigned.stringToSign now opts.
Proof. split; reflexivity. Qed.

Lemma presigned_url_parts now opts :
  Presigned.presigned_url now opts = unsigned_url now opts +:+ Presigned.signature now opts.
Proof.
  unfold Presigned.presigned_url, unsigned_url, Presigned.presign_host,
    Presigned.canonicalUri.
  change (Presigned.query_params now opts) with (derived_params now opts).
  rewrite !append_assoc. reflexivity.
Qed.

End Presign.

(** C9.  The URL that [presignPutUrl] returns is the scheme, host and
    encoded path, the five derived query parameters (algorithm, credential
    with the access key id and the scope, date, expiry, signed headers) and
    the parameter X-Amz-Signature.  Nothing before the value of the signature
    is computed from the secret access key, and neither is the string that
    is signed; the value of the signature is a run of hexadecimal digits, the
    output of the HMAC chain, in which the secret is only the key of the
    first HMAC: two secrets with the same date key give the same URL. *)
Theorem presigned_url_carries_only_the_signature `{Runtime} opts w :
  let now := clock w in
  fst (Presigned.presignPutUrl opts w) = Ok (Presigned.presigned_url now opts) /\
  Presigned.presigned_url now opts = unsigned_url now opts +:+ Presigned.signature now opts /\
  Presigned.signature now opts =
    Encoding.u8ToHex
      (Presigned.hmac
         (Presigned.hmac
            (Presigned.hmac
               (Presigned.hmac
                  (Presigned.hmac
                     (Encoding.utf8 ("AWS4" +:+ Presigned.secretAccessKey opts))
                     (Presigned.datestamp now))
                  (default "auto" (Presigned.region opts)))
               "s3")
            "aws4_request")
         (Presigned.stringToSign now opts)) /\
  is_hex (Presigned.signature now opts) = true /\
  (forall secret,
      unsigned_url now (with_secret secret opts) = unsigned_url now opts /\
      Presigned.stringToSign now (with_secret secret opts)
      = Presigned.stringToSign now opts) /\
  (forall secret,
      Presigned.kDate now (with_secret secret opts) = Presigned.kDate now opts ->
      Presigned.presigned_url now (with_secret secret opts)
      = Presigned.presigned_url now opts).
Proof.
  intros now. split; [reflexivity|]. split; [apply presigned_url_parts|].
  split; [reflexivity|]. split; [apply u8ToHex_is_hex|]. split.
  - intros secret. apply unsigned_url_public.
  - intros secret Hk. rewrite !presigned_url_parts.
    destruct (unsigned_url_public now opts secret) as [-> Hs]. f_equal.
    unfold Presigned.signature. rewrite Hk, Hs. reflexivity.
Qed.

(** The URL of the example, and a second secret that the stand-in hash
    gives the same date key. *)
Lemma presigned_url_witness :
  let w := fresh_world NOW in
  fst (@Presigned.presignPutUrl (reference_runtime no_faults) example_opts w)
  = Ok ("https://acct.r2.cloudflarestorage.com/felicity-files/"
        +:+ "00000000-0000-4000-8000-000000000000%2Fmy%20notes.txt"
        +:+ "?X-Amz-Algorithm=AWS4-HMAC-SHA256"
        +:+ "&X-Amz-Credential=AKIDEXAMPLE%2F20261102%2Fauto%2Fs3%2Faws4_request"
        +:+ "&X-Amz-Date=20261102T134500Z&X-Amz-Expires=600&X-Amz-SignedHeaders=host"
        +:+ "&X-Amz-Signature="
        +:+ @Presigned.signature (reference_runtime no_faults) NOW example_opts) /\
  @Presigned.presigned_url (reference_runtime no_faults) NOW
    (with_secret "tPqsecretkey" example_opts)
  = @Presigned.presigned_url (reference_runtime no_faults) NOW example_opts.
Proof.
  intros w.
  destruct (@presigned_url_carries_only_the_signature (reference_runtime no_faults)
              example_opts w) as (Hrun & _ & _ & _ & _ & Hsame).
  split.
  - rewrite Hrun. vm_compute. reflexivity.
  - apply (Hsame "tPqsecretkey"). vm_compute. reflexivity.
Defined.

(** ** The counter rebuilt from the listing *)

Section Rebuild.
Context `{Runtime}.

Lemma sum_Z_perm (l l' : list Z) : l ≡ₚ l' -> sum_Z l = sum_Z l'.
Proof. unfold sum_Z. induction 1; simpl; lia. Qed.

Lemma listed_sizes w : sizes (listing_of (FILES w)) = stored_bytes w.
Proof.
  unfold sizes, stored_bytes. apply sum_Z_perm.
  apply (fmap_Permutation (fun e : string * R2Object => size (snd e))).
  apply listing_of_perm.
Qed.

(** With an absent cell and no call rejecting, [getUsedBytes] returns the
    bytes stored and keeps them in the cell, in both variants. *)
Lemma getUsedBytes_rebuilds w :
  used_bytes (FILES_KV w) = None ->
  (forall c, r2_list_fails c = false) -> counter_calls_ok ->
  Presigned.getUsedBytes w
  = (Ok (stored_bytes w), set_KV (set_used_bytes (Some (stored_bytes w))) w) /\
  Mediated.getUsedBytes w
  = (Ok (stored_bytes w), set_KV (set_used_bytes (Some (stored_bytes w))) w).
Proof.
  intros Hc Hl [Hg Hp].
  assert (Hsum : for_each_listed (fun total e => ret (total + size (snd e))) 0 w
                 = (Ok (stored_bytes w), w)).
  { rewrite for_each_listed_visits by exact Hl. rewrite for_of_pure, foldl_sizes.
    rewrite Z.add_0_l. fold (sizes (listing_of (FILES w))). rewrite listed_sizes.
    reflexivity. }
  split.
  - unfold Presigned.getUsedBytes, bind, try_catch, KV_get_used. rewrite Hg, Hc.
    cbn [ret]. rewrite Hsum. unfold KV_put_used. rewrite Hp. reflexivity.
  - unfold Mediated.getUsedBytes, bind, KV_get_used. rewrite Hg, Hc, Hsum.
    unfold KV_put_used. rewrite Hp. reflexivity.
Qed.

End Rebuild.

(** ** The routers *)

Section Routers.
Context `{Runtime}.
Variable decode : string -> option string.

Lemma startsWith_eq p s : JsPath.startsWith p s = true -> String.eqb p s = true \/ p <> s.
Proof. intros _. destruct (String.eqb_spec p s); [left | right]; auto. Qed.

Lemma outside_api p :
  JsPath.startsWith p "/api/" = true -> String.eqb p "/__scheduled" = false.
Proof.
  intros Hs. destruct (String.eqb_spec p "/__scheduled") as [-> | Hne]; [|reflexivity].
  discriminate Hs.
Qed.



Lemma mediated_tail_unreached req w :
  JsPath.startsWith (Mediated_router.pathname req) "/api/" = true ->
  Mediated_router.fetch_tail req w = (Ok not_found, w).
Proof.
  intros Hs. unfold Mediated_router.fetch_tail. rewrite (outside_api _ Hs). reflexivity.
Qed.

End Routers.

(** X1.  A request whose path does not start with /api/ is answered by the
    static assets, in both variants, and nothing is read or written.  The
    path of the sweep, /__scheduled, is such a path: the branch of [fetch]
    that runs the sweep comes after this one. *)
Theorem requests_outside_api_go_to_assets `{Runtime} decode :
  (forall req w,
      JsPath.startsWith (Mediated_router.pathname req) "/api/" = false ->
      Mediated_router.fetch decode req w = (Ok ASSETS_fetch, w)) /\
  (forall req w,
      JsPath.startsWith (Presigned_router.pathname req) "/api/" = false ->
      Presigned_router.fetch decode req w = (Ok ASSETS_fetch, w)) /\
  JsPath.startsWith "/__scheduled" "/api/" = false.
Proof.
  split; [|split].
  - intros req w Hs. unfold Mediated_router.fetch. rewrite Hs, orb_true_r. reflexivity.
  - intros req w Hs. unfold Presigned_router.fetch. rewrite Hs, orb_true_r. reflexivity.
  - reflexivity.
Qed.

Lemma requests_outside_api_witness :
  let sweep_m := plain_request "GET" "/__scheduled" (Some "cron") in
  let sweep_p := get_request "/__scheduled" (Some "cron") in
  @Mediated_router.fetch (reference_runtime no_faults) Some sweep_m scenario_world
  = (Ok ASSETS_fetch, scenario_world) /\
  @Presigned_router.fetch (reference_runtime no_faults) Some sweep_p scenario_world
  = (Ok ASSETS_fetch, scenario_world).
Proof.
  intros sweep_m sweep_p.
  destruct (@requests_outside_api_go_to_assets (reference_runtime no_faults) Some)
    as (Hm & Hp & _).
  split; [apply Hm | apply Hp]; reflexivity.
Defined.



Section RouteKey.
Context `{Runtime}.

Lemma length_app (a b : string) :
  String.length (a +:+ b) = (String.length a + String.length b)%nat.
Proof.
  induction a as [|c a IH]; [reflexivity|].
  change (String c a +:+ b) with (String c (a +:+ b)).
  cbn [String.length]. rewrite IH. reflexivity.
Qed.

Lemma drop_app (a b : string) : JsString.drop (String.length a) (a +:+ b) = b.
Proof.
  induction a as [|c a IH]; [destruct b; reflexivity|].
  change (String c a +:+ b) with (String c (a +:+ b)).
  cbn [String.length JsString.drop]. exact IH.
Qed.

Lemma take_app (a b : string) : JsString.take (String.length a) (a +:+ b) = a.
Proof.
  induction a as [|c a IH]; [destruct b; reflexivity|].
  change (String c a +:+ b) with (String c (a +:+ b)).
  cbn [String.length JsString.take]. rewrite IH. reflexivity.
Qed.

Lemma lastIndexOf_app c stem suffix :
  JsString.has_char c suffix = false ->
  JsString.lastIndexOf c (stem +:+ String c suffix) = Z.of_nat (String.length stem).
Proof.
  intros Hs. induction stem as [|a stem IH].
  - change ("" +:+ String c suffix) with (String c suffix).
    cbn [JsString.lastIndexOf String.length]. apply lastIndexOf_absent in Hs.
    rewrite (proj2 (Z.leb_gt 0 _)) by lia.
    rewrite Ascii.eqb_refl. reflexivity.
  - change (String a stem +:+ String c suffix) with (String a (stem +:+ String c suffix)).
    cbn [JsString.lastIndexOf]. rewrite IH.
    rewrite (proj2 (Z.leb_le 0 _)) by lia.
    cbn [String.length]. lia.
Qed.

(** The last segment of [key/sub] is [sub], and the key that the router
    derives from it is [key], when [sub] is a sub-route. *)
Lemma route_key_sub key sub :
  sub = "access" \/ sub = "pin" ->
  Mediated.last_segment (key +:+ "/" +:+ sub) = sub /\
  Mediated.route_key (key +:+ "/" +:+ sub) = key.
Proof.
  intros Hsub.
  assert (Hno : JsString.has_char "/" sub = false) by (destruct Hsub; subst; reflexivity).
  assert (Hseg : Mediated.last_segment (key +:+ "/" +:+ sub) = sub).
  { unfold Mediated.last_segment.
    change (key +:+ "/" +:+ sub) with (key +:+ String "/" sub).
    rewrite (lastIndexOf_app _ _ _ Hno).
    rewrite (proj2 (Z.leb_le 0 _)) by lia.
    unfold JsString.slice.
    replace (Z.to_nat (Z.of_nat (String.length key) + 1))
      with (String.length (key +:+ "/")) by (rewrite length_app; cbn; lia).
    replace (key +:+ String "/" sub) with ((key +:+ "/") +:+ sub)
      by (rewrite append_assoc; reflexivity).
    apply drop_app. }
  split; [exact Hseg|].
  unfold Mediated.route_key. rewrite Hseg.
  replace (String.eqb sub "access" || String.eqb sub "pin") with true
    by (destruct Hsub; subst; reflexivity).
  change (key +:+ "/" +:+ sub) with (key +:+ String "/" sub).
  rewrite (lastIndexOf_app _ _ _ Hno). unfold JsString.slice_to.
  rewrite (proj2 (Z.ltb_ge _ 0)) by lia.
  rewrite length_app.
  replace (Z.to_nat (Z.min _ _)) with (String.length key) by lia.
  apply take_app.
Qed.

End RouteKey.

(** X3.  In the server-mediated router the key of a request under
    /api/files/ is the decoded path without its last segment when that
    segment is "access" or "pin", for DELETE as for POST: a DELETE on
    /api/files/<key>/pin (or /access) deletes the object under <key> and
    lowers the counter by its size. *)
Theorem delete_drops_subroute_segment `{Runtime} decode req enc key sub o w :
  Mediated_router.method req = "DELETE" ->
  Mediated_router.pathname req = "/api/files/" +:+ enc ->
  decode enc = Some (key +:+ "/" +:+ sub) ->
  sub = "access" \/ sub = "pin" ->
  r2_head_fails key = false -> r2_delete_fails key = false -> counter_calls_ok ->
  FILES w !! key = Some o ->
  let r := Mediated_router.fetch decode req w in
  fst r = Ok (reply (json JOk 200)) /\
  FILES (snd r) = delete key (FILES w) /\
  counter (snd r) = counter w - size o.
Proof.
  intros Hm Hp Hd Hsub Hh Hdel Hc Ho r. subst r.
  unfold Mediated_router.fetch. rewrite Hm, Hp.
  change (JsString.slice ("/api/files/" +:+ enc) 11) with enc.
  change (String.eqb ("/api/files/" +:+ enc) "/") with false.
  change (JsPath.startsWith ("/api/files/" +:+ enc) "/api/") with true.
  change (String.eqb ("/api/files/" +:+ enc) "/api/chat") with false.
  change (String.eqb ("/api/files/" +:+ enc) "/api/quota") with false.
  change (String.eqb ("/api/files/" +:+ enc) "/api/upload") with false.
  change (JsPath.startsWith ("/api/files/" +:+ enc) "/api/files/") with true.
  cbn [orb negb andb]. rewrite Hd.
  destruct (route_key_sub key sub Hsub) as [Hseg Hkey]. rewrite Hseg, Hkey.
  change (String.eqb "DELETE" "POST") with false. rewrite !andb_false_r.
  change (String.eqb "DELETE" "DELETE") with true. cbv iota.
  unfold bind. rewrite (mediated_delete_found key o w Hh Hdel Hc Ho).
  cbn. repeat split.
Qed.

Lemma delete_drops_subroute_witness :
  let req := plain_request "DELETE" "/api/files/b/B.txt/pin" None in
  let r := @Mediated_router.fetch (reference_runtime no_faults) Some req scenario_world in
  fst r = Ok (reply (json JOk 200)) /\
  FILES (snd r) !! "b/B.txt" = None /\
  counter (snd r) = 4103.
Proof.
  intros req r.
  destruct (@delete_drops_subroute_segment (reference_runtime no_faults) Some req
              "b/B.txt/pin" "b/B.txt" "pin"
              scenario_B scenario_world)
    as (Hr & Hf & Hc).
  - reflexivity.
  - reflexivity.
  - reflexivity.
  - right. reflexivity.
  - reflexivity.
  - reflexivity.
  - split; reflexivity.
  - vm_compute. reflexivity.
  - subst r. split; [exact Hr|]. split.
    + rewrite Hf. apply lookup_delete_eq.
    + rewrite Hc. vm_compute. reflexivity.
Defined.

(** ** Touch and pin *)

Section Touch.
Context `{Runtime}.

Lemma endsWith_access key :
  JsPath.endsWith (key +:+ "/access") "/access" = true /\
  JsPath.without_access (key +:+ "/access") = key.
Proof.
  assert (He : JsPath.endsWith (key +:+ "/access") "/access" = true).
  { unfold JsPath.endsWith. rewrite length_app. cbn [String.length].
    apply andb_true_intro. split; [apply Nat.leb_le; lia|].
    replace (String.length key + 7 - 7)%nat with (String.length key) by lia.
    rewrite drop_app. reflexivity. }
  split; [exact He|].
  unfold JsPath.without_access. rewrite He, length_app. cbn [String.length].
  replace (String.length key + 7 - 7)%nat with (String.length key) by lia.
  apply take_app.
Qed.

Lemma restamped_put o up f v :
  restamped f v o
    {| body := body o; httpMetadata := httpMetadata o;
       customMetadata := Some (<[f := v]> (default ∅ (customMetadata o)));
       uploaded := up |}.
Proof.
  unfold restamped, meta. cbn [body httpMetadata customMetadata].
  split; [reflexivity|]. split; [reflexivity|]. split.
  - apply lookup_insert_eq.
  - intros g Hg. rewrite lookup_insert_ne by congruence.
    destruct (customMetadata o); [reflexivity | apply lookup_empty].
Qed.

Lemma mediated_touch_found key o w :
  object_calls_ok key -> FILES w !! key = Some o ->
  Mediated_router.handleTouchAccess key w =
  (Ok (touched key (Some (Date_toISOString (clock w)))),
   set_FILES (insert key
      {| body := body o; httpMetadata := httpMetadata o;
         customMetadata :=
           Some (<["last_accessed" := Date_toISOString (clock w)]>
                   (default ∅ (customMetadata o)));
         uploaded := Some (clock w) |}) w).
Proof.
  intros (Hh & Hg & Hp) Ho.
  unfold Mediated_router.handleTouchAccess, bind, R2_head, R2_get, R2_put, nowISO, bind,
    Date_now, ret.
  rewrite Hh, Ho, Hg, Ho, Hp. reflexivity.
Qed.

Lemma presigned_touch_found key o w :
  object_calls_ok key -> FILES w !! key = Some o ->
  Presigned_router.fetch_touch (key +:+ "/access") w =
  (Ok (touched key None),
   set_FILES (insert key
      {| body := body o; httpMetadata := httpMetadata o;
         customMetadata :=
           Some (<["last_accessed" := Date_toISOString (clock w)]>
                   (default ∅ (customMetadata o)));
         uploaded := Some (clock w) |}) w).
Proof.
  intros (Hh & Hg & Hp) Ho.
  destruct (endsWith_access key) as [He Hk].
  unfold Presigned_router.fetch_touch. rewrite He, Hk. cbn [negb].
  unfold bind, R2_head, R2_get, R2_put, nowISO, bind, Date_now, ret.
  rewrite Hh, Ho, Hg, Ho, Hp. reflexivity.
Qed.

Lemma touch_absent key w r :
  r2_head_fails key = false -> FILES w !! key = None ->
  r = Mediated_router.handleTouchAccess key w \/
  r = Presigned_router.fetch_touch (key +:+ "/access") w ->
  r = (Ok not_found, w).
Proof.
  intros Hh Ho [-> | ->].
  - unfold Mediated_router.handleTouchAccess, bind, R2_head. rewrite Hh, Ho. reflexivity.
  - destruct (endsWith_access key) as [He Hk].
    unfold Presigned_router.fetch_touch. rewrite He, Hk. cbn [negb].
    unfold bind, R2_head. rewrite Hh, Ho. reflexivity.
Qed.

Lemma mediated_pin_found req key o w :
  Mediated_router.body_parses req = true ->
  object_calls_ok key -> FILES w !! key = Some o ->
  Mediated_router.handlePin req key w =
  (Ok (pin_set key (Mediated_router.pinned req)),
   set_FILES (insert key
      {| body := body o; httpMetadata := httpMetadata o;
         customMetadata :=
           Some (<["pinned" := String_of_bool (Mediated_router.pinned req)]>
                   (default ∅ (customMetadata o)));
         uploaded := Some (clock w) |}) w).
Proof.
  intros Hb (Hh & Hg & Hp) Ho.
  unfold Mediated_router.handlePin, Mediated_router.read_body, bind, R2_head, R2_get,
    R2_put, ret.
  rewrite Hb, Hh, Ho, Hg, Ho, Hp. reflexivity.
Qed.

(** The bucket after a sweep, key by key. *)
Lemma sweep_bucket w2 s k :
  sweep_calls_ok ->
  s = Presigned.fetch_scheduled (Some "cron") w2 \/
  s = Mediated.handleCleanup (Some "cron") w2 ->
  FILES (snd s) !! k =
  match FILES w2 !! k with
  | Some o => if sweepable (clock w2 - ONE_WEEK_MS) o then None else Some o
  | None => None
  end.
Proof.
  intros (Hl & Hd & Hg & Hp) Hs.
  assert (Hrun : snd s =
    let doomed := swept (clock w2) (listing_of (FILES w2)) in
    let w1 := set_FILES (delete_all doomed) w2 in
    if sizes doomed =? 0 then w1
    else set_KV (set_used_bytes (Some (counter w2 - sizes doomed))) w1).
  { destruct Hs as [-> | ->].
    - rewrite (presigned_sweep_run w2 Hl Hd Hg Hp). reflexivity.
    - rewrite (mediated_sweep_run w2 Hl Hd Hg Hp). reflexivity. }
  rewrite Hrun. cbv zeta.
  rewrite <- (swept_bucket (clock w2) (FILES w2) k).
  destruct (sizes _ =? 0); reflexivity.
Qed.

(** A stamp that the runtime reads back protects for a week. *)
Lemma fresh_stamp_kept t now o :
  reads_back t -> meta o "last_accessed" = Some (Date_toISOString t) ->
  now <= t + ONE_WEEK_MS ->
  sweepable (now - ONE_WEEK_MS) o = false.
Proof.
  intros Hrb Hm Hle. unfold sweepable, last_of. rewrite Hm.
  assert (Ht : JsString.truthy (Date_toISOString t) = true).
  { destruct (Date_toISOString t) eqn:Hs; [|reflexivity].
    unfold reads_back in Hrb. rewrite Hs, Date_parse_empty in Hrb. discriminate. }
  cbn [js_or]. rewrite Ht. cbn [js_or default]. rewrite Ht. cbn [default].
  rewrite Hrb. rewrite (proj2 (Z.ltb_ge _ _)) by lia. apply andb_false_r.
Qed.

End Touch.

(** X4.  Touching an object (POST .../access in either variant), when the
    lookup does not reject: a key without an object is answered 404 and the
    state is the state before; an object that is there is written back
    with the same payload and HTTP metadata, [last_accessed] set to the ISO
    rendering of the clock and every other field of its custom metadata as
    it was, its upload date becomes now, every other object and the
    key-value store stay as they were.  In the presigned variant a decoded
    path that does not end in /access is answered 404 without a lookup. *)
Theorem touch_refreshes_last_accessed `{Runtime} key w r :
  r2_head_fails key = false ->
  r = Mediated_router.handleTouchAccess key w \/
  r = Presigned_router.fetch_touch (key +:+ "/access") w ->
  (FILES w !! key = None -> r = (Ok not_found, w)) /\
  (forall o, FILES w !! key = Some o ->
     r2_get_fails key = false -> r2_put_fails key = false ->
     exists o' stamp,
       fst r = Ok (touched key stamp) /\
       FILES (snd r) = <[key := o']> (FILES w) /\
       restamped "last_accessed" (Date_toISOString (clock w)) o o' /\
       uploaded o' = Some (clock w) /\
       FILES_KV (snd r) = FILES_KV w) /\
  (forall rest w',
     JsPath.endsWith rest "/access" = false ->
     Presigned_router.fetch_touch rest w' = (Ok not_found, w')).
Proof.
  intros Hh Hr. split; [|split].
  - intros Ho. exact (touch_absent key w r Hh Ho Hr).
  - intros o Ho Hg Hp.
    assert (Hok : object_calls_ok key) by (repeat split; assumption).
    eexists. destruct Hr as [-> | ->].
    + rewrite (mediated_touch_found key o w Hok Ho). eexists.
      split; [reflexivity|]. split; [reflexivity|].
      split; [apply restamped_put|]. split; reflexivity.
    + rewrite (presigned_touch_found key o w Hok Ho). eexists.
      split; [reflexivity|]. split; [reflexivity|].
      split; [apply restamped_put|]. split; reflexivity.
  - intros rest w' He. unfold Presigned_router.fetch_touch. rewrite He. reflexivity.
Qed.

Lemma touch_refreshes_witness :
  let r := @Presigned_router.fetch_touch (reference_runtime no_faults)
             ("b/B.txt" +:+ "/access") scenario_world in
  fst r = Ok (touched "b/B.txt" None) /\
  (exists o', FILES (snd r) !! "b/B.txt" = Some o' /\
              meta o' "last_accessed" = Some "2026-11-02T13:45:00.000Z") /\
  @Mediated_router.handleTouchAccess (reference_runtime no_faults) "x/none.txt" scenario_world
  = (Ok not_found, scenario_world).
Proof.
  intros r.
  destruct (@touch_refreshes_last_accessed (reference_runtime no_faults) "b/B.txt"
              scenario_world r) as (_ & Hfound & _).
  - reflexivity.
  - right. reflexivity.
  - destruct (Hfound scenario_B) as (o' & stamp & Hr & Hf & (_ & _ & Hm & _) & _).
    + vm_compute. reflexivity.
    + reflexivity.
    + reflexivity.
    + split; [vm_compute; reflexivity|]. split.
      * exists o'. split; [rewrite Hf; apply lookup_insert_eq|].
        rewrite Hm. vm_compute. reflexivity.
      * vm_compute. reflexivity.
Defined.

(** X5.  Pinning (POST .../pin of the server-mediated variant) with a body
    that parses, when the lookup does not reject: a key without an object
    is answered 404 and the state is the state before; an object that is
    there is written back with the same payload and HTTP metadata and
    [pinned] set to the flag of the body, the rest of its custom metadata
    and the key-value store as they were.  Once pinned with true, no sweep
    deletes it, whenever it runs. *)
Theorem pin_sets_the_flag `{Runtime} req key w :
  Mediated_router.body_parses req = true -> r2_head_fails key = false ->
  let r := Mediated_router.handlePin req key w in
  let flag := Mediated_router.pinned req in
  (FILES w !! key = None -> r = (Ok not_found, w)) /\
  (forall o, FILES w !! key = Some o ->
     r2_get_fails key = false -> r2_put_fails key = false ->
     exists o',
       fst r = Ok (pin_set key flag) /\
       FILES (snd r) = <[key := o']> (FILES w) /\
       restamped "pinned" (String_of_bool flag) o o' /\
       is_pinned o' = flag /\
       FILES_KV (snd r) = FILES_KV w /\
       (flag = true ->
        forall w2 s,
          FILES w2 = FILES (snd r) -> sweep_calls_ok ->
          s = Presigned.fetch_scheduled (Some "cron") w2 \/
          s = Mediated.handleCleanup (Some "cron") w2 ->
          FILES (snd s) !! key = Some o')).
Proof.
  intros Hb Hh r flag. split.
  - intros Ho. subst r.
    unfold Mediated_router.handlePin, Mediated_router.read_body, bind, R2_head.
    rewrite Hb. cbn [ret]. rewrite Hh, Ho. reflexivity.
  - intros o Ho Hg Hp.
    assert (Hok : object_calls_ok key) by (repeat split; assumption).
    eexists. subst r. rewrite (mediated_pin_found req key o w Hb Hok Ho). fold flag.
    split; [reflexivity|]. split; [reflexivity|].
    pose proof (restamped_put o (Some (clock w)) "pinned" (String_of_bool flag)) as Hre.
    split; [exact Hre|].
    assert (Hpin : is_pinned
              {| body := body o; httpMetadata := httpMetadata o;
                 customMetadata :=
                   Some (<["pinned" := String_of_bool flag]> (default ∅ (customMetadata o)));
                 uploaded := Some (clock w) |} = flag).
    { unfold is_pinned. destruct Hre as (_ & _ & -> & _).
      destruct flag; reflexivity. }
    split; [exact Hpin|]. split; [reflexivity|].
    intros Hflag w2 s Hw2 Hcalls Hs.
    rewrite (sweep_bucket w2 s key Hcalls Hs), Hw2. cbn [snd FILES set_FILES].
    rewrite lookup_insert_eq.
    unfold sweepable. rewrite Hpin, Hflag. reflexivity.
Qed.

Lemma pin_sets_the_flag_witness :
  let req := pin_request "/api/files/b/B.txt/pin" true in
  let r := @Mediated_router.handlePin (reference_runtime no_faults) req "b/B.txt"
             scenario_world in
  let s := @Mediated.handleCleanup (reference_runtime no_faults) (Some "cron") (snd r) in
  fst r = Ok (pin_set "b/B.txt" true) /\
  is_Some (FILES (snd s) !! "b/B.txt").
Proof.
  intros req r s.
  destruct (@pin_sets_the_flag (reference_runtime no_faults) req "b/B.txt" scenario_world)
    as (_ & Hfound).
  - reflexivity.
  - reflexivity.
  - destruct (Hfound scenario_B) as (o' & Hr & _ & _ & _ & _ & Hkept).
    + vm_compute. reflexivity.
    + reflexivity.
    + reflexivity.
    + split; [exact Hr|]. exists o'. apply (Hkept eq_refl (snd r) s).
      * reflexivity.
      * repeat split; reflexivity.
      * right. reflexivity.
Defined.

(** X6.  An object touched at time [t], in either variant, is kept by every
    sweep that runs up to a week after [t], whatever its stamp was before,
    provided the runtime reads its own ISO rendering of [t] back as [t]. *)
Theorem touched_object_outlives_the_week `{Runtime} key o w r w2 s :
  reads_back (clock w) ->
  object_calls_ok key -> FILES w !! key = Some o ->
  r = Mediated_router.handleTouchAccess key w \/
  r = Presigned_router.fetch_touch (key +:+ "/access") w ->
  FILES w2 = FILES (snd r) -> clock w2 <= clock w + ONE_WEEK_MS ->
  sweep_calls_ok ->
  s = Presigned.fetch_scheduled (Some "cron") w2 \/
  s = Mediated.handleCleanup (Some "cron") w2 ->
  exists o', FILES (snd s) !! key = Some o' /\ body o' = body o.
Proof.
  intros Hrb Hok Ho Hr Hw2 Hle Hcalls Hs.
  rewrite (sweep_bucket w2 s key Hcalls Hs), Hw2.
  assert (Hsnd : snd r = set_FILES (insert key
      {| body := body o; httpMetadata := httpMetadata o;
         customMetadata :=
           Some (<["last_accessed" := Date_toISOString (clock w)]>
                   (default ∅ (customMetadata o)));
         uploaded := Some (clock w) |}) w).
  { destruct Hr as [-> | ->].
    - rewrite (mediated_touch_found key o w Hok Ho). reflexivity.
    - rewrite (presigned_touch_found key o w Hok Ho). reflexivity. }
  rewrite Hsnd. cbn [FILES set_FILES]. rewrite lookup_insert_eq.
  rewrite (fresh_stamp_kept (clock w) (clock w2)).
  - eexists. split; reflexivity.
  - exact Hrb.
  - apply restamped_put.
  - exact Hle.
Qed.

Lemma touched_object_witness :
  let r := @Mediated_router.handleTouchAccess (reference_runtime no_faults) "c/C.txt"
             scenario_world in
  let s := @Presigned.fetch_scheduled (reference_runtime no_faults) (Some "cron")
             (at_time (NOW + 6 * DAY_MS) (snd r)) in
  exists o', FILES (snd s) !! "c/C.txt" = Some o' /\ body o' = body stale_unstamped.
Proof.
  intros r s.
  apply (@touched_object_outlives_the_week (reference_runtime no_faults) "c/C.txt"
           stale_unstamped scenario_world r (at_time (NOW + 6 * DAY_MS) (snd r)) s).
  - vm_compute. reflexivity.
  - repeat split; reflexivity.
  - vm_compute. reflexivity.
  - left. reflexivity.
  - reflexivity.
  - vm_compute. discriminate.
  - repeat split; reflexivity.
  - left. reflexivity.
Defined.

(** ** The sweep, run again *)

Section SweepAgain.
Context `{Runtime}.

Lemma filter_none {A} (f : A -> bool) (l : list A) :
  (forall e, e ∈ l -> f e = false) -> List.filter f l = [].
Proof.
  induction l as [|a l IH]; intros Hall; [reflexivity|].
  cbn [List.filter]. rewrite (Hall a) by apply list_elem_of_here.
  apply IH. intros e He. apply Hall. apply list_elem_of_further. exact He.
Qed.

Lemma swept_again now (m : gmap string R2Object) :
  swept now (listing_of (delete_all (swept now (listing_of m)) m)) = [].
Proof.
  unfold swept at 1. apply filter_none. intros [k o] He.
  apply elem_of_listing_of in He. rewrite swept_bucket in He. cbn [snd].
  destruct (m !! k) as [o0|]; [|discriminate].
  destruct (sweepable (now - ONE_WEEK_MS) o0) eqn:Hsw; [discriminate|].
  congruence.
Qed.

Lemma sweep_run w r :
  sweep_calls_ok ->
  r = Presigned.fetch_scheduled (Some "cron") w \/
  r = Mediated.handleCleanup (Some "cron") w ->
  let doomed := swept (clock w) (listing_of (FILES w)) in
  let w1 := set_FILES (delete_all doomed) w in
  r = (Ok (json (JCleanup (Z.of_nat (length doomed)) (sizes doomed)) 200),
       if sizes doomed =? 0 then w1
       else set_KV (set_used_bytes (Some (counter w - sizes doomed))) w1).
Proof.
  intros (Hl & Hd & Hg & Hp) [-> | ->].
  - apply (presigned_sweep_run w Hl Hd Hg Hp).
  - apply (mediated_sweep_run w Hl Hd Hg Hp).
Qed.

End SweepAgain.

(** X7.  A sweep that follows a sweep at the same time (no call rejecting)
    finds nothing to delete: it reports 0 objects and 0 bytes and leaves
    the state that the first one left, counter included. *)
Theorem second_sweep_deletes_nothing `{Runtime} w r1 r2 :
  sweep_calls_ok ->
  (r1 = Presigned.fetch_scheduled (Some "cron") w \/
   r1 = Mediated.handleCleanup (Some "cron") w) ->
  (r2 = Presigned.fetch_scheduled (Some "cron") (snd r1) \/
   r2 = Mediated.handleCleanup (Some "cron") (snd r1)) ->
  r2 = (Ok (json (JCleanup 0 0) 200), snd r1).
Proof.
  intros Hcalls H1 H2.
  pose proof (sweep_run w r1 Hcalls H1) as E1. cbv zeta in E1.
  pose proof (sweep_run (snd r1) r2 Hcalls H2) as E2. cbv zeta in E2.
  assert (Hc : clock (snd r1) = clock w).
  { rewrite E1. cbn [snd]. destruct (sizes _ =? 0); reflexivity. }
  assert (Hf : FILES (snd r1)
               = delete_all (swept (clock w) (listing_of (FILES w))) (FILES w)).
  { rewrite E1. cbn [snd]. destruct (sizes _ =? 0); reflexivity. }
  rewrite Hc, Hf, swept_again in E2. rewrite E2.
  change (sizes [] =? 0) with true. cbv iota.
  f_equal. apply set_FILES_id.
Qed.

Lemma second_sweep_witness :
  let r1 := @Presigned.fetch_scheduled (reference_runtime no_faults) (Some "cron")
              scenario_world in
  let r2 := @Mediated.handleCleanup (reference_runtime no_faults) (Some "cron") (snd r1) in
  fst r1 = Ok (json (JCleanup 2 23) 200) /\
  r2 = (Ok (json (JCleanup 0 0) 200), snd r1).
Proof.
  intros r1 r2. split; [vm_compute; reflexivity|].
  apply (@second_sweep_deletes_nothing (reference_runtime no_faults) scenario_world r1 r2).
  - repeat split; reflexivity.
  - left. reflexivity.
  - right. reflexivity.
Defined.

(** ** Reading the usage *)

Section Usage.
Context `{Runtime}.

Lemma list_loop_pure_world {A} fuel listing c (f : A -> string * R2Object -> A) acc w w0 :
  list_loop fuel listing c (fun a e => ret (f a e)) acc w
  = (fst (list_loop fuel listing c (fun a e => ret (f a e)) acc w0), w).
Proof.
  revert c acc. induction fuel as [|fuel IH]; intros c acc; [reflexivity|].
  cbn [list_loop]. unfold bind at 1 3. unfold R2_list.
  destruct (r2_list_fails c); [reflexivity|].
  cbv beta iota zeta. cbn [objects truncated cursor].
  unfold bind. rewrite !for_of_pure.
  destruct (bool_decide _); [apply IH | reflexivity].
Qed.

Lemma listing_sum_world w w1 :
  FILES w1 = FILES w ->
  exists out,
    for_each_listed (fun total e => ret (total + size (snd e))) 0 w = (out, w) /\
    for_each_listed (fun total e => ret (total + size (snd e))) 0 w1 = (out, w1).
Proof.
  intros Hf. unfold for_each_listed. rewrite Hf.
  eexists. split; [apply (list_loop_pure_world _ _ _ _ _ w w) | ].
  apply (list_loop_pure_world _ _ _ _ _ w1 w).
Qed.

Lemma set_cell_twice n w :
  set_KV (set_used_bytes (Some n)) (set_KV (set_used_bytes (Some n)) w)
  = set_KV (set_used_bytes (Some n)) w.
Proof. reflexivity. Qed.

Lemma presigned_getUsedBytes_again w used w1 :
  Presigned.getUsedBytes w = (Ok used, w1) -> Presigned.getUsedBytes w1 = (Ok used, w1).
Proof.
  unfold Presigned.getUsedBytes, bind, try_catch, KV_get_used, KV_put_used.
  destruct (kv_get_fails USED_BYTES) eqn:Hg.
  - cbn [ret].
    destruct (listing_sum_world w w) as (out & Hout & _); [reflexivity|]. rewrite Hout.
    destruct out as [total| |].
    + destruct (kv_put_fails USED_BYTES) eqn:Hp; cbn [ret]; intros E; inversion E; subst.
      * rewrite ?Hout, ?Hp. reflexivity.
      * destruct (listing_sum_world w (set_KV (set_used_bytes (Some used)) w))
          as (out' & Hout' & Hout1); [reflexivity|].
        rewrite Hout in Hout'. inversion Hout'; subst out'.
        rewrite ?Hout1, ?Hp. reflexivity.
    + cbn [ret]. intros E; inversion E; subst. rewrite ?Hout. reflexivity.
    + intros E; inversion E.
  - destruct (used_bytes (FILES_KV w)) as [n|] eqn:Hc.
    + cbn [ret]. intros E; inversion E; subst. rewrite ?Hc. reflexivity.
    + destruct (listing_sum_world w w) as (out & Hout & _); [reflexivity|]. rewrite Hout.
      destruct out as [total| |].
      * destruct (kv_put_fails USED_BYTES) eqn:Hp; cbn [ret]; intros E; inversion E; subst.
        -- rewrite ?Hc, ?Hout, ?Hp. reflexivity.
        -- reflexivity.
      * cbn [ret]. intros E; inversion E; subst. rewrite ?Hc, ?Hout. reflexivity.
      * intros E; inversion E.
Qed.

Lemma mediated_getUsedBytes_again w used w1 :
  Mediated.getUsedBytes w = (Ok used, w1) -> Mediated.getUsedBytes w1 = (Ok used, w1).
Proof.
  unfold Mediated.getUsedBytes, bind, KV_get_used, KV_put_used.
  destruct (kv_get_fails USED_BYTES) eqn:Hg; [intros E; inversion E|].
  destruct (used_bytes (FILES_KV w)) as [n|] eqn:Hc.
  - cbn [ret]. intros E; inversion E; subst. rewrite ?Hc. reflexivity.
  - destruct (listing_sum_world w w) as (out & Hout & _); [reflexivity|]. rewrite Hout.
    destruct out as [total| |]; [|intros E; inversion E..].
    destruct (kv_put_fails USED_BYTES) eqn:Hp; cbn [ret]; intros E; inversion E; subst.
    reflexivity.
Qed.

End Usage.

(** ** Two reads under two runtimes *)

Lemma list_loop_same_faults (R1 R2 : Runtime) {A} fuel listing c
    (body : A -> string * R2Object -> M A) acc w :
  (forall c, @r2_list_fails R1 c = @r2_list_fails R2 c) ->
  @list_limit R1 = @list_limit R2 ->
  @list_loop R1 A fuel listing c body acc w = @list_loop R2 A fuel listing c body acc w.
Proof.
  intros Hl Hn. revert c acc w.
  induction fuel as [|fuel IH]; intros c acc w; [reflexivity|].
  cbn [list_loop]. unfold bind, R2_list. rewrite Hl, Hn.
  destruct (@r2_list_fails R2 c); [reflexivity|]. cbn [objects truncated cursor].
  destruct (for_of _ body acc w) as [[acc'| |] w']; [|reflexivity..].
  destruct (bool_decide _); [apply IH|reflexivity].
Qed.

Lemma presigned_getUsedBytes_same_faults (R1 R2 : Runtime) w :
  same_usage_faults R1 R2 ->
  @Presigned.getUsedBytes R1 w = @Presigned.getUsedBytes R2 w.
Proof.
  intros (Hg & Hp & Hl & Hn).
  unfold Presigned.getUsedBytes, bind, try_catch, KV_get_used, KV_put_used, for_each_listed.
  rewrite Hg, Hp.
  assert (E : forall w0 : World,
             @list_loop R1 Z (S (length (listing_of (FILES w0)))) (listing_of (FILES w0)) None
               (fun total e => ret (total + size (snd e))) 0 w0
             = @list_loop R2 Z (S (length (listing_of (FILES w0)))) (listing_of (FILES w0)) None
               (fun total e => ret (total + size (snd e))) 0 w0)
    by (intros w0; apply list_loop_same_faults; assumption).
  destruct (@kv_get_fails R2 USED_BYTES); cbn [ret].
  - rewrite E. reflexivity.
  - destruct (used_bytes (FILES_KV w)); [reflexivity|]. rewrite E. reflexivity.
Qed.

Lemma mediated_getUsedBytes_reread (R1 R2 : Runtime) w used w1 :
  @kv_get_fails R2 USED_BYTES = false ->
  @Mediated.getUsedBytes R1 w = (Ok used, w1) ->
  @Mediated.getUsedBytes R2 w1 = (Ok used, w1).
Proof.
  intros Hg2. unfold Mediated.getUsedBytes, bind, KV_get_used, KV_put_used. rewrite Hg2.
  destruct (@kv_get_fails R1 USED_BYTES); [intros E; inversion E|].
  destruct (used_bytes (FILES_KV w)) as [n|] eqn:Hc.
  - cbn [ret]. intros E; inversion E; subst. rewrite Hc. reflexivity.
  - destruct (@for_each_listed R1 Z _ 0 w) as [[total| |] w'] eqn:Hout;
      [|intros E; inversion E..].
    destruct (@kv_put_fails R1 USED_BYTES); cbn [ret]; intros E; inversion E; subst.
    reflexivity.
Qed.

(** When the rejections change between the reads, the presigned variant
    returns another figure: with the counter cell out of reach the first
    read sums the bucket, with the cell back the second returns what the
    cell says. *)
Example usage_read_after_an_outage :
  let r := @Presigned.getUsedBytes (reference_runtime counter_unreachable) miscounted_world in
  r = (Ok BYTES_LIMIT, miscounted_world) /\
  @Presigned.getUsedBytes (reference_runtime no_faults) (snd r) = (Ok 5, miscounted_world).
Proof. vm_compute. split; reflexivity. Qed.

(** X8.  Reading the usage a second time, right after a read that returned
    [used], returns [used] again and leaves the state as the first read
    left it, the two reads being given a runtime each: in the
    server-mediated variant as soon as the second read of the counter cell
    is not rejected; in the presigned variant when the second read meets
    the rejections that the first met (on the read and on the write of the
    counter cell and on the listing calls, the page size being the same).
    The first read may write the counter cell, the second does not change
    it. *)
Theorem getUsedBytes_twice (R1 R2 : Runtime) w used w1 :
  (same_usage_faults R1 R2 ->
   @Presigned.getUsedBytes R1 w = (Ok used, w1) ->
   @Presigned.getUsedBytes R2 w1 = (Ok used, w1)) /\
  (@kv_get_fails R2 USED_BYTES = false ->
   @Mediated.getUsedBytes R1 w = (Ok used, w1) ->
   @Mediated.getUsedBytes R2 w1 = (Ok used, w1)).
Proof.
  split.
  - intros Hsame Hfirst.
    rewrite <- (presigned_getUsedBytes_same_faults R1 R2 w1 Hsame).
    apply (@presigned_getUsedBytes_again R1 w used w1 Hfirst).
  - apply mediated_getUsedBytes_reread.
Qed.

Lemma getUsedBytes_twice_witness :
  let r := @Presigned.getUsedBytes (reference_runtime no_faults) uncounted_world in
  r = (Ok BYTES_LIMIT, set_KV (set_used_bytes (Some BYTES_LIMIT)) uncounted_world) /\
  @Presigned.getUsedBytes runtime_without_secret (snd r) = (Ok BYTES_LIMIT, snd r) /\
  @Mediated.getUsedBytes runtime_without_secret (snd r) = (Ok BYTES_LIMIT, snd r).
Proof.
  intros r.
  assert (Hr : r = (Ok BYTES_LIMIT,
                    set_KV (set_used_bytes (Some BYTES_LIMIT)) uncounted_world))
    by (vm_compute; reflexivity).
  assert (Hm : @Mediated.getUsedBytes (reference_runtime no_faults) uncounted_world
               = (Ok BYTES_LIMIT, snd r))
    by (vm_compute; reflexivity).
  split; [exact Hr|]. split.
  - apply (proj1 (getUsedBytes_twice (reference_runtime no_faults) runtime_without_secret
                    uncounted_world BYTES_LIMIT (snd r))).
    + repeat split.
    + rewrite Hr. reflexivity.
  - apply (proj2 (getUsedBytes_twice (reference_runtime no_faults) runtime_without_secret
                    uncounted_world BYTES_LIMIT (snd r))).
    + reflexivity.
    + exact Hm.
Defined.

(** X9.  The quota route and the gate agree, the two requests being given a
    runtime each: when GET /api/quota has answered [okToUpload: false], the
    upload request that follows, with a batch that passes the count and
    type checks and declares a total that is not negative, is refused for
    quota with the same usage figure, and changes nothing; in the
    server-mediated variant as soon as the read of the counter cell by the
    upload request is not rejected, in the presigned variant when the
    upload request meets the rejections that the quota request met on the
    counter cell and on the listing calls. *)
Theorem quota_report_agrees_with_gate (R1 R2 : Runtime) :
  (forall w used limit w1 files pin,
      same_usage_faults R1 R2 ->
      @Presigned.fetch_quota R1 w = (Ok (json (JQuota used limit false) 200), w1) ->
      files <> [] -> Z.of_nat (length files) <= MAX_FILES_PER_BATCH ->
      Forall declared_ok files -> 0 <= sum_Z (map Presigned.file_size files) ->
      @Presigned.fetch_upload_urls R2 files pin w1 = (Ok (quota_exceeded used), w1)) /\
  (forall w used limit w1 entries pin,
      @kv_get_fails R2 USED_BYTES = false ->
      @Mediated.handleQuota R1 w = (Ok (json (JQuota used limit false) 200), w1) ->
      entries <> [] -> Z.of_nat (length entries) <= MAX_FILES_PER_BATCH ->
      Forall entry_ok entries -> 0 <= sum_Z (map entry_size entries) ->
      @Mediated.handleUpload R2 entries pin w1 = (Ok (quota_exceeded used), w1)).
Proof.
  split.
  - intros w used limit w1 files pin Hsame Hq Hne Hlen Hok Hsum.
    unfold Presigned.fetch_quota, bind in Hq.
    destruct (@Presigned.getUsedBytes R1 w) as [[u| |] w'] eqn:Hu; [|discriminate..].
    cbn [ret] in Hq. injection Hq as Hused Hlimit Hlt Hw1. subst u w'.
    apply (@presigned_getUsedBytes_again R1) in Hu.
    rewrite (presigned_getUsedBytes_same_faults R1 R2 w1 Hsame) in Hu.
    apply (@presigned_gate R2 files pin w1 used w1 Hne Hlen Hok Hu).
    apply Z.ltb_ge in Hlt. lia.
  - intros w used limit w1 entries pin Hget Hq Hne Hlen Hok Hsum.
    unfold Mediated.handleQuota, bind in Hq.
    destruct (@Mediated.getUsedBytes R1 w) as [[u| |] w'] eqn:Hu; [|discriminate..].
    cbn [ret] in Hq. injection Hq as Hused Hlimit Hlt Hw1. subst u w'.
    apply (mediated_getUsedBytes_reread R1 R2 w used w1 Hget) in Hu.
    apply (@mediated_gate R2 entries pin w1 used w1 Hne Hlen Hok Hu).
    apply Z.ltb_ge in Hlt. lia.
Qed.

Lemma quota_report_witness :
  @Presigned.fetch_quota (reference_runtime no_faults) full_world
  = (Ok (json (JQuota (BYTES_LIMIT + 1) BYTES_LIMIT false) 200), full_world) /\
  @Presigned.fetch_upload_urls runtime_without_secret (one_file 0) true full_world
  = (Ok (quota_exceeded (BYTES_LIMIT + 1)), full_world).
Proof.
  assert (Hq : @Presigned.fetch_quota (reference_runtime no_faults) full_world
               = (Ok (json (JQuota (BYTES_LIMIT + 1) BYTES_LIMIT false) 200), full_world))
    by (vm_compute; reflexivity).
  split; [exact Hq|].
  apply (proj1 (quota_report_agrees_with_gate (reference_runtime no_faults)
                  runtime_without_secret)
           full_world (BYTES_LIMIT + 1) BYTES_LIMIT full_world (one_file 0) true).
  - repeat split.
  - exact Hq.
  - discriminate.
  - vm_compute. discriminate.
  - repeat constructor.
  - vm_compute. discriminate.
Defined.

(** ** The checks before the gate *)

Section Validation.
Context `{Runtime}.

Lemma check_files_first_refused pre f post acc :
  Forall declared_ok pre -> ~ declared_ok f ->
  Presigned.check_files (pre ++ f :: post) acc
  = inl (json (JFail ("Unsupported type for " +:+ Presigned.file_name f)) 415).
Proof.
  intros Hpre Hf. revert acc.
  induction Hpre as [|g pre Hg Hpre IH]; intros acc.
  - cbn [app Presigned.check_files]. unfold declared_ok in Hf.
    destruct (Presigned.isAllowed _ _); [contradiction|reflexivity].
  - cbn [app Presigned.check_files]. unfold declared_ok in Hg. rewrite Hg. apply IH.
Qed.

Lemma check_entries_first_refused pre e post acc :
  Forall entry_ok pre -> ~ entry_ok e ->
  Mediated.check_entries (pre ++ e :: post) acc
  = inl (match e with
         | Mediated.FString _ => text "Malformed form data." 400
         | Mediated.FFile name type _ =>
             text ("Unsupported type: "
                   +:+ (if JsString.truthy type then type else "unknown")
                   +:+ " (" +:+ name +:+ ")") 415
         end).
Proof.
  intros Hpre He. revert acc.
  induction Hpre as [|g pre Hg Hpre IH]; intros acc.
  - cbn [app Mediated.check_entries]. destruct e as [name type body|v]; [|reflexivity].
    cbn [entry_ok] in He. destruct (Mediated.isAllowed type name); [contradiction|reflexivity].
  - cbn [app]. destruct g as [name type body|v]; [|contradiction].
    cbn [Mediated.check_entries]. cbn [entry_ok] in Hg. rewrite Hg. apply IH.
Qed.

Lemma not_empty_app {A} (pre : list A) x post : bool_decide (pre ++ x :: post = []) = false.
Proof. apply bool_decide_eq_false. destruct pre; discriminate. Qed.

End Validation.

(** X10.  POST /api/upload-urls checks in this order and answers at the
    first check that fails, without reading the usage and without any
    change of state: an empty batch is answered 400; a batch of more than
    20 files is answered 413, whatever its types; otherwise the first file
    whose type and name fail the type rule is named in a 415. *)
Theorem upload_urls_validation `{Runtime} files pin w :
  let r := Presigned.fetch_upload_urls files pin w in
  (files = [] -> r = (Ok (json (JFail "No files.") 400), w)) /\
  (MAX_FILES_PER_BATCH < Z.of_nat (length files) ->
   r = (Ok (json (JFail "Max 20 files per upload.") 413), w)) /\
  (forall pre f post,
      files = pre ++ f :: post -> Z.of_nat (length files) <= MAX_FILES_PER_BATCH ->
      Forall declared_ok pre -> ~ declared_ok f ->
      r = (Ok (json (JFail ("Unsupported type for " +:+ Presigned.file_name f)) 415), w)).
Proof.
  intros r. subst r. unfold Presigned.fetch_upload_urls. split; [|split].
  - intros ->. reflexivity.
  - intros Hlen. destruct files; [cbn in Hlen; unfold MAX_FILES_PER_BATCH in Hlen; lia|].
    rewrite bool_decide_eq_false_2 by discriminate.
    rewrite (proj2 (Z.ltb_lt _ _) Hlen). reflexivity.
  - intros pre f post -> Hlen Hpre Hf.
    rewrite not_empty_app. rewrite (proj2 (Z.ltb_ge _ _) Hlen).
    rewrite (check_files_first_refused pre f post 0 Hpre Hf). reflexivity.
Qed.

Lemma upload_urls_validation_witness :
  let photo := {| Presigned.file_name := "photo.png"; Presigned.file_size := 5;
                  Presigned.file_type := Some "image/png" |} in
  @Presigned.fetch_upload_urls (reference_runtime no_faults)
    (one_file 1 ++ photo :: one_file 2) false uncounted_world
  = (Ok (json (JFail "Unsupported type for photo.png") 415), uncounted_world) /\
  @Presigned.fetch_upload_urls (reference_runtime no_faults)
    (replicate 21 photo) false uncounted_world
  = (Ok (json (JFail "Max 20 files per upload.") 413), uncounted_world).
Proof.
  intros photo. split.
  - destruct (@upload_urls_validation (reference_runtime no_faults)
                (one_file 1 ++ photo :: one_file 2) false uncounted_world)
      as (_ & _ & Htype).
    apply (Htype (one_file 1) photo (one_file 2)).
    + reflexivity.
    + vm_compute. discriminate.
    + repeat constructor.
    + unfold declared_ok. vm_compute. discriminate.
  - destruct (@upload_urls_validation (reference_runtime no_faults)
                (replicate 21 photo) false uncounted_world)
      as (_ & Hcount & _).
    apply Hcount. vm_compute. reflexivity.
Defined.

(** X11.  POST /api/upload of the server-mediated variant checks in this
    order and answers at the first check that fails, without reading the
    usage, storing anything or changing the state: an empty form is
    answered 400; more than 20 entries are answered 413, whatever they are;
    otherwise the first entry that is not a file is answered 400, and the
    first file that fails the type rule is named in a 415, with "unknown"
    for an empty type. *)
Theorem upload_validation `{Runtime} entries pin w :
  let r := Mediated.handleUpload entries pin w in
  (entries = [] -> r = (Ok (text "No files." 400), w)) /\
  (MAX_FILES_PER_BATCH < Z.of_nat (length entries) ->
   r = (Ok (text "Max 20 files per upload." 413), w)) /\
  (forall pre e post,
      entries = pre ++ e :: post -> Z.of_nat (length entries) <= MAX_FILES_PER_BATCH ->
      Forall entry_ok pre -> ~ entry_ok e ->
      r = (Ok (match e with
               | Mediated.FString _ => text "Malformed form data." 400
               | Mediated.FFile name type _ =>
                   text ("Unsupported type: "
                         +:+ (if JsString.truthy type then type else "unknown")
                         +:+ " (" +:+ name +:+ ")") 415
               end), w)).
Proof.
  intros r. subst r. unfold Mediated.handleUpload. split; [|split].
  - intros ->. reflexivity.
  - intros Hlen. destruct entries; [cbn in Hlen; unfold MAX_FILES_PER_BATCH in Hlen; lia|].
    rewrite bool_decide_eq_false_2 by discriminate.
    rewrite (proj2 (Z.ltb_lt _ _) Hlen). reflexivity.
  - intros pre e post -> Hlen Hpre He.
    rewrite not_empty_app. rewrite (proj2 (Z.ltb_ge _ _) Hlen).
    rewrite (check_entries_first_refused pre e post 0 Hpre He). reflexivity.
Qed.

Lemma upload_validation_witness :
  let untyped := Mediated.FFile "notes.bin" "" {| content := "payload"; byteLength := 7 |} in
  @Mediated.handleUpload (reference_runtime no_faults)
    (one_entry 1 ++ untyped :: [Mediated.FString "x"]) true uncounted_world
  = (Ok (text "Unsupported type: unknown (notes.bin)" 415), uncounted_world) /\
  @Mediated.handleUpload (reference_runtime no_faults)
    (one_entry 1 ++ Mediated.FString "x" :: [untyped]) true uncounted_world
  = (Ok (text "Malformed form data." 400), uncounted_world).
Proof.
  intros untyped. split.
  - destruct (@upload_validation (reference_runtime no_faults)
                (one_entry 1 ++ untyped :: [Mediated.FString "x"]) true uncounted_world)
      as (_ & _ & Hfirst).
    apply (Hfirst (one_entry 1) untyped [Mediated.FString "x"]).
    + reflexivity.
    + vm_compute. discriminate.
    + repeat constructor.
    + cbn. vm_compute. discriminate.
  - destruct (@upload_validation (reference_runtime no_faults)
                (one_entry 1 ++ Mediated.FString "x" :: [untyped]) true uncounted_world)
      as (_ & _ & Hfirst).
    apply (Hfirst (one_entry 1) (Mediated.FString "x") [untyped]).
    + reflexivity.
    + vm_compute. discriminate.
    + repeat constructor.
    + intros [].
Defined.

(** ** Issuing upload URLs *)

Section Issue.
Context `{Runtime}.

Lemma issued_shift now n0 files :
  imap (issued now n0 ∘ S) files = imap (issued now (S n0)) files.
Proof.
  apply imap_ext. intros i f _. unfold compose, issued.
  replace (n0 + S i)%nat with (S n0 + i)%nat by lia. reflexivity.
Qed.

Lemma presign_loop_issued files acc w :
  for_of files
    (Presigned.presign_file (default "" R2_ACCOUNT_ID) bucket_name
       (default "" R2_ACCESS_KEY_ID) (default "" R2_SECRET_ACCESS_KEY)) acc w
  = (Ok (acc ++ imap (issued (clock w) (rng w)) files),
     set_signed (signed w ++ map upload_key (imap (issued (clock w) (rng w)) files))
       (set_rng (rng w + length files) w)).
Proof.
  revert acc w. induction files as [|f files IH]; intros acc w.
  - cbn [for_of imap map length]. rewrite !app_nil_r, Nat.add_0_r.
    destruct w. reflexivity.
  - cbn [for_of]. unfold bind at 1. unfold Presigned.presign_file at 1.
    unfold bind, crypto_randomUUID, Presigned.presignPutUrl, bind, Date_now, ret.
    cbn [clock set_rng signed rng Presigned.key].
    rewrite IH. cbn [clock rng signed set_signed set_rng].
    rewrite imap_cons, issued_shift.
    cbn [map length]. unfold issued at 3 5. cbn [upload_key].
    rewrite Nat.add_0_r, <- !app_assoc. cbn [app].
    replace (S (rng w) + length files)%nat with (rng w + S (length files))%nat by lia.
    reflexivity.
Qed.

Lemma getUsedBytes_frame w used w1 :
  Presigned.getUsedBytes w = (Ok used, w1) ->
  FILES w1 = FILES w /\ signed w1 = signed w /\ rng w1 = rng w /\ clock w1 = clock w /\
  pending (FILES_KV w1) = pending (FILES_KV w).
Proof.
  intros Hu. destruct (presigned_getUsedBytes_post w used w1 Hu) as (Hf & Hs & Hr & Hp & Hro).
  repeat split; try assumption. destruct Hro as [-> | ->]; reflexivity.
Qed.

Lemma upload_urls_past_the_gate files pin w used w1 :
  files <> [] -> Z.of_nat (length files) <= MAX_FILES_PER_BATCH ->
  Forall declared_ok files ->
  Presigned.getUsedBytes w = (Ok used, w1) ->
  used + sum_Z (map Presigned.file_size files) < BYTES_LIMIT ->
  Presigned.fetch_upload_urls files pin w =
  (if Presigned.unset R2_ACCESS_KEY_ID || Presigned.unset R2_SECRET_ACCESS_KEY
      || Presigned.unset R2_ACCOUNT_ID
   then ret (json (JFail "R2 credentials not configured.") 500)
   else
     uploads <- for_of files
                  (Presigned.presign_file (default "" R2_ACCOUNT_ID) bucket_name
                     (default "" R2_ACCESS_KEY_ID) (default "" R2_SECRET_ACCESS_KEY)) [] ;;
     try_catch (KV_put_pending (snapshot_key uploads) (snapshot_of pin uploads)) (ret tt) ;;;
     ret (json (JUploads uploads pin) 200)) w1.
Proof.
  intros Hne Hlen Hok Hu Hsum. unfold Presigned.fetch_upload_urls.
  rewrite bool_decide_eq_false_2 by exact Hne.
  rewrite (proj2 (Z.ltb_ge _ _) Hlen).
  rewrite (check_files_total files 0 Hok), Z.add_0_l.
  unfold bind at 1. rewrite Hu.
  rewrite (proj2 (Z.leb_gt _ _) Hsum). reflexivity.
Qed.

End Issue.

(** X12.  A batch that passes the checks and the gate, with the
    credentials configured: POST /api/upload-urls answers 200 with one
    upload per file, in the order of the batch, each with the name, size
    and type declared, a key made of a fresh UUID, a slash and the name,
    and the URL presigned for that key at the time of the request.  The
    bucket is not touched and the counter is not adjusted; one UUID is
    drawn and one key signed per file; the snapshot of keys and declared
    sizes is kept under "pending:" and the keys joined by commas, unless
    that write rejects, which the route ignores. *)
Theorem upload_urls_issue `{Runtime} files pin w used w1 :
  files <> [] -> Z.of_nat (length files) <= MAX_FILES_PER_BATCH ->
  Forall declared_ok files ->
  Presigned.getUsedBytes w = (Ok used, w1) ->
  used + sum_Z (map Presigned.file_size files) < BYTES_LIMIT ->
  credentials_configured ->
  let uploads := imap (issued (clock w) (rng w)) files in
  let r := Presigned.fetch_upload_urls files pin w in
  fst r = Ok (json (JUploads uploads pin) 200) /\
  FILES (snd r) = FILES w /\
  used_bytes (FILES_KV (snd r)) = used_bytes (FILES_KV w1) /\
  rng (snd r) = (rng w + length files)%nat /\
  signed (snd r) = signed w ++ map upload_key uploads /\
  pending (FILES_KV (snd r)) =
    (if kv_put_fails (snapshot_key uploads) then pending (FILES_KV w)
     else <[snapshot_key uploads := snapshot_of pin uploads]> (pending (FILES_KV w))).
Proof.
  intros Hne Hlen Hok Hu Hsum (Ha & Hs & Hacc) uploads r.
  destruct (getUsedBytes_frame w used w1 Hu) as (Hf & Hsg & Hr & Hc & Hp).
  assert (E : r =
    (Ok (json (JUploads uploads pin) 200),
     let w2 := set_signed (signed w ++ map upload_key uploads)
                 (set_rng (rng w + length files) w1) in
     if kv_put_fails (snapshot_key uploads) then w2
     else set_KV (add_pending (snapshot_key uploads) (snapshot_of pin uploads)) w2)).
  { subst r.
    rewrite (upload_urls_past_the_gate files pin w used w1 Hne Hlen Hok Hu Hsum).
    rewrite Ha, Hs, Hacc. cbn [orb].
    unfold bind at 1. rewrite presign_loop_issued. rewrite Hc, Hr, Hsg. fold uploads.
    cbn [app]. unfold bind, try_catch, KV_put_pending.
    destruct (kv_put_fails (snapshot_key uploads)); reflexivity. }
  rewrite E. cbv zeta. cbn [fst snd].
  destruct (kv_put_fails (snapshot_key uploads)); cbn; rewrite ?Hf, ?Hp; repeat split.
Qed.

Lemma upload_urls_issue_witness :
  let w := world_of [] (Some 7) NOW in
  let r := @Presigned.fetch_upload_urls (reference_runtime no_faults) (one_file 10) true w in
  map upload_key
    (match fst r with
     | Ok (json (JUploads uploads _) _) => uploads
     | _ => []
     end) = ["00000000-0000-4000-8000-000000000000/notes.txt"] /\
  FILES (snd r) = FILES w /\
  used_bytes (FILES_KV (snd r)) = Some 7 /\
  signed (snd r) = ["00000000-0000-4000-8000-000000000000/notes.txt"].
Proof.
  intros w r.
  destruct (@upload_urls_issue (reference_runtime no_faults) (one_file 10) true w 7 w)
    as (Hr & Hf & Hu & _ & Hs & _).
  - discriminate.
  - vm_compute. discriminate.
  - repeat constructor.
  - reflexivity.
  - vm_compute. reflexivity.
  - repeat split; reflexivity.
  - subst r. rewrite Hr, Hf, Hu, Hs. repeat split.
Defined.

(** X13.  A batch that passes the checks and the gate when one of the
    three credentials is unset or empty: the answer is 500, after the usage
    was read and before any UUID is drawn; nothing is signed and no
    snapshot is kept. *)
Theorem missing_credentials_stop_the_issue `{Runtime} files pin w used w1 :
  files <> [] -> Z.of_nat (length files) <= MAX_FILES_PER_BATCH ->
  Forall declared_ok files ->
  Presigned.getUsedBytes w = (Ok used, w1) ->
  used + sum_Z (map Presigned.file_size files) < BYTES_LIMIT ->
  Presigned.unset R2_ACCESS_KEY_ID = true \/ Presigned.unset R2_SECRET_ACCESS_KEY = true \/
  Presigned.unset R2_ACCOUNT_ID = true ->
  Presigned.fetch_upload_urls files pin w
  = (Ok (json (JFail "R2 credentials not configured.") 500), w1) /\
  rng w1 = rng w /\ signed w1 = signed w /\
  pending (FILES_KV w1) = pending (FILES_KV w).
Proof.
  intros Hne Hlen Hok Hu Hsum Hcred.
  rewrite (upload_urls_past_the_gate files pin w used w1 Hne Hlen Hok Hu Hsum).
  destruct (getUsedBytes_frame w used w1 Hu) as (Hf & Hsg & Hr & Hc & Hp).
  replace (Presigned.unset R2_ACCESS_KEY_ID || Presigned.unset R2_SECRET_ACCESS_KEY
           || Presigned.unset R2_ACCOUNT_ID) with true.
  - repeat split; assumption.
  - destruct Hcred as [-> | [-> | ->]]; rewrite ?orb_true_r; reflexivity.
Qed.

Lemma missing_credentials_witness :
  let w := world_of [] (Some 7) NOW in
  @Presigned.fetch_upload_urls runtime_without_secret (one_file 10) true w
  = (Ok (json (JFail "R2 credentials not configured.") 500), w).
Proof.
  intros w.
  apply (@missing_credentials_stop_the_issue runtime_without_secret (one_file 10) true w 7 w).
  - discriminate.
  - vm_compute. discriminate.
  - repeat constructor.
  - reflexivity.
  - vm_compute. reflexivity.
  - right. left. reflexivity.
Defined.

(** ** Storing a batch *)

Section Store.
Context `{Runtime}.

Lemma stored_bytes_insert w w' k o :
  FILES w' = <[k := o]> (FILES w) -> FILES w !! k = None ->
  stored_bytes w' = stored_bytes w + size o.
Proof.
  intros Hf Hk. unfold stored_bytes. rewrite Hf.
  rewrite (sum_Z_perm _ (size o :: map (fun e => size (snd e)) (map_to_list (FILES w)))).
  - unfold sum_Z. cbn [foldr]. lia.
  - change (size o :: map (fun e => size (snd e)) (map_to_list (FILES w)))
      with (map (fun e : string * R2Object => size (snd e)) ((k, o) :: map_to_list (FILES w))).
    apply (fmap_Permutation (fun e : string * R2Object => size (snd e))).
    apply map_to_list_insert. exact Hk.
Qed.

Lemma stored_bytes_delete w w' k o :
  FILES w' = delete k (FILES w) -> FILES w !! k = Some o ->
  stored_bytes w' = stored_bytes w - size o.
Proof.
  intros Hf Hk.
  assert (Hins : FILES w = <[k := o]> (FILES w')).
  { rewrite Hf, insert_delete_id; [reflexivity | exact Hk]. }
  rewrite (stored_bytes_insert w' w k o Hins); [lia|].
  rewrite Hf. apply lookup_delete_eq.
Qed.

Lemma keys_shift n0 fs :
  imap (stored_key_of n0 ∘ S) fs = imap (stored_key_of (S n0)) fs.
Proof.
  apply imap_ext. intros i f _. unfold compose, stored_key_of.
  replace (n0 + S i)%nat with (S n0 + i)%nat by lia. reflexivity.
Qed.

Lemma files_shift pin n0 fs :
  imap (stored_file pin n0 ∘ S) fs = imap (stored_file pin (S n0)) fs.
Proof.
  apply imap_ext. intros i f _. unfold compose, stored_file, stored_key_of.
  replace (n0 + S i)%nat with (S n0 + i)%nat by lia. reflexivity.
Qed.

Lemma store_entry_run pin acc f w :
  counter_calls_ok -> r2_put_fails (stored_key_of (rng w) 0 f) = false ->
  Mediated.store_entry pin acc (as_entry f) w =
  (Ok (acc ++ [stored_file pin (rng w) 0 f]),
   set_KV (set_used_bytes (Some (counter w + byteLength (form_content f))))
     (set_FILES (insert (stored_key_of (rng w) 0 f) (stored_object pin (clock w) f))
        (set_rng (S (rng w)) w))).
Proof.
  intros [Hg Hp] Hput. unfold stored_key_of in Hput. rewrite Nat.add_0_r in Hput.
  unfold Mediated.store_entry, as_entry, bind, crypto_randomUUID, nowISO, bind, Date_now,
    ret, R2_put, Mediated.bumpUsedBytes, Mediated.KV_atomic_mutate.
  cbn [clock set_rng rng]. rewrite Hput. cbn [FILES_KV set_FILES set_rng].
  rewrite Hg, Hp. cbn [orb].
  unfold stored_file, stored_key_of, stored_object, counter. rewrite Nat.add_0_r.
  reflexivity.
Qed.

Lemma store_loop pin fs : forall acc w,
  counter_calls_ok ->
  (forall k, k ∈ imap (stored_key_of (rng w)) fs -> r2_put_fails k = false) ->
  exists w',
    for_of (map as_entry fs) (Mediated.store_entry pin) acc w
    = (Ok (acc ++ imap (stored_file pin (rng w)) fs), w') /\
    counter w' = counter w + form_bytes fs /\
    clock w' = clock w /\
    rng w' = (rng w + length fs)%nat /\
    (forall k, k ∉ imap (stored_key_of (rng w)) fs -> FILES w' !! k = FILES w !! k) /\
    (NoDup (imap (stored_key_of (rng w)) fs) ->
     (forall i f, fs !! i = Some f ->
        FILES w' !! stored_key_of (rng w) i f = Some (stored_object pin (clock w) f)) /\
     ((forall k, k ∈ imap (stored_key_of (rng w)) fs -> FILES w !! k = None) ->
      stored_bytes w' = stored_bytes w + form_bytes fs)).
Proof.
  induction fs as [|f fs IH]; intros acc w Hc Hput.
  - exists w. cbn [map for_of imap]. rewrite app_nil_r. unfold form_bytes. cbn.
    split; [reflexivity|]. split; [lia|]. split; [reflexivity|]. split; [lia|].
    split; [reflexivity|].
    intros _. split; [intros i f Hi; discriminate | intros _; lia].
  - rewrite imap_cons, keys_shift in Hput.
    assert (Hput0 : r2_put_fails (stored_key_of (rng w) 0 f) = false)
      by (apply Hput; apply list_elem_of_here).
    set (w1 := set_KV (set_used_bytes (Some (counter w + byteLength (form_content f))))
                 (set_FILES (insert (stored_key_of (rng w) 0 f)
                               (stored_object pin (clock w) f))
                    (set_rng (S (rng w)) w))).
    destruct (IH (acc ++ [stored_file pin (rng w) 0 f]) w1 Hc) as
      (w' & Hrun & Hcnt & Hclk & Hrng & Hframe & Hnodup).
    { intros k Hk. apply Hput. apply list_elem_of_further. exact Hk. }
    exists w'. cbn [map for_of]. unfold bind at 1.
    rewrite (store_entry_run pin acc f w Hc Hput0). fold w1. rewrite Hrun.
    rewrite !imap_cons, keys_shift, files_shift.
    change (rng w1) with (S (rng w)) in *. change (clock w1) with (clock w) in *.
    split; [rewrite <- app_assoc; reflexivity|].
    change (counter w1) with (counter w + byteLength (form_content f)) in Hcnt.
    change (form_bytes (f :: fs)) with (byteLength (form_content f) + form_bytes fs).
    split; [lia|].
    split; [exact Hclk|].
    split; [cbn [length]; lia|].
    split.
    { intros k Hk. apply not_elem_of_cons in Hk as [Hk0 Hk].
      rewrite (Hframe k Hk). cbn [w1 FILES set_KV set_FILES set_rng].
      apply lookup_insert_ne. congruence. }
    intros Hnd. apply NoDup_cons in Hnd as [Hfresh Hnd].
    destruct (Hnodup Hnd) as [Hlook Hbytes].
    split.
    + intros [|i] g Hi.
      * cbn in Hi. injection Hi as <-.
        rewrite (Hframe _ Hfresh). cbn [w1 FILES set_KV set_FILES set_rng].
        apply lookup_insert_eq.
      * cbn in Hi. specialize (Hlook i g Hi).
        replace (stored_key_of (rng w) (S i) g) with (stored_key_of (S (rng w)) i g);
          [exact Hlook|].
        unfold stored_key_of. replace (S (rng w) + i)%nat with (rng w + S i)%nat by lia.
        reflexivity.
    + intros Hnone.
      rewrite Hbytes.
      * rewrite (stored_bytes_insert w w1 (stored_key_of (rng w) 0 f)
                   (stored_object pin (clock w) f)).
        -- change (size (stored_object pin (clock w) f))
             with (byteLength (form_content f)). lia.
        -- reflexivity.
        -- apply Hnone. apply list_elem_of_here.
      * intros k Hk. cbn [w1 FILES set_KV set_FILES set_rng].
        rewrite lookup_insert_ne.
        -- apply Hnone. apply list_elem_of_further. exact Hk.
        -- intros <-. contradiction.
Qed.

Lemma mediated_getUsedBytes_counter w used w1 :
  Mediated.getUsedBytes w = (Ok used, w1) ->
  counter w1 = used /\ FILES w1 = FILES w /\ rng w1 = rng w /\ clock w1 = clock w.
Proof.
  unfold Mediated.getUsedBytes, bind, KV_get_used, KV_put_used.
  destruct (kv_get_fails USED_BYTES); [discriminate|].
  destruct (used_bytes (FILES_KV w)) as [n|] eqn:Hc.
  - cbn [ret]. intros E. injection E as <- <-. unfold counter. rewrite Hc. repeat split.
  - destruct (sum_listing_state w) as [out ->].
    destruct out as [total| |]; [|discriminate..].
    destruct (kv_put_fails USED_BYTES); [discriminate|].
    cbn [ret]. intros E. injection E as <- <-. repeat split.
Qed.

Lemma entries_ok fs : Forall form_ok fs -> Forall entry_ok (map as_entry fs).
Proof. intros Hok. apply Forall_map. exact Hok. Qed.

Lemma entries_bytes fs : sum_Z (map entry_size (map as_entry fs)) = form_bytes fs.
Proof. unfold form_bytes. rewrite map_map. reflexivity. Qed.

End Store.

Lemma upload_run `{Runtime} fs pin w used w1 :
  fs <> [] -> Z.of_nat (length fs) <= MAX_FILES_PER_BATCH ->
  Forall form_ok fs ->
  Mediated.getUsedBytes w = (Ok used, w1) ->
  used + form_bytes fs < BYTES_LIMIT ->
  counter_calls_ok ->
  let keys := imap (stored_key_of (rng w)) fs in
  (forall k, k ∈ keys -> r2_put_fails k = false) ->
  let r := Mediated.handleUpload (map as_entry fs) pin w in
  fst r = Ok (json (JFiles (imap (stored_file pin (rng w)) fs)) 200) /\
  counter (snd r) = used + form_bytes fs /\
  (forall k, k ∉ keys -> FILES (snd r) !! k = FILES w !! k) /\
  (NoDup keys ->
   (forall i f, fs !! i = Some f ->
      FILES (snd r) !! stored_key_of (rng w) i f = Some (stored_object pin (clock w) f)) /\
   ((forall k, k ∈ keys -> FILES w !! k = None) ->
    stored_bytes (snd r) = stored_bytes w + form_bytes fs)).
Proof.
  intros Hne Hlen Hok Hu Hsum Hc keys Hput r.
  destruct (mediated_getUsedBytes_counter w used w1 Hu) as (Hcnt1 & Hf1 & Hr1 & Hc1).
  destruct (store_loop pin fs [] w1 Hc) as (w' & Hrun & Hcnt & Hclk & _ & Hframe & Hnodup).
  { rewrite Hr1. exact Hput. }
  rewrite Hr1, Hc1 in *. fold keys in Hframe, Hnodup.
  assert (E : r = (Ok (json (JFiles (imap (stored_file pin (rng w)) fs)) 200), w')).
  { subst r. unfold Mediated.handleUpload.
    rewrite bool_decide_eq_false_2 by (destruct fs; [contradiction | discriminate]).
    rewrite length_map, (proj2 (Z.ltb_ge _ _) Hlen).
    rewrite (check_entries_total _ 0 (entries_ok fs Hok)), Z.add_0_l, entries_bytes.
    unfold bind at 1. rewrite Hu. rewrite (proj2 (Z.leb_gt _ _) Hsum).
    unfold bind. rewrite Hrun. reflexivity. }
  rewrite E. cbn [fst snd].
  split; [reflexivity|]. split; [lia|].
  split; [intros k Hk; rewrite (Hframe k Hk), Hf1; reflexivity|].
  intros Hnd. destruct (Hnodup Hnd) as [Hlook Hbytes]. split; [exact Hlook|].
  intros Hnone. rewrite Hbytes.
  - unfold stored_bytes. rewrite Hf1. reflexivity.
  - intros k Hk. rewrite Hf1. apply Hnone. exact Hk.
Qed.

(** X14.  A batch of files that passes the checks and the gate of POST
    /api/upload, no call rejecting: the answer is 200 and lists one stored
    file per file of the form, in order, with its key (a fresh UUID, a
    slash and the name, or "file" for an empty name), name, size, type and
    the pin flag; the counter ends at the usage that was read plus the
    bytes of the batch; objects under other keys stay as they were.  When
    the keys drawn are distinct, each file is stored under its key with its
    content, its content type and disposition, [pinned] and
    [last_accessed] stamped; when they are also new to the bucket, the
    bytes stored grow by the bytes of the batch, as the counter does. *)
Theorem upload_stores_the_batch `{Runtime} fs pin w used w1 :
  fs <> [] -> Z.of_nat (length fs) <= MAX_FILES_PER_BATCH ->
  Forall form_ok fs ->
  Mediated.getUsedBytes w = (Ok used, w1) ->
  used + form_bytes fs < BYTES_LIMIT ->
  counter_calls_ok ->
  let keys := imap (stored_key_of (rng w)) fs in
  (forall k, k ∈ keys -> r2_put_fails k = false) ->
  let r := Mediated.handleUpload (map as_entry fs) pin w in
  fst r = Ok (json (JFiles (imap (stored_file pin (rng w)) fs)) 200) /\
  counter (snd r) = used + form_bytes fs /\
  (forall k, k ∉ keys -> FILES (snd r) !! k = FILES w !! k) /\
  (NoDup keys ->
   (forall i f, fs !! i = Some f ->
      FILES (snd r) !! stored_key_of (rng w) i f = Some (stored_object pin (clock w) f)) /\
   ((forall k, k ∈ keys -> FILES w !! k = None) ->
    stored_bytes (snd r) = stored_bytes w + form_bytes fs)).
Proof.
  intros Hne Hlen Hok Hu Hsum Hc keys Hput r.
  exact (upload_run fs pin w used w1 Hne Hlen Hok Hu Hsum Hc Hput).
Qed.

Lemma upload_stores_witness :
  let w := world_of [] (Some 7) NOW in
  let fs := [text_file "a.txt" 10; text_file "" 5] in
  let r := @Mediated.handleUpload (reference_runtime no_faults) (map as_entry fs) true w in
  counter (snd r) = 22 /\ stored_bytes (snd r) = 15 /\
  FILES (snd r) !! "00000000-0000-4000-8000-000000000001/file"
  = Some (@stored_object (reference_runtime no_faults) true NOW (text_file "" 5)).
Proof.
  intros w fs r.
  destruct (@upload_stores_the_batch (reference_runtime no_faults) fs true w 7 w)
    as (_ & Hcnt & _ & Hnd).
  - discriminate.
  - vm_compute. discriminate.
  - repeat constructor.
  - reflexivity.
  - vm_compute. reflexivity.
  - split; reflexivity.
  - intros k _. reflexivity.
  - destruct Hnd as [Hlook Hbytes].
    { apply (bool_decide_unpack _). vm_compute. reflexivity. }
    subst r. split; [rewrite Hcnt; reflexivity|]. split.
    + rewrite Hbytes; [reflexivity|]. intros k _. reflexivity.
    + apply (Hlook 1%nat (text_file "" 5)). reflexivity.
Defined.

(** ** Counter and bucket *)

Section Drift.
Context `{Runtime}.

Lemma stored_bytes_delete_all l : forall w,
  NoDup (map fst l) -> (forall k o, (k, o) ∈ l -> FILES w !! k = Some o) ->
  stored_bytes (set_FILES (delete_all l) w) = stored_bytes w - sizes l.
Proof.
  induction l as [|[k o] l IH]; intros w Hnd Hin.
  - unfold sizes. cbn. rewrite set_FILES_id. lia.
  - cbn [map fst] in Hnd. apply NoDup_cons in Hnd as [Hfresh Hnd].
    change (set_FILES (delete_all ((k, o) :: l)) w)
      with (set_FILES (delete_all l) (set_FILES (delete k) w)).
    rewrite IH.
    + rewrite (stored_bytes_delete w (set_FILES (delete k) w) k o).
      * unfold sizes, sum_Z. cbn [map foldr snd]. lia.
      * reflexivity.
      * apply Hin. apply list_elem_of_here.
    + exact Hnd.
    + intros k' o' Hk'. cbn [FILES set_FILES]. rewrite lookup_delete_ne.
      * apply Hin. apply list_elem_of_further. exact Hk'.
      * intros <-. apply Hfresh.
        apply list_elem_of_fmap. exists (k, o'). split; [reflexivity | exact Hk'].
Qed.

Lemma NoDup_fst_filter (f : string * R2Object -> bool) l :
  NoDup (map fst l) -> NoDup (map fst (List.filter f l)).
Proof.
  induction l as [|e l IH]; intros Hnd; [exact Hnd|].
  cbn [map] in Hnd. apply NoDup_cons in Hnd as [Hfresh Hnd].
  cbn [List.filter]. destruct (f e); [|apply IH; exact Hnd].
  cbn [map]. apply NoDup_cons. split; [|apply IH; exact Hnd].
  intros Hin. apply Hfresh.
  apply list_elem_of_fmap in Hin as (e' & He' & Hin).
  apply list_elem_of_fmap. exists e'. split; [exact He'|].
  apply list_elem_of_In. apply list_elem_of_In in Hin.
  apply List.filter_In in Hin. apply Hin.
Qed.

Lemma swept_bytes w :
  let doomed := swept (clock w) (listing_of (FILES w)) in
  stored_bytes (set_FILES (delete_all doomed) w) = stored_bytes w - sizes doomed.
Proof.
  intros doomed. apply stored_bytes_delete_all.
  - apply NoDup_fst_filter. apply NoDup_fst_listing_of.
  - intros k o Hin. apply swept_subset in Hin. apply elem_of_listing_of. exact Hin.
Qed.

End Drift.

(** X15.  Delete and the sweep lower the counter by exactly the bytes they
    remove from the bucket: the difference between the counter and the
    bytes stored is the same after as before, in both variants, when no
    call rejects.  A counter that equals the bytes stored still equals
    them afterwards. *)
Theorem removals_keep_the_counter_in_step `{Runtime} :
  (forall key w r,
      r2_head_fails key = false -> r2_delete_fails key = false -> counter_calls_ok ->
      r = Presigned.fetch_delete key w \/ r = Mediated.handleDelete key w ->
      counter (snd r) - stored_bytes (snd r) = counter w - stored_bytes w) /\
  (forall w r,
      sweep_calls_ok ->
      r = Presigned.fetch_scheduled (Some "cron") w \/
      r = Mediated.handleCleanup (Some "cron") w ->
      counter (snd r) - stored_bytes (snd r) = counter w - stored_bytes w).
Proof.
  split.
  - intros key w r Hh Hd Hc Hr.
    destruct (FILES w !! key) as [o|] eqn:Ho.
    + assert (E : r = (Ok (json JOk 200),
                       set_KV (set_used_bytes (Some (counter w - size o)))
                         (set_FILES (delete key) w))).
      { destruct Hr as [-> | ->].
        - apply (presigned_delete_found key o w Hh Hd Hc Ho).
        - apply (mediated_delete_found key o w Hh Hd Hc Ho). }
      rewrite E. cbn [snd].
      rewrite (stored_bytes_delete w _ key o); [|reflexivity | exact Ho].
      unfold counter at 1. cbn. lia.
    + rewrite (delete_absent key w r Hh Ho Hr). reflexivity.
  - intros w r Hcalls Hr.
    pose proof (sweep_run w r Hcalls Hr) as E. cbv zeta in E. rewrite E. cbn [snd].
    pose proof (swept_bytes w) as Hb. cbv zeta in Hb.
    destruct (sizes (swept (clock w) (listing_of (FILES w))) =? 0) eqn:Hz.
    + rewrite Hb. apply Z.eqb_eq in Hz. rewrite Hz.
      change (counter (set_FILES _ w)) with (counter w). lia.
    + change (stored_bytes (set_KV _ ?x)) with (stored_bytes x).
      rewrite Hb. unfold counter at 1. cbn. lia.
Qed.

Lemma removals_witness :
  let r := @Presigned.fetch_scheduled (reference_runtime no_faults) (Some "cron")
             scenario_world in
  counter scenario_world = stored_bytes scenario_world /\
  counter (snd r) = 4100 /\ stored_bytes (snd r) = 4100.
Proof.
  intros r.
  pose proof (proj2 (@removals_keep_the_counter_in_step (reference_runtime no_faults))
                scenario_world r) as Hstep.
  assert (H0 : counter scenario_world = stored_bytes scenario_world)
    by (vm_compute; reflexivity).
  assert (Hc : counter (snd r) = 4100) by (vm_compute; reflexivity).
  split; [exact H0|]. split; [exact Hc|].
  assert (Hd : counter (snd r) - stored_bytes (snd r)
               = counter scenario_world - stored_bytes scenario_world).
  { apply Hstep; [repeat split; reflexivity | left; reflexivity]. }
  lia.
Defined.

(** ** Hexadecimal and dates of the presigner *)

Section Hex.

Lemma hex2_table :
  forallb (fun x => forallb (fun y =>
     implb (String.eqb (Encoding.hex2 false x) (Encoding.hex2 false y)) (Nat.eqb x y))
     (seq 0 256)) (seq 0 256) = true.
Proof. vm_compute. reflexivity. Qed.

Lemma hex2_inj x y :
  (x < 256)%nat -> (y < 256)%nat ->
  Encoding.hex2 false x = Encoding.hex2 false y -> x = y.
Proof.
  intros Hx Hy He. pose proof hex2_table as Ht.
  rewrite List.forallb_forall in Ht.
  assert (Hin : forall n, (n < 256)%nat -> List.In n (seq 0 256))
    by (intros n Hn; apply List.in_seq; lia).
  specialize (Ht x (Hin x Hx)). rewrite List.forallb_forall in Ht.
  specialize (Ht y (Hin y Hy)). rewrite He, String.eqb_refl in Ht.
  apply Nat.eqb_eq. exact Ht.
Qed.

Lemma byte_code_inj (b b' : byte) :
  nat_of_ascii (ascii_of_byte b) = nat_of_ascii (ascii_of_byte b') -> b = b'.
Proof.
  intros He.
  apply (f_equal ascii_of_nat) in He. rewrite !ascii_nat_embedding in He.
  apply (f_equal byte_of_ascii) in He. rewrite !byte_of_ascii_of_byte in He. exact He.
Qed.

Lemma u8ToHex_cons b r :
  Encoding.u8ToHex (b :: r) =
  String (Encoding.hex_digit false (nat_of_ascii (ascii_of_byte b) / 16))
    (String (Encoding.hex_digit false (nat_of_ascii (ascii_of_byte b) mod 16))
       (Encoding.u8ToHex r)).
Proof. reflexivity. Qed.

End Hex.

(** X16.  [u8ToHex] writes every byte as two lower-case hexadecimal digits:
    its output is twice as long as its input, and two byte strings with the
    same output are the same. *)
Theorem u8ToHex_is_injective (u8 u8' : list byte) :
  String.length (Encoding.u8ToHex u8) = (2 * length u8)%nat /\
  is_hex (Encoding.u8ToHex u8) = true /\
  (Encoding.u8ToHex u8 = Encoding.u8ToHex u8' -> u8 = u8').
Proof.
  split; [|split].
  - induction u8 as [|b r IH]; [reflexivity|].
    rewrite u8ToHex_cons. cbn [String.length length]. rewrite IH. lia.
  - apply u8ToHex_is_hex.
  - revert u8'. induction u8 as [|b r IH]; intros [|b' r'] He.
    + reflexivity.
    + rewrite u8ToHex_cons in He. discriminate.
    + rewrite u8ToHex_cons in He. discriminate.
    + rewrite !u8ToHex_cons in He. injection He as H1 H2 Hr.
      f_equal; [|apply IH; exact Hr].
      apply byte_code_inj. apply hex2_inj.
      * apply nat_ascii_bounded.
      * apply nat_ascii_bounded.
      * unfold Encoding.hex2. f_equal; [exact H1|]. f_equal. exact H2.
Qed.

Section AmzDate.
Context `{Runtime}.

Lemma digit_not_punctuation a :
  Encoding.is_digit a = true ->
  Ascii.eqb a ":" = false /\ Ascii.eqb a "-" = false /\ Ascii.eqb a "." = false.
Proof.
  destruct a as [[] [] [] [] [] [] [] []]; intros Hd; try discriminate Hd;
    repeat split.
Qed.

Lemma strip_digit a r :
  Encoding.is_digit a = true ->
  Encoding.strip_punctuation (String a r) = String a (Encoding.strip_punctuation r).
Proof.
  intros Hd. destruct (digit_not_punctuation a Hd) as (Hc & Hm & Hp).
  cbn [Encoding.strip_punctuation]. rewrite Hc, Hm, Hp. cbn [orb andb].
  destruct r as [|d1 [|d2 [|d3 r]]]; reflexivity.
Qed.

Lemma strip_T r :
  Encoding.strip_punctuation (String "T" r) = String "T" (Encoding.strip_punctuation r).
Proof. destruct r as [|d1 [|d2 [|d3 r]]]; reflexivity. Qed.

Lemma strip_fraction a b c r :
  Encoding.is_digit a = true -> Encoding.is_digit b = true -> Encoding.is_digit c = true ->
  Encoding.strip_punctuation (String "." (String a (String b (String c r))))
  = Encoding.strip_punctuation r.
Proof.
  intros Ha Hb Hc. cbn [Encoding.strip_punctuation].
  change (Ascii.eqb "." ":" || Ascii.eqb "." "-") with false.
  change (Ascii.eqb "." ".") with true. cbv iota. rewrite Ha, Hb, Hc. reflexivity.
Qed.

Lemma digits_2 s :
  digits 2 s ->
  exists a b, s = String a (String b EmptyString) /\
              Encoding.is_digit a = true /\ Encoding.is_digit b = true.
Proof.
  intros [Hl Hd]. destruct s as [|a [|b [|c s]]]; try discriminate Hl.
  cbn [all_digits] in Hd. apply andb_true_iff in Hd as [Ha Hd].
  apply andb_true_iff in Hd as [Hb _]. eauto.
Qed.

Lemma digits_3 s :
  digits 3 s ->
  exists a b c, s = String a (String b (String c EmptyString)) /\
                Encoding.is_digit a = true /\ Encoding.is_digit b = true /\
                Encoding.is_digit c = true.
Proof.
  intros [Hl Hd]. destruct s as [|a [|b [|c [|d s]]]]; try discriminate Hl.
  cbn [all_digits] in Hd. apply andb_true_iff in Hd as [Ha Hd].
  apply andb_true_iff in Hd as [Hb Hd]. apply andb_true_iff in Hd as [Hc _].
  exists a, b, c. auto.
Qed.

Lemma digits_4 s :
  digits 4 s ->
  exists a b c d, s = String a (String b (String c (String d EmptyString))) /\
                  Encoding.is_digit a = true /\ Encoding.is_digit b = true /\
                  Encoding.is_digit c = true /\ Encoding.is_digit d = true.
Proof.
  intros [Hl Hd]. destruct s as [|a [|b [|c [|d [|e s]]]]]; try discriminate Hl.
  cbn [all_digits] in Hd. apply andb_true_iff in Hd as [Ha Hd].
  apply andb_true_iff in Hd as [Hb Hd]. apply andb_true_iff in Hd as [Hc Hd].
  apply andb_true_iff in Hd as [Hd' _].
  exists a, b, c, d. auto.
Qed.

End AmzDate.

(** X17.  When [toISOString] renders the clock as
    YYYY-MM-DDTHH:mm:ss.sssZ with a year of four digits, the date that the
    presigner signs is YYYYMMDDTHHmmssZ, the same instant without
    punctuation and milliseconds, and the date of the credential scope is
    YYYYMMDD. *)
Theorem amzDate_of_iso `{Runtime} now y mo d h mi s ms :
  digits 4 y -> digits 2 mo -> digits 2 d -> digits 2 h -> digits 2 mi -> digits 2 s ->
  digits 3 ms ->
  Date_toISOString now
  = y +:+ "-" +:+ mo +:+ "-" +:+ d +:+ "T" +:+ h +:+ ":" +:+ mi +:+ ":" +:+ s
    +:+ "." +:+ ms +:+ "Z" ->
  Presigned.amzDate now = y +:+ mo +:+ d +:+ "T" +:+ h +:+ mi +:+ s +:+ "Z" /\
  Presigned.datestamp now = y +:+ mo +:+ d.
Proof.
  intros Hy Hmo Hd Hh Hmi Hs Hms Hiso.
  destruct (digits_4 y Hy) as (y1 & y2 & y3 & y4 & -> & Hy1 & Hy2 & Hy3 & Hy4).
  destruct (digits_2 mo Hmo) as (o1 & o2 & -> & Ho1 & Ho2).
  destruct (digits_2 d Hd) as (d1 & d2 & -> & Hd1 & Hd2).
  destruct (digits_2 h Hh) as (h1 & h2 & -> & Hh1 & Hh2).
  destruct (digits_2 mi Hmi) as (i1 & i2 & -> & Hi1 & Hi2).
  destruct (digits_2 s Hs) as (s1 & s2 & -> & Hs1 & Hs2).
  destruct (digits_3 ms Hms) as (f1 & f2 & f3 & -> & Hf1 & Hf2 & Hf3).
  assert (Ha : Presigned.amzDate now
               = String y1 (String y2 (String y3 (String y4 (String o1 (String o2
                 (String d1 (String d2 (String "T" (String h1 (String h2 (String i1
                 (String i2 (String s1 (String s2 "Z"))))))))))))))).
  { unfold Presigned.amzDate. rewrite Hiso.
    repeat (progress (change (String ?a ?x +:+ ?z) with (String a (x +:+ z));
                      change (EmptyString +:+ ?z) with z)).
    rewrite !strip_digit by assumption.
    change (Encoding.strip_punctuation (String "-" ?r)) with (Encoding.strip_punctuation r).
    rewrite !strip_digit by assumption.
    change (Encoding.strip_punctuation (String "-" ?r)) with (Encoding.strip_punctuation r).
    rewrite !strip_digit by assumption.
    rewrite strip_T, !strip_digit by assumption.
    change (Encoding.strip_punctuation (String ":" ?r)) with (Encoding.strip_punctuation r).
    rewrite !strip_digit by assumption.
    change (Encoding.strip_punctuation (String ":" ?r)) with (Encoding.strip_punctuation r).
    rewrite !strip_digit by assumption.
    rewrite strip_fraction by assumption.
    reflexivity. }
  split.
  - rewrite Ha. reflexivity.
  - unfold Presigned.datestamp. rewrite Ha. reflexivity.
Qed.

Lemma amzDate_witness :
  @Presigned.amzDate (reference_runtime no_faults) NOW = "20261102T134500Z" /\
  @Presigned.datestamp (reference_runtime no_faults) NOW = "20261102".
Proof.
  apply (@amzDate_of_iso (reference_runtime no_faults) NOW
           "2026" "11" "02" "13" "45" "00" "000");
    first [split; reflexivity | vm_compute; reflexivity].
Defined.

(** X18.  The messages sent to the model always hold a system message:
    [handleChatRequest] puts the system prompt in front of a list that has
    none and sends a list that has one as it is; the messages of the
    request follow in their order. *)
Theorem chat_has_a_system_message (messages : list Chat.ChatMessage) (w : World) :
  let sent := Chat.with_system_prompt messages in
  handleChatRequest messages w = (Ok (AI_run Chat.MODEL_ID sent 1024), w) /\
  existsb Chat.is_system sent = true /\
  (existsb Chat.is_system messages = true -> sent = messages) /\
  (existsb Chat.is_system messages = false ->
   sent = {| Chat.role := Chat.system; Chat.content := Chat.SYSTEM_PROMPT |} :: messages) /\
  Chat.with_system_prompt sent = sent.
Proof.
  intros sent. subst sent. unfold handleChatRequest, ret, Chat.with_system_prompt.
  destruct (existsb Chat.is_system messages) eqn:He; cbn [negb].
  - rewrite He. cbn [negb]. repeat split; first [exact He | discriminate].
  - cbn [existsb Chat.is_system Chat.role orb negb]. repeat split; discriminate.
Qed.

Section Inclusion.


End Inclusion.



(** ** What confirm writes *)

Section Stamps.
Context `{Runtime}.

Lemma stamped_by_confirmed pin now h : stamped_by pin now h (confirmed_object pin now h).
Proof.
  unfold stamped_by, confirmed_object, meta. cbn [body httpMetadata customMetadata].
  split; [reflexivity|]. split; [reflexivity|]. split.
  - rewrite lookup_insert_ne by discriminate. apply lookup_insert_eq.
  - split; [apply lookup_insert_eq|].
    intros g Hp Hl. rewrite !lookup_insert_ne by congruence.
    destruct (customMetadata h); [reflexivity | apply lookup_empty].
Qed.

Lemma stamped_by_trans pin now o o' o'' :
  stamped_by pin now o o' -> stamped_by pin now o' o'' -> stamped_by pin now o o''.
Proof.
  intros (Hb & Hh & _ & _ & Hrest) (Hb' & Hh' & Hp' & Hl' & Hrest').
  split; [congruence|]. split; [congruence|]. split; [exact Hp'|]. split; [exact Hl'|].
  intros g Hgp Hgl. rewrite (Hrest' g Hgp Hgl). apply Hrest; assumption.
Qed.

Lemma confirm_loop_stamps pin keys : forall acc w,
  (forall k, k ∈ keys -> object_calls_ok k) ->
  exists acc' w',
    for_of keys (Presigned.confirm_key pin) acc w = (Ok acc', w') /\
    clock w' = clock w /\ FILES_KV w' = FILES_KV w /\
    (forall k, FILES w !! k = None -> FILES w' !! k = None) /\
    (forall k o, FILES w !! k = Some o ->
       exists o', FILES w' !! k = Some o' /\
                  (k ∈ keys -> stamped_by pin (clock w) o o') /\
                  (k ∉ keys -> o' = o)).
Proof.
  induction keys as [|k0 keys IH]; intros [updated total] w Hok.
  - exists (updated, total), w. cbn [for_of]. split; [reflexivity|].
    split; [reflexivity|]. split; [reflexivity|]. split; [auto|].
    intros k o Ho. exists o. split; [exact Ho|]. split; [|reflexivity].
    intros Hin. inversion Hin.
  - assert (Hok0 : object_calls_ok k0) by (apply Hok; apply list_elem_of_here).
    assert (Hok' : forall k, k ∈ keys -> object_calls_ok k)
      by (intros k Hk; apply Hok; apply list_elem_of_further; exact Hk).
    cbn [for_of]. unfold bind at 1.
    destruct (FILES w !! k0) as [h|] eqn:Hk0.
    + rewrite (confirm_key_found pin updated total k0 h w Hok0 Hk0).
      set (w1 := set_FILES (insert k0 (confirmed_object pin (clock w) h)) w).
      destruct (IH (updated + 1, total + size h) w1 Hok')
        as (acc' & w' & Hrun & Hclk & Hkv & Hnone & Hsome).
      exists acc', w'. split; [exact Hrun|]. split; [exact Hclk|]. split; [exact Hkv|].
      change (clock w1) with (clock w) in Hsome.
      split.
      * intros k Hk. apply Hnone. cbn [w1 FILES set_FILES].
        rewrite lookup_insert_ne; [exact Hk | congruence].
      * intros k o Ho. destruct (decide (k = k0)) as [-> | Hne].
        -- assert (o = h) by congruence. subst o.
           destruct (Hsome k0 (confirmed_object pin (clock w) h)) as (o' & Ho' & Hin & Hout).
           { cbn [w1 FILES set_FILES]. apply lookup_insert_eq. }
           exists o'. split; [exact Ho'|]. split; [|intros Hnot; exfalso; apply Hnot;
                                                     apply list_elem_of_here].
           intros _. destruct (decide (k0 ∈ keys)) as [Hmem | Hmem].
           ++ apply (stamped_by_trans pin (clock w) h (confirmed_object pin (clock w) h) o');
                [apply stamped_by_confirmed | apply Hin; exact Hmem].
           ++ rewrite (Hout Hmem). apply stamped_by_confirmed.
        -- destruct (Hsome k o) as (o' & Ho' & Hin & Hout).
           { cbn [w1 FILES set_FILES]. rewrite lookup_insert_ne; [exact Ho | congruence]. }
           exists o'. split; [exact Ho'|]. split.
           ++ intros Hmem. apply elem_of_cons in Hmem as [Heq | Hmem]; [contradiction|].
              apply Hin. exact Hmem.
           ++ intros Hnot. apply Hout. intros Hmem. apply Hnot.
              apply list_elem_of_further. exact Hmem.
    + destruct Hok0 as (Hh & _ & _).
      rewrite (confirm_key_absent pin updated total k0 w Hh Hk0).
      destruct (IH (updated, total) w Hok')
        as (acc' & w' & Hrun & Hclk & Hkv & Hnone & Hsome).
      exists acc', w'. split; [exact Hrun|]. split; [exact Hclk|]. split; [exact Hkv|].
      split; [exact Hnone|].
      intros k o Ho. destruct (Hsome k o Ho) as (o' & Ho' & Hin & Hout).
      exists o'. split; [exact Ho'|]. split.
      * intros Hmem. apply elem_of_cons in Hmem as [-> | Hmem]; [congruence|].
        apply Hin. exact Hmem.
      * intros Hnot. apply Hout. intros Hmem. apply Hnot.
        apply list_elem_of_further. exact Hmem.
Qed.

Lemma confirm_bucket keys pin w acc' w' :
  keys <> [] -> counter_calls_ok ->
  for_of keys (Presigned.confirm_key pin) (0, 0) w = (Ok acc', w') ->
  FILES (snd (Presigned.fetch_confirm keys pin w)) = FILES w'.
Proof.
  intros Hne [Hg Hp] Hrun. unfold Presigned.fetch_confirm.
  rewrite bool_decide_eq_false_2 by exact Hne.
  unfold bind at 1. rewrite Hrun. destruct acc' as [updated total].
  unfold bind. destruct (negb (total =? 0)); [|reflexivity].
  unfold Presigned.bumpUsedBytes, bind, KV_get_used, KV_put_used. rewrite Hg, Hp.
  reflexivity.
Qed.

End Stamps.

(** X21.  POST /api/confirm, no call rejecting: every object found under a
    key of the list is written back with the same payload and HTTP
    metadata, [pinned] set to the flag of the request and [last_accessed]
    to the ISO rendering of the clock, the rest of its custom metadata as
    it was; objects under other keys are untouched and no object appears.
    Confirmed with the pin flag, an object is never swept; confirmed
    without, it is kept by every sweep up to a week later, when the
    runtime reads the stamp back.  An empty list of keys is answered 400
    and changes nothing. *)
Theorem confirm_stamps_what_it_finds `{Runtime} keys pin w :
  keys <> [] -> (forall k, k ∈ keys -> object_calls_ok k) -> counter_calls_ok ->
  let r := Presigned.fetch_confirm keys pin w in
  (forall k, FILES w !! k = None -> FILES (snd r) !! k = None) /\
  (forall k o, FILES w !! k = Some o ->
     exists o', FILES (snd r) !! k = Some o' /\
       (k ∉ keys -> o' = o) /\
       (k ∈ keys ->
        stamped_by pin (clock w) o o' /\
        (pin = true -> forall cutoff, sweepable cutoff o' = false) /\
        (reads_back (clock w) -> forall now, now <= clock w + ONE_WEEK_MS ->
         sweepable (now - ONE_WEEK_MS) o' = false))) /\
  Presigned.fetch_confirm [] pin w = (Ok (json (JFail "No keys.") 400), w).
Proof.
  intros Hne Hok Hc r.
  destruct (confirm_loop_stamps pin keys (0, 0) w Hok)
    as (acc' & w' & Hrun & Hclk & Hkv & Hnone & Hsome).
  assert (Hf : FILES (snd r) = FILES w') by (apply (confirm_bucket keys pin w acc' w' Hne Hc Hrun)).
  rewrite Hf. split; [exact Hnone|]. split; [|reflexivity].
  intros k o Ho. destruct (Hsome k o Ho) as (o' & Ho' & Hin & Hout).
  exists o'. split; [exact Ho'|]. split; [exact Hout|].
  intros Hmem. specialize (Hin Hmem). split; [exact Hin|].
  destruct Hin as (_ & _ & Hp & Hl & _). split.
  - intros -> cutoff. apply pinned_not_sweepable. exact Hp.
  - intros Hrb now Hle. apply (fresh_stamp_kept (clock w) now o' Hrb Hl Hle).
Qed.

Lemma confirm_stamps_witness :
  let r := @Presigned.fetch_confirm (reference_runtime no_faults) ["u1/a.txt"] false
             uploaded_world in
  exists o', FILES (snd r) !! "u1/a.txt" = Some o' /\
    meta o' "pinned" = Some "false" /\
    meta o' "last_accessed" = Some "2026-11-02T13:45:00.000Z" /\
    @sweepable (reference_runtime no_faults) (NOW + 7 * DAY_MS - ONE_WEEK_MS) o' = false.
Proof.
  intros r.
  destruct (@confirm_stamps_what_it_finds (reference_runtime no_faults) ["u1/a.txt"] false
              uploaded_world) as (_ & Hfound & _).
  - discriminate.
  - intros k _. repeat split; reflexivity.
  - split; reflexivity.
  - destruct (Hfound "u1/a.txt" (object_of 100 [] (NOW - 1000)))
      as (o' & Ho' & _ & Hin).
    + vm_compute. reflexivity.
    + destruct Hin as ((_ & _ & Hp & Hl & _) & _ & Hweek).
      { apply list_elem_of_here. }
      exists o'. split; [exact Ho'|]. split; [exact Hp|]. split; [exact Hl|].
      apply Hweek; [vm_compute; reflexivity | vm_compute; discriminate].
Defined.

(** ** Where the usage figure comes from *)



(** ** A put that rejects in the middle of a batch *)

Section PartialUpload.
Context `{Runtime}.

Lemma store_entry_put_rejects pin acc f w :
  r2_put_fails (stored_key_of (rng w) 0 f) = true ->
  Mediated.store_entry pin acc (as_entry f) w = (Throw "R2.put", set_rng (S (rng w)) w).
Proof.
  intros Hput. unfold stored_key_of in Hput. rewrite Nat.add_0_r in Hput.
  unfold Mediated.store_entry, as_entry, bind, crypto_randomUUID, nowISO, bind, Date_now,
    ret, R2_put.
  cbn [clock set_rng rng]. rewrite Hput. reflexivity.
Qed.

Lemma store_entry_bump_rejects pin acc f w :
  r2_put_fails (stored_key_of (rng w) 0 f) = false ->
  kv_get_fails USED_BYTES || kv_put_fails USED_BYTES = true ->
  Mediated.store_entry pin acc (as_entry f) w =
  (Throw "KV.atomic",
   set_FILES (insert (stored_key_of (rng w) 0 f) (stored_object pin (clock w) f))
     (set_rng (S (rng w)) w)).
Proof.
  intros Hput Hkv. unfold stored_key_of in Hput. rewrite Nat.add_0_r in Hput.
  unfold Mediated.store_entry, as_entry, bind, crypto_randomUUID, nowISO, bind, Date_now,
    ret, R2_put, Mediated.bumpUsedBytes, Mediated.KV_atomic_mutate.
  cbn [clock set_rng rng]. rewrite Hput, Hkv.
  unfold stored_key_of, stored_object. rewrite Nat.add_0_r. reflexivity.
Qed.

Lemma upload_past_the_gate fs pin w used w1 :
  fs <> [] -> Z.of_nat (length fs) <= MAX_FILES_PER_BATCH ->
  Forall form_ok fs ->
  Mediated.getUsedBytes w = (Ok used, w1) ->
  used + form_bytes fs < BYTES_LIMIT ->
  Mediated.handleUpload (map as_entry fs) pin w =
  (results <- for_of (map as_entry fs) (Mediated.store_entry pin) [] ;;
   ret (json (JFiles results) 200)) w1.
Proof.
  intros Hne Hlen Hok Hu Hsum. unfold Mediated.handleUpload.
  rewrite bool_decide_eq_false_2 by (destruct fs; [contradiction | discriminate]).
  rewrite length_map, (proj2 (Z.ltb_ge _ _) Hlen).
  rewrite (check_entries_total _ 0 (entries_ok fs Hok)), Z.add_0_l, entries_bytes.
  unfold bind at 1. rewrite Hu. rewrite (proj2 (Z.leb_gt _ _) Hsum). reflexivity.
Qed.

End PartialUpload.

(** X23.  POST /api/upload has no rollback.  When the put of a file of an
    admitted batch rejects, the request fails with that rejection; the
    files before it stay stored and counted, the file itself and the files
    after it are neither stored nor counted.  When the put succeeds and
    the adjustment of the counter rejects, the request fails, and the file
    stays stored without being counted. *)
Theorem upload_keeps_what_it_stored `{Runtime} pre f post pin w used :
  let fs := pre ++ f :: post in
  let keys := imap (stored_key_of (rng w)) pre in
  let key := stored_key_of (rng w) (length pre) f in
  let r := Mediated.handleUpload (map as_entry fs) pin w in
  Z.of_nat (length fs) <= MAX_FILES_PER_BATCH -> Forall form_ok fs ->
  kv_get_fails USED_BYTES = false -> used_bytes (FILES_KV w) = Some used ->
  used + form_bytes fs < BYTES_LIMIT ->
  (forall k, k ∈ keys -> r2_put_fails k = false) ->
  (kv_put_fails USED_BYTES = false -> r2_put_fails key = true ->
   fst r = Throw "R2.put" /\
   counter (snd r) = used + form_bytes pre /\
   (forall k, k ∉ keys -> FILES (snd r) !! k = FILES w !! k) /\
   (NoDup keys -> forall i g, pre !! i = Some g ->
      FILES (snd r) !! stored_key_of (rng w) i g = Some (stored_object pin (clock w) g))) /\
  (kv_put_fails USED_BYTES = true -> pre = [] -> r2_put_fails key = false ->
   fst r = Throw "KV.atomic" /\
   counter (snd r) = used /\
   FILES (snd r) = <[key := stored_object pin (clock w) f]> (FILES w)).
Proof.
  intros fs keys key r Hlen Hok Hg Hcell Hsum Hputs.
  assert (Hne : fs <> []) by (subst fs; destruct pre; discriminate).
  assert (Hu : Mediated.getUsedBytes w = (Ok used, w))
    by (apply mediated_getUsedBytes_cell; assumption).
  assert (Hcnt0 : counter w = used) by (unfold counter; rewrite Hcell; reflexivity).
  assert (E : r = bind (for_of (map as_entry fs) (Mediated.store_entry pin) [])
                    (fun results => ret (json (JFiles results) 200)) w).
  { subst r. apply (upload_past_the_gate fs pin w used w Hne Hlen Hok Hu Hsum). }
  split.
  - intros Hp Hrej.
    destruct (store_loop pin pre [] w (conj Hg Hp) Hputs)
      as (w' & Hrun & Hcnt & Hclk & Hrng & Hframe & Hnodup).
    assert (Hkey : stored_key_of (rng w') 0 f = key).
    { subst key. unfold stored_key_of. rewrite Hrng, Nat.add_0_r. reflexivity. }
    assert (E2 : r = (Throw "R2.put", set_rng (S (rng w')) w')).
    { rewrite E. subst fs. rewrite map_app. cbn [map].
      unfold bind at 1. rewrite for_of_app. unfold bind at 1. rewrite Hrun.
      cbn [for_of]. unfold bind at 1.
      rewrite store_entry_put_rejects by (rewrite Hkey; exact Hrej). reflexivity. }
    rewrite E2. cbn [fst snd]. change (counter (set_rng (S (rng w')) w')) with (counter w').
    change (FILES (set_rng (S (rng w')) w')) with (FILES w').
    split; [reflexivity|]. split; [lia|]. split; [exact Hframe|].
    intros Hnd. apply (Hnodup Hnd).
  - intros Hp -> Hstored.
    assert (E2 : r = (Throw "KV.atomic",
                      set_FILES (insert (stored_key_of (rng w) 0 f)
                                   (stored_object pin (clock w) f))
                        (set_rng (S (rng w)) w))).
    { rewrite E. subst fs. cbn [app map for_of]. unfold bind at 1 2.
      rewrite store_entry_bump_rejects.
      - reflexivity.
      - exact Hstored.
      - rewrite Hp. apply orb_true_r. }
    rewrite E2. cbn [fst snd]. split; [reflexivity|]. split; [exact Hcnt0|]. reflexivity.
Qed.

Lemma upload_keeps_witness :
  let w := world_of [] (Some 7) NOW in
  let second := "00000000-0000-4000-8000-000000000001/b.txt" in
  let r := @Mediated.handleUpload (reference_runtime (put_rejects second))
             (map as_entry [text_file "a.txt" 10; text_file "b.txt" 5]) false w in
  fst r = Throw "R2.put" /\ counter (snd r) = 17 /\
  is_Some (FILES (snd r) !! "00000000-0000-4000-8000-000000000000/a.txt") /\
  FILES (snd r) !! second = None.
Proof.
  intros w second r.
  destruct (@upload_keeps_what_it_stored (reference_runtime (put_rejects second))
              [text_file "a.txt" 10] (text_file "b.txt" 5) [] false w 7)
    as ((Hr & Hc & Hframe & Hlook) & _).
  - vm_compute. discriminate.
  - repeat constructor.
  - reflexivity.
  - reflexivity.
  - vm_compute. reflexivity.
  - intros k Hk. apply list_elem_of_singleton in Hk. subst k. vm_compute. reflexivity.
  - reflexivity.
  - vm_compute. reflexivity.
  - cbn [app] in Hr, Hc, Hframe, Hlook.
    subst r. split; [exact Hr|]. split; [rewrite Hc; reflexivity|]. split.
    + eexists. apply (Hlook (NoDup_singleton _) 0%nat (text_file "a.txt" 10)). reflexivity.
    + rewrite Hframe; [reflexivity|].
      intros Hk. apply list_elem_of_singleton in Hk. vm_compute in Hk. discriminate.
Defined.

(** ** Delete after delete, and delete after counting *)

(** X24.  A delete that follows a delete of the same key finds nothing: it
    is answered 404 and changes nothing, so the counter is lowered once.
    Both variants, the lookup, the delete and the counter calls not
    rejecting. *)
Theorem second_delete_finds_nothing `{Runtime} key w r1 r2 :
  r2_head_fails key = false -> r2_delete_fails key = false -> counter_calls_ok ->
  (r1 = Presigned.fetch_delete key w \/ r1 = Mediated.handleDelete key w) ->
  (r2 = Presigned.fetch_delete key (snd r1) \/ r2 = Mediated.handleDelete key (snd r1)) ->
  r2 = (Ok (text "Not found" 404), snd r1).
Proof.
  intros Hh Hd Hc H1 H2.
  apply (delete_absent key (snd r1) r2 Hh); [|exact H2].
  destruct (FILES w !! key) as [o|] eqn:Ho.
  - assert (E : r1 = (Ok (json JOk 200),
                      set_KV (set_used_bytes (Some (counter w - size o)))
                        (set_FILES (delete key) w))).
    { destruct H1 as [-> | ->].
      - apply (presigned_delete_found key o w Hh Hd Hc Ho).
      - apply (mediated_delete_found key o w Hh Hd Hc Ho). }
    rewrite E. cbn [snd FILES set_KV set_FILES]. apply lookup_delete_eq.
  - rewrite (delete_absent key w r1 Hh Ho H1). exact Ho.
Qed.

Lemma second_delete_witness :
  let r1 := @Mediated.handleDelete (reference_runtime no_faults) "b/B.txt" scenario_world in
  let r2 := @Presigned.fetch_delete (reference_runtime no_faults) "b/B.txt" (snd r1) in
  counter (snd r1) = 4103 /\ r2 = (Ok (text "Not found" 404), snd r1).
Proof.
  intros r1 r2. split; [vm_compute; reflexivity|].
  apply (@second_delete_finds_nothing (reference_runtime no_faults) "b/B.txt"
           scenario_world r1 r2).
  - reflexivity.
  - reflexivity.
  - split; reflexivity.
  - right. reflexivity.
  - left. reflexivity.
Defined.

Section RoundTrip.
Context `{Runtime}.

Lemma found_bytes_one key o w :
  FILES w !! key = Some o -> found_bytes [key] w = size o.
Proof.
  intros Ho. unfold found_bytes, size_at, sum_Z. cbn [map foldr]. rewrite Ho.
  cbn [from_option]. lia.
Qed.

End RoundTrip.

(** X25.  Deleting an object gives back what counting it took.  In the
    presigned variant, a confirm of one key with an object followed by the
    delete of that key leaves the counter at its value before the confirm,
    and the bucket without the object.  In the server-mediated variant, an
    admitted upload of one file under a key new to the bucket followed by
    the delete of that key leaves the bucket as it was and the counter at
    the usage read by the upload.  No call rejecting. *)
Theorem delete_gives_back_the_count `{Runtime} :
  (forall key o pin w,
      object_calls_ok key -> r2_delete_fails key = false -> counter_calls_ok ->
      FILES w !! key = Some o ->
      let r1 := Presigned.fetch_confirm [key] pin w in
      let r2 := Presigned.fetch_delete key (snd r1) in
      fst r2 = Ok (json JOk 200) /\
      counter (snd r2) = counter w /\
      FILES (snd r2) = delete key (FILES w)) /\
  (forall f pin w used w1,
      form_ok f -> Mediated.getUsedBytes w = (Ok used, w1) ->
      used + form_bytes [f] < BYTES_LIMIT -> counter_calls_ok ->
      let key := stored_key_of (rng w) 0 f in
      r2_put_fails key = false -> r2_head_fails key = false -> r2_delete_fails key = false ->
      FILES w !! key = None ->
      let r1 := Mediated.handleUpload [as_entry f] pin w in
      let r2 := Mediated.handleDelete key (snd r1) in
      fst r2 = Ok (json JOk 200) /\
      counter (snd r2) = used /\
      FILES (snd r2) = FILES w).
Proof.
  split.
  - intros key o pin w Hok Hd Hc Ho r1 r2.
    destruct (confirm_run [key] pin w) as (w' & Hrun & Hcnt & _ & _ & _ & Hsize & Hframe).
    { discriminate. }
    { intros k Hk. apply list_elem_of_singleton in Hk. subst k. exact Hok. }
    { exact Hc. }
    assert (Hs1 : snd r1 = w') by (subst r1; rewrite Hrun; reflexivity).
    rewrite (found_bytes_one key o w Ho) in Hcnt.
    pose proof (Hsize key) as Hk. rewrite Ho in Hk.
    destruct (FILES w' !! key) as [o'|] eqn:Ho'; [|discriminate Hk].
    cbn in Hk. injection Hk as Hk.
    destruct Hok as (Hh & _ & _).
    subst r2. rewrite Hs1.
    rewrite (presigned_delete_found key o' w' Hh Hd Hc Ho'). cbn [fst snd].
    split; [reflexivity|]. split.
    + change (counter (set_KV (set_used_bytes (Some ?x)) ?y)) with x. lia.
    + cbn [FILES set_KV set_FILES]. apply map_eq. intros k.
      destruct (decide (k = key)) as [-> | Hne].
      * rewrite !lookup_delete_eq. reflexivity.
      * rewrite !lookup_delete_ne by congruence. apply Hframe.
        intros Hin. apply list_elem_of_singleton in Hin. contradiction.
  - intros f pin w used w1 Hok Hu Hsum Hc key Hput Hh Hd Hfresh r1 r2.
    destruct (upload_run [f] pin w used w1) as (_ & Hcnt & Hframe & Hnd); try assumption.
    { discriminate. }
    { vm_compute. discriminate. }
    { repeat constructor. exact Hok. }
    { intros k Hk. apply list_elem_of_singleton in Hk. subst k. exact Hput. }
    cbn [map] in Hcnt, Hframe, Hnd. fold r1 in Hcnt, Hframe, Hnd.
    destruct Hnd as [Hlook _]; [apply NoDup_singleton|].
    specialize (Hlook 0%nat f eq_refl). fold key in Hlook.
    subst r2.
    rewrite (mediated_delete_found key _ (snd r1) Hh Hd Hc Hlook). cbn [fst snd].
    split; [reflexivity|]. split.
    + change (counter (set_KV (set_used_bytes (Some ?x)) ?y)) with x.
      rewrite Hcnt.
      change (size (stored_object pin (clock w) f)) with (byteLength (form_content f)).
      change (form_bytes [f]) with (byteLength (form_content f) + 0). lia.
    + cbn [FILES set_KV set_FILES]. apply map_eq. intros k.
      destruct (decide (k = key)) as [-> | Hne].
      * rewrite lookup_delete_eq, Hfresh. reflexivity.
      * rewrite lookup_delete_ne by congruence. apply Hframe.
        intros Hin. apply list_elem_of_singleton in Hin. contradiction.
Qed.

Lemma delete_gives_back_witness :
  let r1 := @Presigned.fetch_confirm (reference_runtime no_faults) ["u1/a.txt"] true
              uploaded_world in
  let r2 := @Presigned.fetch_delete (reference_runtime no_faults) "u1/a.txt" (snd r1) in
  counter (snd r1) = 100 /\ counter (snd r2) = 0 /\ FILES (snd r2) = ∅.
Proof.
  intros r1 r2.
  destruct (proj1 (@delete_gives_back_the_count (reference_runtime no_faults))
              "u1/a.txt" (object_of 100 [] (NOW - 1000)) true uploaded_world)
    as (_ & Hc & Hf).
  - repeat split; reflexivity.
  - reflexivity.
  - split; reflexivity.
  - vm_compute. reflexivity.
  - split; [vm_compute; reflexivity|]. subst r2 r1. split.
    + rewrite Hc. reflexivity.
    + rewrite Hf. vm_compute. reflexivity.
Defined.

(** ** Keys of a batch *)

Section Keys.
Context `{Runtime}.

Lemma slash_split a b x y :
  JsString.has_char "/" a = false -> JsString.has_char "/" b = false ->
  a +:+ String "/" x = b +:+ String "/" y -> a = b.
Proof.
  revert b. induction a as [|c a IH]; intros [|c' b] Ha Hb He.
  - reflexivity.
  - change (String "/" x = String c' (b +:+ String "/" y)) in He.
    injection He as <- _. cbn [JsString.has_char] in Hb.
    rewrite Ascii.eqb_refl in Hb. discriminate.
  - change (String c (a +:+ String "/" x) = String "/" y) in He.
    injection He as -> _. cbn [JsString.has_char] in Ha.
    rewrite Ascii.eqb_refl in Ha. discriminate.
  - change (String c (a +:+ String "/" x) = String c' (b +:+ String "/" y)) in He.
    injection He as <- He. cbn [JsString.has_char] in Ha, Hb.
    apply orb_false_iff in Ha as [_ Ha]. apply orb_false_iff in Hb as [_ Hb].
    f_equal. apply (IH b Ha Hb He).
Qed.

Lemma NoDup_imap_keys {X} (n0 : nat) (name : X -> string) (l : list X) :
  (forall i, (i < length l)%nat -> JsString.has_char "/" (randomUUID (n0 + i)) = false) ->
  (forall i j, (i < length l)%nat -> (j < length l)%nat ->
     randomUUID (n0 + i) = randomUUID (n0 + j) -> i = j) ->
  NoDup (imap (fun i x => randomUUID (n0 + i) +:+ "/" +:+ name x) l).
Proof.
  intros Hslash Hinj. apply NoDup_alt. intros i j k Hi Hj.
  rewrite list_lookup_imap in Hi, Hj.
  destruct (l !! i) as [x|] eqn:Hxi; [|discriminate].
  destruct (l !! j) as [y|] eqn:Hxj; [|discriminate].
  cbn in Hi, Hj. injection Hi as Hi. injection Hj as Hj.
  apply lookup_lt_Some in Hxi. apply lookup_lt_Some in Hxj.
  apply (Hinj i j Hxi Hxj).
  apply (slash_split _ _ (name x) (name y)); [apply Hslash; exact Hxi
                                             | apply Hslash; exact Hxj |].
  change (randomUUID (n0 + i) +:+ "/" +:+ name x = randomUUID (n0 + j) +:+ "/" +:+ name y).
  congruence.
Qed.

End Keys.

(** X26.  The keys of a batch are pairwise distinct, whatever the names of
    the files (equal names included), when the UUIDs drawn for the batch
    are pairwise distinct and hold no slash: for the keys of the uploads
    issued by POST /api/upload-urls and for the keys under which POST
    /api/upload stores. *)
Theorem keys_of_a_batch_are_distinct `{Runtime} now n0
    (files : list Presigned.FileDecl) (fs : list FormFile) :
  (forall i, (i < Nat.max (length files) (length fs))%nat ->
     JsString.has_char "/" (randomUUID (n0 + i)) = false) ->
  (forall i j, (i < Nat.max (length files) (length fs))%nat ->
     (j < Nat.max (length files) (length fs))%nat ->
     randomUUID (n0 + i) = randomUUID (n0 + j) -> i = j) ->
  NoDup (map upload_key (imap (issued now n0) files)) /\
  NoDup (imap (stored_key_of n0) fs).
Proof.
  intros Hslash Hinj. split.
  - replace (map upload_key (imap (issued now n0) files))
      with (imap (fun i f => randomUUID (n0 + i) +:+ "/" +:+ Presigned.file_name f) files).
    + apply NoDup_imap_keys.
      * intros i Hi. apply Hslash. lia.
      * intros i j Hi Hj. apply Hinj; lia.
    + change (map upload_key (imap (issued now n0) files))
        with (upload_key <$> imap (issued now n0) files).
      rewrite fmap_imap. apply imap_ext. intros i f _. reflexivity.
  - apply (NoDup_imap_keys n0
             (fun f => if JsString.truthy (form_name f) then form_name f else "file") fs).
    + intros i Hi. apply Hslash. lia.
    + intros i j Hi Hj. apply Hinj; lia.
Qed.

Lemma keys_of_a_batch_witness :
  NoDup (@imap FormFile string (@stored_key_of (reference_runtime no_faults) 0)
           [text_file "a.txt" 1; text_file "a.txt" 2; text_file "" 3]).
Proof.
  apply (@keys_of_a_batch_are_distinct (reference_runtime no_faults) NOW 0%nat []
           [text_file "a.txt" 1; text_file "a.txt" 2; text_file "" 3]).
  - intros i Hi. cbn in Hi.
    destruct i as [|[|[|i]]]; [reflexivity | reflexivity | reflexivity | lia].
  - intros i j Hi Hj. cbn in Hi, Hj.
    destruct i as [|[|[|i]]]; [| | |lia];
      (destruct j as [|[|[|j]]]; [| | |lia]); intros He;
      first [reflexivity | vm_compute in He; discriminate He].
Defined.

(** ** Requests that no route takes *)

(** X27.  A request under /api/ that no route takes is answered 404 and
    nothing is read or written: in both routers, any method on a path that
    is none of the named routes and not under /api/files/.  On /api/chat
    with a method other than POST the server-mediated router answers 405,
    the presigned router 404. *)
Theorem unknown_api_routes_are_not_found `{Runtime} decode :
  (forall req w,
      let p := Mediated_router.pathname req in
      JsPath.startsWith p "/api/" = true ->
      (p <> "/api/chat" -> p <> "/api/quota" -> p <> "/api/upload" ->
       JsPath.startsWith p "/api/files/" = false ->
       Mediated_router.fetch decode req w = (Ok not_found, w)) /\
      (p = "/api/chat" -> Mediated_router.method req <> "POST" ->
       Mediated_router.fetch decode req w
       = (Ok (reply (text "Method not allowed" 405)), w))) /\
  (forall req w,
      let p := Presigned_router.pathname req in
      JsPath.startsWith p "/api/" = true ->
      (p <> "/api/chat" -> p <> "/api/quota" -> p <> "/api/upload-urls" ->
       p <> "/api/confirm" -> JsPath.startsWith p "/api/files/" = false ->
       Presigned_router.fetch decode req w = (Ok not_found, w)) /\
      (p = "/api/chat" -> Presigned_router.method req <> "POST" ->
       Presigned_router.fetch decode req w = (Ok not_found, w))).
Proof.
  split.
  - intros req w p Hs. subst p. split.
    + intros Hchat Hquota Hupload Hfiles. unfold Mediated_router.fetch.
      rewrite Hs, Hfiles.
      rewrite (proj2 (String.eqb_neq _ _) Hchat), (proj2 (String.eqb_neq _ _) Hquota),
        (proj2 (String.eqb_neq _ _) Hupload).
      destruct (String.eqb_spec (Mediated_router.pathname req) "/") as [E | _];
        [rewrite E in Hs; discriminate Hs|].
      cbn [orb negb andb]. apply (mediated_tail_unreached req w Hs).
    + intros Hchat Hm. unfold Mediated_router.fetch. rewrite Hchat.
      rewrite (proj2 (String.eqb_neq _ _) Hm). reflexivity.
  - intros req w p Hs. subst p. split.
    + intros Hchat Hquota Hurls Hconfirm Hfiles. unfold Presigned_router.fetch.
      rewrite Hs, Hfiles, (outside_api _ Hs).
      rewrite (proj2 (String.eqb_neq _ _) Hchat), (proj2 (String.eqb_neq _ _) Hquota),
        (proj2 (String.eqb_neq _ _) Hurls), (proj2 (String.eqb_neq _ _) Hconfirm).
      destruct (String.eqb_spec (Presigned_router.pathname req) "/") as [E | _];
        [rewrite E in Hs; discriminate Hs|].
      reflexivity.
    + intros Hchat Hm. unfold Presigned_router.fetch. rewrite Hchat.
      rewrite (proj2 (String.eqb_neq _ _) Hm). reflexivity.
Qed.

Lemma unknown_api_routes_witness :
  @Mediated_router.fetch (reference_runtime no_faults) Some
    (plain_request "GET" "/api/chat" None) scenario_world
  = (Ok (reply (text "Method not allowed" 405)), scenario_world) /\
  @Presigned_router.fetch (reference_runtime no_faults) Some
    (get_request "/api/chat" None) scenario_world
  = (Ok not_found, scenario_world) /\
  @Presigned_router.fetch (reference_runtime no_faults) Some
    (get_request "/api/upload" None) scenario_world
  = (Ok not_found, scenario_world).
Proof.
  destruct (@unknown_api_routes_are_not_found (reference_runtime no_faults) Some)
    as (Hm & Hp).
  split; [|split].
  - destruct (Hm (plain_request "GET" "/api/chat" None) scenario_world eq_refl)
      as [_ Hchat].
    apply Hchat; [reflexivity | discriminate].
  - destruct (Hp (get_request "/api/chat" None) scenario_world eq_refl) as [_ Hchat].
    apply Hchat; [reflexivity | discriminate].
  - destruct (Hp (get_request "/api/upload" None) scenario_world eq_refl) as [Hnone _].
    apply Hnone; [discriminate | discriminate | discriminate | discriminate | reflexivity].
Defined.

(** ** Paging over a snapshot and paging over the live bucket *)

Section Live.
Context `{Runtime}.

Lemma for_of_keeps {A} (body : A -> string * R2Object -> M A) l : forall acc w k,
  keeps_other_keys body -> k ∉ map fst l ->
  FILES (snd (for_of l body acc w)) !! k = FILES w !! k.
Proof.
  induction l as [|e l IH]; intros acc w k Hb Hk; [reflexivity|].
  cbn [map] in Hk. apply not_elem_of_cons in Hk as [Hne Hk].
  cbn [for_of]. unfold bind.
  pose proof (Hb acc e w k Hne) as He.
  destruct (body acc e w) as [[acc'| |] w1]; cbn [snd] in *; [|exact He..].
  rewrite (IH acc' w1 k Hb Hk). exact He.
Qed.

Lemma filter_all {X} (f : X -> bool) (l : list X) :
  (forall e, e ∈ l -> f e = true) -> List.filter f l = l.
Proof.
  induction l as [|a l IH]; intros Hall; [reflexivity|].
  cbn [List.filter]. rewrite (Hall a) by apply list_elem_of_here.
  f_equal. apply IH. intros e He. apply Hall. apply list_elem_of_further. exact He.
Qed.

Lemma filter_filter_implied {X} (p q : X -> bool) (l : list X) :
  (forall x, q x = true -> p x = true) ->
  List.filter q (List.filter p l) = List.filter q l.
Proof.
  intros Himp. induction l as [|a l IH]; [reflexivity|].
  cbn [List.filter]. destruct (p a) eqn:Hp.
  - cbn [List.filter]. rewrite IH. reflexivity.
  - destruct (q a) eqn:Hq; [rewrite (Himp a Hq) in Hp; discriminate | exact IH].
Qed.

Lemma elem_of_filter {X} (f : X -> bool) (l : list X) x :
  x ∈ List.filter f l <-> x ∈ l /\ f x = true.
Proof. rewrite !list_elem_of_In. apply List.filter_In. Qed.

Lemma StronglySorted_filter {X} (R : relation X) (f : X -> bool) l :
  StronglySorted R l -> StronglySorted R (List.filter f l).
Proof.
  induction 1 as [|a l Hs IH Hall]; [constructor|].
  cbn [List.filter]. destruct (f a); [|exact IH].
  constructor; [exact IH|].
  apply Forall_forall. intros x Hx. apply elem_of_filter in Hx as [Hx _].
  rewrite Forall_forall in Hall. apply Hall. exact Hx.
Qed.

Lemma filter_app_list {X} (f : X -> bool) (l1 l2 : list X) :
  List.filter f (l1 ++ l2) = List.filter f l1 ++ List.filter f l2.
Proof. apply List.filter_app. Qed.

Lemma listing_strongly_sorted (m : gmap string R2Object) :
  StronglySorted key_le (listing_of m).
Proof. apply Sorted_StronglySorted; [apply _ | apply listing_of_sorted]. Qed.

Lemma remaining_sorted m c : StronglySorted key_le (remaining m c).
Proof. apply StronglySorted_filter, listing_strongly_sorted. Qed.

Lemma remaining_NoDup m c : NoDup (map fst (remaining m c)).
Proof. apply NoDup_fst_filter, NoDup_fst_listing_of. Qed.

Lemma elem_of_remaining m c k o :
  (k, o) ∈ remaining m c <-> m !! k = Some o /\ after c k = true.
Proof. unfold remaining. rewrite elem_of_filter, elem_of_listing_of. reflexivity. Qed.

(** In a list sorted by distinct keys, what comes after the key of an
    element is what follows the element. *)
Lemma filter_after_split pre x post :
  StronglySorted key_le (pre ++ x :: post) -> NoDup (map fst (pre ++ x :: post)) ->
  List.filter (fun e => after (Some (fst x)) (fst e)) (pre ++ x :: post) = post.
Proof.
  intros Hs Hnd.
  rewrite filter_app_list. cbn [List.filter].
  assert (Hpre : List.filter (fun e => after (Some (fst x)) (fst e)) pre = []).
  { apply filter_none. intros e He. cbn [after].
    rewrite bool_decide_eq_true_2; [reflexivity|].
    apply (StronglySorted_app_1_elem_of key_le pre (x :: post) e x Hs He).
    apply list_elem_of_here. }
  assert (Hx : after (Some (fst x)) (fst x) = false).
  { cbn [after]. rewrite bool_decide_eq_true_2; reflexivity. }
  assert (Hpost : List.filter (fun e => after (Some (fst x)) (fst e)) post = post).
  { apply filter_all. intros e He. cbn [after].
    rewrite bool_decide_eq_false_2; [reflexivity|].
    intros Hle.
    apply StronglySorted_app_1_r in Hs.
    apply StronglySorted_cons in Hs as [Hall _].
    rewrite Forall_forall in Hall. specialize (Hall e He). unfold key_le in Hall.
    assert (Heq : fst x = fst e) by (apply (anti_symm String.le); assumption).
    rewrite map_app in Hnd. cbn [map] in Hnd.
    apply NoDup_app in Hnd as (_ & _ & Hnd). apply NoDup_cons in Hnd as [Hfresh _].
    apply Hfresh. rewrite Heq. apply list_elem_of_fmap. exists e. split; [reflexivity|].
    exact He. }
  rewrite Hpre, Hx, Hpost. reflexivity.
Qed.

(** The objects after a cursor, listed, depend only on the bucket after
    the cursor. *)
Lemma remaining_ext (m m' : gmap string R2Object) c :
  (forall k, after c k = true -> m' !! k = m !! k) ->
  remaining m' c = remaining m c.
Proof.
  intros Hext.
  apply (Sorted_unique_strong key_le).
  - intros [k1 o1] [k2 o2] H1 H2 H12 H21.
    apply elem_of_remaining in H1 as [H1 Ha1]. apply elem_of_remaining in H2 as [H2 _].
    unfold key_le in H12, H21. cbn [fst] in H12, H21.
    assert (k1 = k2) by (apply (anti_symm String.le); assumption). subst k2.
    rewrite (Hext k1 Ha1) in H1. congruence.
  - apply StronglySorted_Sorted, remaining_sorted.
  - apply StronglySorted_Sorted, remaining_sorted.
  - apply NoDup_Permutation.
    + apply (NoDup_fmap_1 fst). apply remaining_NoDup.
    + apply (NoDup_fmap_1 fst). apply remaining_NoDup.
    + intros [k o]. rewrite !elem_of_remaining. split; intros [Hk Ha]; split; try exact Ha.
      * rewrite <- (Hext k Ha). exact Hk.
      * rewrite (Hext k Ha). exact Hk.
Qed.

Lemma after_trans c k k' : after c k = true -> after (Some k) k' = true -> after c k' = true.
Proof.
  destruct c as [a|]; [|reflexivity]. cbn [after].
  rewrite !negb_true_iff, !bool_decide_eq_false. intros Hka Hk'k Hk'a.
  apply Hk'k. destruct (total String.le k a) as [Hle | Hle]; [contradiction|].
  etrans; eassumption.
Qed.

Lemma split_page {X} (n : nat) (rest : list X) :
  (0 < n)%nat -> (n < length rest)%nat ->
  exists pre x post,
    rest = pre ++ x :: post /\ take n rest = pre ++ [x] /\ drop n rest = post.
Proof.
  intros Hn Hlen. destruct n as [|n]; [lia|].
  destruct (lookup_lt_is_Some_2 rest n) as [x Hx]; [lia|].
  exists (take n rest), x, (drop (S n) rest).
  split; [|split; [apply take_S_r; exact Hx | reflexivity]].
  rewrite <- (take_drop n rest) at 1. f_equal.
  apply drop_S. exact Hx.
Qed.

(** The next page of the live bucket is the next page of the snapshot. *)
Lemma remaining_next {A} (body : A -> string * R2Object -> M A) m c pre x post acc w :
  keeps_other_keys body -> FILES w = m ->
  remaining m c = pre ++ x :: post ->
  remaining (FILES (snd (for_of (pre ++ [x]) body acc w))) (Some (fst x)) = post.
Proof.
  intros Hb Hw Hrest.
  pose proof (remaining_sorted m c) as Hs. pose proof (remaining_NoDup m c) as Hnd.
  rewrite Hrest in Hs, Hnd.
  assert (Hax : after c (fst x) = true).
  { assert (Hin : x ∈ remaining m c)
      by (rewrite Hrest; apply elem_of_app; right; apply list_elem_of_here).
    destruct x as [k o]. apply elem_of_remaining in Hin. apply Hin. }
  rewrite (remaining_ext m _ (Some (fst x))).
  - unfold remaining.
    rewrite <- (filter_filter_implied (fun e => after c (fst e))).
    + fold (remaining m c). rewrite Hrest. apply filter_after_split; assumption.
    + intros e He. apply (after_trans c (fst x) (fst e) Hax He).
  - intros k Hk. rewrite <- Hw. apply for_of_keeps; [exact Hb|].
    intros Hin. apply list_elem_of_fmap in Hin as (e & -> & He).
    cbn [after] in Hk. apply negb_true_iff, bool_decide_eq_false in Hk. apply Hk.
    apply elem_of_app in He as [He | He].
    + apply (StronglySorted_app_1_elem_of key_le pre (x :: post) e x Hs He).
      apply list_elem_of_here.
    + apply list_elem_of_singleton in He. subst e. reflexivity.
Qed.

Lemma live_loop_frozen {A} (body : A -> string * R2Object -> M A) L fuel :
  keeps_other_keys body ->
  forall off c acc w,
    remaining (FILES w) c = drop (default 0%nat off) L ->
    live_loop fuel off c body acc w = list_loop fuel L off body acc w.
Proof.
  intros Hb. induction fuel as [|fuel IH]; intros off c acc w Hrest; [reflexivity|].
  cbn [live_loop list_loop]. unfold bind at 1 3. unfold R2_list_live, R2_list.
  destruct (r2_list_fails off); [reflexivity|].
  cbv zeta. cbn [fst snd objects truncated cursor]. rewrite Hrest.
  set (n := Pos.to_nat list_limit). set (o := default 0%nat off) in *.
  assert (Hn : (0 < n)%nat) by (subst n; lia).
  rewrite length_drop.
  rewrite (bool_decide_ext (n < length L - o)%nat (o + n < length L)%nat) by lia.
  destruct (bool_decide (o + n < length L)%nat) eqn:Htr.
  - apply bool_decide_eq_true in Htr.
    destruct (split_page n (drop o L)) as (pre & x & post & Hsplit & Htake & Hdrop);
      [exact Hn | rewrite length_drop; lia |].
    rewrite Htake, last_snoc. cbn [fmap option_fmap option_map].
    unfold bind at 1 2.
    pose proof (remaining_next body (FILES w) c pre x post acc w Hb eq_refl) as Hnext.
    rewrite Hrest, Hsplit in Hnext. specialize (Hnext eq_refl).
    destruct (for_of (pre ++ [x]) body acc w) as [[acc'| |] w1]; [|reflexivity..].
    cbn [snd] in Hnext. apply IH. cbn [default].
    rewrite Hnext, <- Hdrop, drop_drop. reflexivity.
  - unfold bind. destruct (for_of (take n (drop o L)) body acc w) as [[acc'| |] w1];
      reflexivity.
Qed.

Lemma keeps_sum : keeps_other_keys (fun total e => ret (total + size (snd e))).
Proof. intros acc e w k _. reflexivity. Qed.

Lemma keeps_sweep cutoff : keeps_other_keys (sweep_object cutoff).
Proof.
  intros [deleted freed] [k0 o] w k Hne. unfold sweep_object.
  destruct (sweepable cutoff o); [|reflexivity].
  unfold bind, R2_delete. destruct (r2_delete_fails k0); [reflexivity|].
  cbn [ret snd FILES set_FILES]. apply lookup_delete_ne. cbn [fst] in Hne. congruence.
Qed.

End Live.

(** X20.  The loops over the bucket call [FILES.list] at every page, on
    the bucket as it is by then, and continue after the last key of the
    page before.  For a body that changes the bucket only under the key it
    is handed -- the two bodies of the worker do: the sum of
    [getUsedBytes] changes nothing, the sweep deletes the object it is
    handed or nothing -- that loop does what paging over the enumeration
    made when the loop starts does, the same calls rejecting; when no
    listing call rejects, it runs the body once on every object the bucket
    held at the start, in the order of the keys, and ends, whatever the
    page size. *)
Theorem paged_loop_visits_each_object_once `{Runtime} {A}
    (body : A -> string * R2Object -> M A) (acc : A) (w : World) :
  keeps_other_keys body ->
  for_each_live body acc w = for_each_listed body acc w /\
  ((forall c, r2_list_fails c = false) ->
   for_each_live body acc w = for_of (listing_of (FILES w)) body acc w) /\
  NoDup (map fst (listing_of (FILES w))) /\
  (forall k o, (k, o) ∈ listing_of (FILES w) <-> FILES w !! k = Some o) /\
  Sorted key_le (listing_of (FILES w)) /\
  keeps_other_keys (fun total e => ret (total + size (snd e))) /\
  (forall cutoff, keeps_other_keys (sweep_object cutoff)).
Proof.
  intros Hb.
  assert (Hlive : for_each_live body acc w = for_each_listed body acc w).
  { unfold for_each_live, for_each_listed. apply live_loop_frozen; [exact Hb|].
    cbn [default drop]. unfold remaining. apply filter_all. intros e _. reflexivity. }
  split; [exact Hlive|].
  split; [intros Hl; rewrite Hlive; apply for_each_listed_visits; exact Hl|].
  split; [apply NoDup_fst_listing_of|].
  split; [intros k o; apply elem_of_listing_of|].
  split; [apply listing_of_sorted|].
  split; [apply keeps_sum | apply keeps_sweep].
Qed.

Lemma paged_loop_witness :
  let r := @for_each_live (runtime_with_pages 3) (Z * Z)
             (@sweep_object (runtime_with_pages 3) (NOW - ONE_WEEK_MS)) (0, 0)
             scenario_world in
  fst r = Ok (2, 23) /\
  map fst (listing_of (FILES (snd r))) = ["a/A.txt"; "d/D.txt"].
Proof.
  intros r.
  destruct (@paged_loop_visits_each_object_once (runtime_with_pages 3) (Z * Z)
              (@sweep_object (runtime_with_pages 3) (NOW - ONE_WEEK_MS)) (0, 0)
              scenario_world) as (_ & Hrun & _).
  - apply (@keeps_sweep (runtime_with_pages 3)).
  - subst r. rewrite Hrun by (intros c; reflexivity).
    split; vm_compute; reflexivity.
Defined.

Example paged_loop_pages :
  let r := @for_each_live (runtime_with_pages 3) (list string)
             (fun seen e => R2_delete (H := runtime_with_pages 3) (fst e) ;;; ret (seen ++ [fst e]))
             [] scenario_world in
  r = (Ok ["a/A.txt"; "b/B.txt"; "c/C.txt"; "d/D.txt"],
       set_FILES (fun _ => ∅) scenario_world).
Proof. vm_compute. reflexivity. Qed.

(** ** What confirm counts *)

Section Distinct.
Context `{Runtime}.

Lemma sum_Z_app l1 l2 : sum_Z (l1 ++ l2) = sum_Z l1 + sum_Z l2.
Proof. unfold sum_Z. induction l1 as [|a l1 IH]; cbn [app foldr]; lia. Qed.

(** In a list with distinct keys, the entries under [k] are the entry of
    the bucket under [k], if there is one. *)
Lemma sum_at_key (f : R2Object -> Z) (l : list (string * R2Object)) k :
  NoDup (map fst l) ->
  sum_Z (map (fun e => f (snd e)) (List.filter (fun e => bool_decide (fst e = k)) l))
  = from_option f 0 (snd <$> List.find (fun e => bool_decide (fst e = k)) l).
Proof.
  induction l as [|[k0 o] l IH]; intros Hnd; [reflexivity|].
  cbn [map fst] in Hnd. apply NoDup_cons in Hnd as [Hfresh Hnd].
  cbn [List.filter List.find fst]. destruct (bool_decide (k0 = k)) eqn:Hk.
  - apply bool_decide_eq_true in Hk. subst k0.
    cbn [map snd fmap option_fmap option_map from_option].
    rewrite filter_none.
    + unfold sum_Z. cbn. lia.
    + intros e He. apply bool_decide_eq_false. intros Heq. apply Hfresh.
      apply list_elem_of_fmap. exists e. split; [symmetry; exact Heq | exact He].
  - apply IH. exact Hnd.
Qed.

Lemma find_listing (m : gmap string R2Object) k :
  snd <$> List.find (fun e => bool_decide (fst e = k)) (listing_of m) = m !! k.
Proof.
  destruct (List.find _ (listing_of m)) as [[k' o]|] eqn:Hf.
  - apply List.find_some in Hf as [Hin Hk]. apply bool_decide_eq_true in Hk.
    cbn [fst] in Hk. subst k'. apply list_elem_of_In, elem_of_listing_of in Hin.
    rewrite Hin. reflexivity.
  - destruct (m !! k) as [o|] eqn:Hm; [|reflexivity].
    apply elem_of_listing_of, list_elem_of_In in Hm.
    apply (List.find_none _ _ Hf) in Hm. cbn [fst] in Hm.
    rewrite bool_decide_eq_true_2 in Hm by reflexivity. discriminate.
Qed.

Lemma filter_cons_key (f : R2Object -> Z) (l : list (string * R2Object)) k ks :
  k ∉ ks ->
  sum_Z (map (fun e => f (snd e)) (List.filter (fun e => bool_decide (fst e ∈ k :: ks)) l))
  = sum_Z (map (fun e => f (snd e)) (List.filter (fun e => bool_decide (fst e = k)) l))
    + sum_Z (map (fun e => f (snd e)) (List.filter (fun e => bool_decide (fst e ∈ ks)) l)).
Proof.
  intros Hk. induction l as [|[k0 o] l IH]; [reflexivity|].
  cbn [List.filter fst].
  destruct (decide (k0 = k)) as [-> | Hne].
  - rewrite (bool_decide_eq_true_2 (k ∈ k :: ks)) by apply list_elem_of_here.
    rewrite (bool_decide_eq_true_2 (k = k)) by reflexivity.
    rewrite (bool_decide_eq_false_2 (k ∈ ks)) by exact Hk.
    cbn [map snd]. unfold sum_Z in *. cbn [foldr]. lia.
  - rewrite (bool_decide_eq_false_2 (k0 = k)) by exact Hne.
    destruct (decide (k0 ∈ ks)) as [Hin | Hout].
    + rewrite (bool_decide_eq_true_2 (k0 ∈ k :: ks)) by (apply list_elem_of_further; exact Hin).
      rewrite (bool_decide_eq_true_2 (k0 ∈ ks)) by exact Hin.
      cbn [map snd]. unfold sum_Z in *. cbn [foldr]. lia.
    + rewrite (bool_decide_eq_false_2 (k0 ∈ k :: ks))
        by (intros Hin; apply elem_of_cons in Hin as [? | ?]; contradiction).
      rewrite (bool_decide_eq_false_2 (k0 ∈ ks)) by exact Hout.
      exact IH.
Qed.

Lemma sum_under (f : R2Object -> Z) (m : gmap string R2Object) keys :
  NoDup keys ->
  sum_Z (map (fun k => from_option f 0 (m !! k)) keys)
  = sum_Z (map (fun e => f (snd e))
             (List.filter (fun e => bool_decide (fst e ∈ keys)) (listing_of m))).
Proof.
  induction 1 as [|k ks Hk Hnd IH].
  - rewrite filter_none; [reflexivity|].
    intros e _. apply bool_decide_eq_false. intros Hin. inversion Hin.
  - rewrite (filter_cons_key f _ k ks Hk), <- IH.
    rewrite (sum_at_key f _ k (NoDup_fst_listing_of m)), find_listing.
    cbn [map]. unfold sum_Z. cbn [foldr]. reflexivity.
Qed.

Lemma found_count_sum keys w :
  found_count keys w
  = sum_Z (map (fun k => from_option (fun _ => 1) 0 (FILES w !! k)) keys).
Proof.
  induction keys as [|k keys IH]; [reflexivity|].
  rewrite found_count_cons, IH. cbn [map]. unfold sum_Z. cbn [foldr].
  unfold present. destruct (FILES w !! k) as [o|].
  - rewrite bool_decide_eq_true_2 by eauto. reflexivity.
  - rewrite bool_decide_eq_false_2 by (intros [? ?]; discriminate). reflexivity.
Qed.

Lemma sum_ones {X} (l : list X) : sum_Z (map (fun _ => 1) l) = Z.of_nat (length l).
Proof. induction l as [|a l IH]; [reflexivity|]. cbn [map length]. unfold sum_Z in *. cbn [foldr]. lia. Qed.

Lemma found_distinct keys w :
  NoDup keys ->
  found_bytes keys w = sizes (objects_under keys w) /\
  found_count keys w = Z.of_nat (length (objects_under keys w)).
Proof.
  intros Hnd. split.
  - unfold found_bytes, sizes, objects_under. apply (sum_under size (FILES w) keys Hnd).
  - rewrite found_count_sum, (sum_under (fun _ => 1) (FILES w) keys Hnd).
    apply sum_ones.
Qed.

Lemma elem_of_objects_under keys w k o :
  (k, o) ∈ objects_under keys w <-> k ∈ keys /\ FILES w !! k = Some o.
Proof.
  unfold objects_under. rewrite elem_of_filter, elem_of_listing_of. cbn [fst].
  rewrite bool_decide_eq_true. tauto.
Qed.

End Distinct.

(** C3, as stated, fails for a list that names a key twice: the one object
    of 100 bytes under it is found at each lookup, the answer is
    [updated: 2, totalBytes: 200] and the counter rises by 200, while the
    objects found are one object of 100 bytes. *)
Lemma confirm_counts_a_repeated_key_again :
  let keys := ["u1/a.txt"; "u1/a.txt"] in
  let r := @Presigned.fetch_confirm (reference_runtime no_faults) keys false uploaded_world in
  fst r = Ok (json (JConfirmed 2 200) 200) /\
  counter (snd r) = counter uploaded_world + 200 /\
  map fst (objects_under keys uploaded_world) = ["u1/a.txt"] /\
  sizes (objects_under keys uploaded_world) = 100 /\
  stored_bytes (snd r) = 100.
Proof. vm_compute. repeat split; reflexivity. Qed.

(** C3 (amended).  When no call rejects, POST /api/confirm with a non-empty
    list of keys answers 200; a key without an object adds nothing and
    stays without one; [updated] is the number of keys of the list under
    which an object was found and [totalBytes] the sum of the sizes found
    under them, one term for each key of the list, so that a key listed
    twice is counted twice; the counter ends at its value plus exactly
    [totalBytes].  When the keys of the list are pairwise distinct,
    [totalBytes] is the sum of the sizes of the objects of the bucket that
    are stored under a key of the list, and [updated] their number. *)
Theorem confirm_counts_found `{Runtime} keys pin w :
  keys <> [] -> (forall k, k ∈ keys -> object_calls_ok k) -> counter_calls_ok ->
  let r := Presigned.fetch_confirm keys pin w in
  fst r = Ok (json (JConfirmed (found_count keys w) (found_bytes keys w)) 200) /\
  counter (snd r) = counter w + found_bytes keys w /\
  (forall k, FILES w !! k = None -> size_at (FILES w) k = 0 /\ FILES (snd r) !! k = None) /\
  (forall k o, FILES w !! k = Some o -> size_at (FILES w) k = size o) /\
  (forall k ks, found_bytes (k :: ks) w = size_at (FILES w) k + found_bytes ks w) /\
  (forall k o, (k, o) ∈ objects_under keys w <-> k ∈ keys /\ FILES w !! k = Some o) /\
  (NoDup keys ->
   found_bytes keys w = sizes (objects_under keys w) /\
   found_count keys w = Z.of_nat (length (objects_under keys w))).
Proof.
  intros Hne Hok Hkv r.
  destruct (confirm_run keys pin w Hne Hok Hkv) as (w' & Hrun & Hcnt & _ & _ & _ & Hs & _).
  subst r. rewrite Hrun. cbn [fst snd]. split; [reflexivity|]. split; [exact Hcnt|].
  split; [|split; [|split; [|split]]].
  - intros k Hk. unfold size_at. rewrite Hk. split; [reflexivity|].
    specialize (Hs k). rewrite Hk in Hs. destruct (FILES w' !! k); [discriminate|reflexivity].
  - intros k o Hk. unfold size_at. rewrite Hk. reflexivity.
  - intros k ks. apply found_bytes_cons.
  - intros k o. apply elem_of_objects_under.
  - apply found_distinct.
Qed.

(** One key with an object of 100 bytes, one key without. *)
Lemma confirm_counts_found_witness :
  let keys := ["u1/a.txt"; "u2/never-uploaded.txt"] in
  let r := @Presigned.fetch_confirm (reference_runtime no_faults) keys true uploaded_world in
  fst r = Ok (json (JConfirmed 1 100) 200) /\ counter (snd r) = 100 /\
  sizes (objects_under keys uploaded_world) = 100.
Proof.
  intros keys r.
  destruct (@confirm_counts_found (reference_runtime no_faults) keys true uploaded_world)
    as (Hresp & Hcnt & _ & _ & _ & _ & Hdistinct).
  - discriminate.
  - intros k _. repeat split.
  - split; reflexivity.
  - destruct Hdistinct as [Hbytes _].
    { apply (bool_decide_unpack _). vm_compute. reflexivity. }
    subst r. split; [rewrite Hresp; vm_compute; reflexivity|].
    split; [rewrite Hcnt; vm_compute; reflexivity|].
    rewrite <- Hbytes. vm_compute. reflexivity.
Defined.

(** ** A loop that stops *)

Section AbortStamps.
Context `{Runtime}.

Lemma confirm_aborts_stamped w pre k h post pin :
  (forall k', k' ∈ pre -> object_calls_ok k') ->
  r2_head_fails k = false -> r2_get_fails k = false -> r2_put_fails k = true ->
  FILES w !! k = Some h ->
  exists w1,
    Presigned.fetch_confirm (pre ++ k :: post) pin w = (Throw "R2.put", w1) /\
    FILES_KV w1 = FILES_KV w /\
    (forall k', k' ∉ pre -> FILES w1 !! k' = FILES w !! k') /\
    (forall k' o, k' ∈ pre -> FILES w !! k' = Some o ->
       exists o', FILES w1 !! k' = Some o' /\ stamped_by pin (clock w) o o').
Proof.
  intros Hpre Hh Hg Hp Hk.
  destruct (confirm_loop_stamps pin pre (0, 0) w Hpre)
    as ([updated total] & w1 & Hrun & Hclk & Hkv & Hnone & Hsome).
  assert (Hkpre : k ∉ pre).
  { intros Hin. destruct (Hpre k Hin) as (_ & _ & Hp'). congruence. }
  assert (Hk1 : FILES w1 !! k = Some h).
  { destruct (Hsome k h Hk) as (o' & Ho' & _ & Hout). rewrite (Hout Hkpre) in Ho'.
    exact Ho'. }
  exists w1. split; [|split; [exact Hkv | split]].
  - unfold Presigned.fetch_confirm.
    rewrite bool_decide_eq_false_2 by (destruct pre; discriminate).
    unfold bind at 1. rewrite for_of_app. unfold bind at 1. rewrite Hrun.
    cbn [for_of]. unfold bind at 1.
    rewrite (confirm_key_put_rejects pin _ _ k h w1 Hh Hg Hp Hk1). reflexivity.
  - intros k' Hout. destruct (FILES w !! k') as [o|] eqn:Ho.
    + destruct (Hsome k' o Ho) as (o' & Ho' & _ & Heq). rewrite (Heq Hout) in Ho'.
      exact Ho'.
    + apply Hnone. exact Ho.
  - intros k' o Hin Ho. destruct (Hsome k' o Ho) as (o' & Ho' & Hst & _).
    exists o'. split; [exact Ho' | apply Hst; exact Hin].
Qed.

End AbortStamps.

(** C7 (amended).  Neither loop catches a rejected call.  In the sweep, when
    deleting an object that the rule marks rejects, the request fails with
    that error: the objects marked before it are gone, that object and every
    object listed after it are still in the bucket, and the counter is not
    adjusted.  In confirm, when rewriting a found object rejects, the request
    fails with that error: the objects found under the keys before it are
    stamped ([pinned] and [last_accessed] set, the rest as it was), every
    key that was not before it is as it was, and the counter is not
    adjusted.  What a loop passes over without stopping is an object that
    needs nothing: one the rule spares in the sweep, a key without an object
    in confirm. *)
Theorem loops_stop_at_rejection `{Runtime} :
  (forall w pre k o post r,
      (forall c, r2_list_fails c = false) ->
      listing_of (FILES w) = pre ++ (k, o) :: post ->
      (forall e, e ∈ pre -> sweepable (clock w - ONE_WEEK_MS) (snd e) = true ->
                 r2_delete_fails (fst e) = false) ->
      sweepable (clock w - ONE_WEEK_MS) o = true -> r2_delete_fails k = true ->
      r = Presigned.fetch_scheduled (Some "cron") w \/
      r = Mediated.handleCleanup (Some "cron") w ->
      fst r = Throw "R2.delete" /\
      FILES_KV (snd r) = FILES_KV w /\
      (forall e, e ∈ (k, o) :: post -> FILES (snd r) !! fst e = Some (snd e)) /\
      (forall e, e ∈ swept (clock w) pre -> FILES (snd r) !! fst e = None)) /\
  (forall w pre k h post pin,
      (forall k', k' ∈ pre -> object_calls_ok k') ->
      r2_head_fails k = false -> r2_get_fails k = false -> r2_put_fails k = true ->
      FILES w !! k = Some h ->
      let r := Presigned.fetch_confirm (pre ++ k :: post) pin w in
      fst r = Throw "R2.put" /\
      FILES_KV (snd r) = FILES_KV w /\
      (forall k', k' ∉ pre -> FILES (snd r) !! k' = FILES w !! k') /\
      (forall k' o', k' ∈ pre -> FILES w !! k' = Some o' ->
         exists o'', FILES (snd r) !! k' = Some o'' /\ stamped_by pin (clock w) o' o'')) /\
  (forall cutoff acc k o w,
      sweepable cutoff o = false -> sweep_object cutoff acc (k, o) w = (Ok acc, w)) /\
  (forall pin acc k w,
      r2_head_fails k = false -> FILES w !! k = None ->
      Presigned.confirm_key pin acc k w = (Ok acc, w)).
Proof.
  split; [|split; [|split]].
  3:{ intros cutoff [deleted freed] k o w Hs. unfold sweep_object. rewrite Hs. reflexivity. }
  3:{ intros pin [updated total] k w Hh Hk. apply confirm_key_absent; assumption. }
  - intros w pre k o post r Hlist Hl Hpre Hs Hd Hr.
    rewrite (sweep_aborts w pre k o post r Hlist Hl Hpre Hs Hd Hr). cbn [fst snd].
    destruct (aborted_bucket (clock w) (FILES w) pre k o post Hl) as [Hlater Hgone].
    split; [reflexivity|]. split; [reflexivity|]. split; assumption.
  - intros w pre k h post pin Hpre Hh Hg Hp Hk r.
    destruct (confirm_aborts_stamped w pre k h post pin Hpre Hh Hg Hp Hk)
      as (w1 & Hrun & Hkv & Hout & Hst).
    subst r. rewrite Hrun. cbn [fst snd]. auto.
Qed.

(** The two loops run: deleting B rejects in the pass over the scenario;
    in a confirm of two keys the rewrite of the second rejects, and the
    first is stamped. *)
Lemma loops_stop_at_rejection_witness :
  let rs := @Presigned.fetch_scheduled (reference_runtime (delete_rejects "b/B.txt"))
              (Some "cron") scenario_world in
  let rc := @Presigned.fetch_confirm (reference_runtime (put_rejects "u2/b.txt"))
              ["u1/a.txt"; "u2/b.txt"] true two_uploads_world in
  (fst rs = Throw "R2.delete" /\ FILES_KV (snd rs) = FILES_KV scenario_world) /\
  (fst rc = Throw "R2.put" /\ FILES_KV (snd rc) = FILES_KV two_uploads_world /\
   (exists o, FILES (snd rc) !! "u1/a.txt" = Some o /\ meta o "pinned" = Some "true") /\
   FILES (snd rc) !! "u2/b.txt" = FILES two_uploads_world !! "u2/b.txt").
Proof.
  intros rs rc. split.
  - destruct (@loops_stop_at_rejection (reference_runtime (delete_rejects "b/B.txt")))
      as (Hsweep & _).
    pose (l := listing_of (FILES scenario_world)).
    destruct (Hsweep scenario_world (take 1 l) "b/B.txt"
                (snd (default ("", recent_unstamped) (l !! 1%nat))) (drop 2 l) rs)
      as (Hthrow & Hkv & _).
    + intros c. reflexivity.
    + vm_compute. reflexivity.
    + intros e He Hs. vm_compute in He. apply list_elem_of_singleton in He. subst e.
      vm_compute in Hs. discriminate.
    + vm_compute. reflexivity.
    + vm_compute. reflexivity.
    + left. reflexivity.
    + split; assumption.
  - destruct (@loops_stop_at_rejection (reference_runtime (put_rejects "u2/b.txt")))
      as (_ & Hconfirm & _).
    destruct (Hconfirm two_uploads_world ["u1/a.txt"] "u2/b.txt"
                (object_of 50 [] (NOW - 1000)) [] true)
      as (Hthrow & Hkv & Hout & Hst).
    + intros k He. apply list_elem_of_singleton in He. subst k. repeat split; reflexivity.
    + reflexivity.
    + reflexivity.
    + vm_compute. reflexivity.
    + vm_compute. reflexivity.
    + split; [exact Hthrow|]. split; [exact Hkv|]. split.
      * destruct (Hst "u1/a.txt" (object_of 100 [] (NOW - 1000)))
          as (o & Ho & _ & _ & Hp & _).
        -- apply list_elem_of_here.
        -- vm_compute. reflexivity.
        -- exists o. split; [exact Ho | exact Hp].
      * apply Hout. intros Hin. apply list_elem_of_singleton in Hin. discriminate.
Defined.

(** ** DELETE requests *)

Section DeleteRequests.
Context `{Runtime}.
Variable decode : string -> option string.




End DeleteRequests.



